(* ===== verification/_CoqProject ===== *)
-Q . S2P
Prelude.v
Paths.v
Codec.v
Chart.v
Manifest.v
Prog.v
World.v
Invariant.v
Child.v
Deploy.v
Kubectl.v
Upload.v
Install.v
Documents.v
Update.v
Invocations.v
