(* ===== verification/Prelude.v ===== *)
(** * A verification development for the [helm/action] package

    The program (Go, package [action]) is a small deployment client.
    [Install] makes sure a chart is present in the local workspace, loads it
    and sends each of its manifests to the cluster by running
    [kubectl create -f -] once per manifest, in a fixed order of six
    categories.  [Update] bootstraps the home directory, makes sure the chart
    repository is cloned into the cache and updates it with git.

    ** The parts of the program and the files that model them

    - [Prelude] (this file): Go values shared by every component (the [error]
      value, the two-result convention [(v, err)] as [result]), the tactics and
      the hint database [helm], and the generic lemmas on lists and
      strings.
    - [Paths]: path names as lists of components, [filepath.Join],
      [filepath.Abs] and the resolution of a path against the working
      directory.
    - [Codec]: the format of the documents, module [Json]: structured
      values, their compact JSON text ([encode], [Marshal]) and a reader
      of that text ([decode], [Unmarshal]), with the round trip.
    - [Chart]: the chart model, a record of six ordered sequences of resource
      definitions ([model.Chart], which the sources only import), a
      resource definition being a list of fields with JSON values, and
      [manifests], the total order in which a chart is applied.
    - [Manifest]: the resource serialiser [manifest.MarshalJSON] as the
      specification describes it: the resource as an object, stamped with
      its [apiVersion]; [ReadJSON], which reads a document back; the schema
      [conforms] of a document; and the class [Lossless], the promise of
      the serialiser that [uploadManifests] relies on.
    - [Prog]: the calls the package makes to its environment ([os], [os/exec],
      [path/filepath], [log], [manifest], [model], [vcs], [Fetch]) as an
      indexed type [Op], programs over them as a free monad [prog], program
      equivalence with its [Proper] instances, and the interpreter [exec]
      which runs a program against any handler of the calls and records the
      trace of calls with their answers.  [runs_to] reads a run in big steps
      (result, final world, calls made) and composes along [bind].
    - [World]: a reference environment: the file system as a finite map from
      absolute paths to nodes, the working directory, the programs on the
      search path, the table of child processes with their standard input,
      the documents the cluster has accepted, the git clones and the log.
      Its handler [handle] answers every [Op].  [wf_fs] says that every node
      lives in a directory; the lemmas of the file show what [mkdir -p]
      does to such a file system.  The classes [Layout] and [Collaborators]
      are what the package takes from outside: its path constants, the
      serialiser and the admission decision of the cluster.
    - [Invariant]: what every call of the reference environment keeps:
      the frame of the file system and of the child processes, the
      invariant [wf_fs], and that the cluster and the log only grow; and
      what a program keeps whose writes go [along] a directory or stay
      [within] it.
    - [Child]: the life of a child process as a step relation
      [child_step] (pipe, streams, start, write, close, exit), what rule
      induction shows of it (the phase only advances, a child that has
      exited stays as it is), and that every call of the environment
      moves every child along it.
    - [Deploy]: the abstract specification of a deployment: the function
      [deploy] over the list of manifests and the cluster, and the relation
      [deploys] with the same content as rules.
    - [Kubectl]: [kubectlCreate] of [install.go].
    - [Upload]: [uploadManifests] of [install.go], its six loops, and the
      single loop [uploadLoop] over [manifests] it is equivalent to.
    - [Install]: [chartInstalled] and [Install] of [install.go].
    - [Documents]: the serialiser and the driver together: what
      [uploadManifests] writes to [kubectl] reads back as the chart, and
      [Install] keeps the schema of the documents of the cluster.
    - [Update]: [ensurePrereqs], [ensureHome] with its loop [mkdirLoop],
      [ensureRepo], [gitUpdate] and [Update] of [update.go].
    - [Invocations]: several invocations of the tool on one machine, each
      a process with its working directory, the rest of the world shared;
      the step relation [pool_step] (one call of one invocation), the
      schedules [play] that run it, and what invocations of [Update] on
      one home directory keep and lose when their calls interleave.

    ** How the code is modelled

    Every function of the package is one definition of type [prog R], written
    in the order of the Go text: a call to the environment is [call op], an
    early [return err] is the notation [check!] (or [←?] when the call also
    returns a value), [if err != nil { log.Die(...) }] is [or_die] or
    [get_or_die], and [log.Die] is [die], whose answer type is empty, so that
    nothing runs after it.  A Go function that returns [error] has type
    [prog (option error)], [None] being [nil].  A run that ends inside
    [log.Die], or that waits for a child that never exits, has no result:
    [returned] is [None].

    ** What the theorems show

    Theorems come in two groups.  Those about the order of calls are stated
    for every handler, so they hold whatever the environment answers:
    [uploadManifests] is the single loop over [manifests]; it serialises a
    prefix of that order and stops at the first failure; [kubectlCreate]
    that returns [nil] has made its nine calls in the order of the source;
    [ensureRepo] clones at most once and only after [CheckLocal] said no;
    [Update] ends the process on a failure of [filepath.Abs], with the
    empty string in its message where the path should be;
    the calls of [Install] come in the order look, fetch, load, upload;
    a run of [uploadManifests] makes at most ten calls and creates at most
    one child for each manifest; [kubectlCreate] does not look at what
    [Write] and [Close] answer, so that in two environments that differ
    in these answers only it does and returns the same ([Prog.ignores],
    [Prog.differ_on]).

    Those about the file system, the processes and the cluster are stated
    for the reference environment of [World]: [kubectlCreate] adds the
    document to the cluster exactly when the cluster admits it and always
    comes back; [uploadManifests] refines [deploy]; [chartInstalled] answers
    by the marker file; [Install] fetches exactly when the marker file is
    missing, then loads and deploys, and ends the process on a failure of
    fetch, load or upload; [ensureHome] makes the home directory with its
    subdirectories when nothing is there, ends the process on a file and
    makes nothing when the directory exists; [ensurePrereqs] looks for
    [git] then [kubectl]; [Update] on a fresh machine ends with one clone at
    the head of the remote, on a stale clone pulls in place, and on a home
    directory without its cache directory ends the process; each way in
    which [Update] ends the process (a missing program, a file in the way,
    a working copy of another remote, a failed clone, a failed pull) is a
    theorem that gives the message, the final world and the calls made.
    From [Invariant]: [Install] and [Update] keep the file system well
    formed however far they get and write to their own part of it only
    ([Update] along the home directory, [Install] along the directory of
    the chart in the workspace, without changing directory: the paths
    beside these hold what they held); [Install] takes no document back
    from the cluster, and what it adds are the documents of the resources
    it has serialised, in their order.  From [Child]: the child of
    [kubectlCreate] goes through its whole life and [uploadManifests]
    leaves no child running.

    The serialiser has its own theorems, in [Codec] and [Manifest]: the
    text of a value with no unsupported part reads back as the value
    ([Json.Unmarshal_encode]), [MarshalJSON] fails exactly on the resources
    with a value that has no JSON form, and its document reads back as
    the resource and the version ([ReadJSON_MarshalJSON]).  [Documents]
    carries them through the driver: in the reference environment with
    [MarshalJSON] as the serialiser, the n-th document written to
    [kubectl] reads back as the n-th manifest of the chart for [v1]; and
    for every serialiser that is [Lossless], [Install] leaves a cluster
    whose documents all conform to the schema when they did before.

    The package has no concurrency of its own and no lock on the home
    directory.  [Invocations] runs several invocations call by call over
    the shared world.  [Updates_isolated]: under every interleaving,
    invocations of [Update] on one absolute home directory leave the file
    system beside it, the cluster and the child processes alone and keep
    the file system well formed (by rule induction on [pool_step], from
    [Prog.calls_given]: the calls of [Update] given what the environment
    answers to [filepath.Abs] and [vcs.NewGitRepo]).  [Updates_in_turn]
    and [Updates_race]: on a home directory without a working copy, two
    invocations that run one after the other both return, the second
    pulling what the first cloned; when the second runs between the look
    of the first for a working copy and its clone, the first ends the
    process on [Could not create repository].

    Each theorem with hypotheses is applied to a concrete world in the
    section [sample] of its file, over the layout and the collaborators of
    [World.Sample].

    ** Bounds and assumptions

    - Paths are lists of components: a path string is assumed clean and the
      chart name is one component.  [filepath.Join] is concatenation.
    - The constants [WorkspaceChartPath], [CachePath] and [helmpaths] are
      declared in a file of the package that is not part of the sources at
      hand; they are the fields of the class [Layout] and the theorems hold
      for every layout.  The theorems on a fresh [Update] assume that
      [CachePath] is one of [helmpaths] and that no other entry of
      [helmpaths] lies below it, as git needs an empty directory.
    - The programs use no fuel: the loops of the package range over
      finite lists and are structural recursions, so every program
      terminates as soon as the environment answers; [exec] is a total
      function.  The reader [Json.decode] takes fuel, one unit for each
      value and each element of a sequence it reads; [Json.Unmarshal] gives
      it the length of the document, which is enough for every document
      [Json.encode] writes ([Json.size_length]), so the round trip is
      proved for [Unmarshal] itself.
    - The serialiser is modelled from the specification: the numbers of a
      resource are integers, a string is written with its quotes and
      backslashes escaped and every other character as it is, the fields
      of an object are written in their order, and an [apiVersion] field
      of the resource gives way to the version that is asked for.
    - In [World], [os.Stat] fails only when nothing is at the path,
      [os.MkdirAll] does not look at the permission bits, and
      [filepath.Abs] always answers; what [Update] does when it fails is
      proved for every environment ([Update_abs_failure]).
    - In [World], [Fetch] copies a chart from a cache of charts into the
      workspace and ends the process when the chart is not there or when
      something is in the way; [git clone] needs an answering remote and
      an empty target directory; [git pull] needs an answering remote.
    - The calls to [vcs] are answered by the environment at once: the
      processes that git itself runs are not in the table of child
      processes, which holds the children of [exec.Command] only.
    - In [Invocations] a call is one step: [git clone], [MkdirAll] and
      [Fetch] are not interrupted by the calls of another invocation.
    - In [World] a child process never fails to be created for lack of
      resources; [Start] fails exactly when the program is not on the search
      path, and the exit status of [kubectl] is a function of the cluster
      and of the document it is given ([admits]).  [Wait] on a child that
      still waits for input does not come back.  The order theorems do not
      depend on these choices.
    - Integers occur as the permission bits [0755] and as revision
      numbers of a remote only; no arithmetic is done on either.
    - Commands and pipes are named by numbers, and in [World] the pipe of
      a command has the number of the command.  [kubectlCreate_protocol]
      holds for every environment and says of each handle which call
      answered it, so that it tells the pipe from the command.

    ** Not modelled

    The parsing of a chart from disk ([model.Load]) and the body of
    [Fetch]: neither is part of the sources at hand and the specification
    gives no contract for them beyond their result, so they are calls
    that the environment answers.  The network behaviour of git, and the
    contents of files: a file is a node of the file system without data.
    Of JSON: numbers with a fraction or an exponent, the escapes of
    control characters and white space between the tokens of a document.
    Every line of [install.go] and [update.go] that is code is modelled;
    what is left of the two files is the package clause, the imports,
    comments and blank lines. *)

From Stdlib Require Export ssreflect.
From stdpp Require Export base option list strings.

(** [if] on any type with two constructors, as in plain Rocq. *)
#[global] Open Scope general_if_scope.

(** ** Go values *)

(** A Go [error] value that is not [nil]; [option error] is Go's [error]. *)
Record error := Err { err_msg : string }.

#[export] Instance error_eq_dec : EqDecision error.
Proof. solve_decision. Defined.

(** The pair [(v, err)] a Go function returns: [Ok v] when [err] is [nil]. *)
Inductive result (A : Type) : Type :=
| Ok (v : A)
| Fail (e : error).
Arguments Ok {A} v.
Arguments Fail {A} e.

#[export] Instance result_eq_dec `{EqDecision A} : EqDecision (result A).
Proof. solve_decision. Defined.

(** [err] of a pair [(v, err)]. *)
Definition result_err {A} (r : result A) : option error :=
  match r with
  | Ok _ => None
  | Fail e => Some e
  end.

(** What [%s] prints for an [error], [nil] included. *)
Definition show_err (e : option error) : string :=
  match e with
  | Some e => err_msg e
  | None => "%!s(<nil>)"
  end.

(** A [[]byte] value. *)
Abbreviation bytes := string.

(** ** Automation *)

Create HintDb helm discriminated.
Create Rewrite HintDb helm.

(** Case analysis on the first [match] or [if] of the goal. *)
Ltac case_goal :=
  match goal with
  | |- context [match ?x with _ => _ end] => destruct x eqn:?
  end.

(** Inversion of the equations between pairs, options and results that the
    interpreter leaves in the context. *)
Ltac inv_eqs :=
  repeat match goal with
    | H : (_, _) = (_, _) |- _ => injection H as ??
    | H : Some _ = Some _ |- _ => injection H as ?
    | H : Ok _ = Ok _ |- _ => injection H as ?
    | H : Fail _ = Fail _ |- _ => injection H as ?
    | H : Err _ = Err _ |- _ => injection H as ?
    end; simplify_eq.

(** ** Lists *)

Section lists.
Context {A : Type}.
Implicit Types l k : list A.

Lemma prefix_app_same l k : l `prefix_of` l ++ k.
Proof. by exists k. Qed.

Lemma prefix_snoc l k x : l ++ [x] `prefix_of` k → l `prefix_of` k.
Proof. intros [k' ->]. rw -app_assoc. apply prefix_app_same. Qed.

Lemma prefix_take_length l k : l `prefix_of` k → l = take (length l) k.
Proof. intros [k' ->]. by rw take_app_length. Qed.

Lemma app_prefix_cases l k1 k2 :
  l `prefix_of` k1 ++ k2 →
  l `prefix_of` k1 ∨ ∃ l2, l = k1 ++ l2 ∧ l2 `prefix_of` k2.
Proof.
  revert l. induction k1 as [|x k1 IH]; intros l Hl; simpl in *.
  - right. by exists l.
  - destruct l as [|y l]; [left; apply prefix_nil|].
    pose proof (prefix_cons_inv_1 _ _ _ _ Hl) as ->.
    apply prefix_cons_inv_2, IH in Hl as [Hl|(l2 & -> & Hl2)].
    + left. by apply prefix_cons.
    + right. by exists l2.
Qed.

Lemma snoc_not_prefix (l : list A) (x : A) : ¬ (l ++ [x]) `prefix_of` l.
Proof. intros Hp%prefix_length. rw length_app /= in Hp. lia. Qed.

Lemma exists_elem_of (l : list A) : l ≠ [] → ∃ x, x ∈ l.
Proof. destruct l as [|x l]; [done|]. exists x. by left. Qed.

Lemma Forall_app_l (P : A → Prop) l k : Forall P (l ++ k) → Forall P l.
Proof. rw Forall_app. tauto. Qed.

Lemma sum_list_fmap_le (f g : A → nat) l :
  Forall (λ x, f x ≤ g x) l → sum_list (f <$> l) ≤ sum_list (g <$> l).
Proof. induction 1 as [|x l Hx _ IH]; [done|]. rw !fmap_cons /=. lia. Qed.
End lists.

(** ** Strings *)

Section strings.
#[local] Arguments String.append !_ _ / : simpl nomatch.
Implicit Types s t u : string.

Lemma string_app_nil_r s : s +:+ "" = s.
Proof. induction s as [|c s IH]; [done|]. by rw /= IH. Qed.

Lemma string_app_assoc s t u : (s +:+ t) +:+ u = s +:+ t +:+ u.
Proof. induction s as [|c s IH]; [done|]. by rw /= IH. Qed.

Lemma string_app_length s t :
  String.length (s +:+ t) = String.length s + String.length t.
Proof. induction s as [|c s IH]; [done|]. by rw /= IH. Qed.

(** The length of strings joined by a one-character separator. *)
Lemma concat_length (sep : Ascii.ascii) (ss : list string) :
  ss ≠ [] →
  S (String.length (String.concat (String sep "") ss))
  = sum_list ((λ s, S (String.length s)) <$> ss).
Proof.
  induction ss as [|s [|s' ss] IH]; [done|by rw /= Nat.add_0_r|]. intros _.
  change (String.concat (String sep "") (s :: s' :: ss))
    with (s +:+ String sep (String.concat (String sep "") (s' :: ss))).
  rw fmap_cons string_app_length. cbn [sum_list_with]. by rw -IH //= Nat.add_succ_r.
Qed.
End strings.

#[export] Hint Resolve prefix_nil prefix_app_same prefix_cons : helm.
