(* ===== verification/Paths.v ===== *)
(** * Path names

    A path string of the program is its list of components together with
    whether it starts at the root.  [Join] is [filepath.Join] on clean
    paths, [resolve] is what the operating system does with a path when the
    working directory is [cwd], and [ancestors] are the directories
    [os.MkdirAll] walks through. *)

From S2P Require Import Prelude.

Record path := Path { rooted : bool; comps : list string }.

#[export] Instance path_eq_dec : EqDecision path.
Proof. solve_decision. Defined.

(** An absolute path, as the file system names its nodes. *)
Abbreviation abspath := (list string).

Definition Abs (cs : list string) : path := Path true cs.
Definition Rel (cs : list string) : path := Path false cs.

(** A single name used as a path element, such as a chart name. *)
Definition seg (name : string) : path := Rel [name].

(** [filepath.Join(elems...)]: the components of the elements in order; the
    result is rooted when the first element is. *)
Definition Join (elems : list path) : path :=
  match elems with
  | [] => Rel []
  | p :: ps => Path (rooted p) (comps p ++ concat (comps <$> ps))
  end.

(** The text of a path, as the log prints it. *)
Definition show_path (p : path) : string :=
  String.append (if rooted p then "/" else "") (String.concat "/" (comps p)).

(** The node a path names when the working directory is [cwd]. *)
Definition resolve (cwd : abspath) (p : path) : abspath :=
  if rooted p then comps p else cwd ++ comps p.

(** [filepath.Abs] when the working directory is [cwd]. *)
Definition absolute (cwd : abspath) (p : path) : path :=
  Abs (resolve cwd p).

(** The non-empty prefixes of a path, shortest first, the path included:
    the directories [mkdir -p] makes sure of. The root is not listed. *)
Fixpoint ancestors_from (base : abspath) (cs : list string) : list abspath :=
  match cs with
  | [] => []
  | c :: cs' => (base ++ [c]) :: ancestors_from (base ++ [c]) cs'
  end.

Definition ancestors (p : abspath) : list abspath := ancestors_from [] p.

Section paths.
Implicit Types (p q : path) (cwd a b : abspath).

Lemma Join_cons p ps :
  Join (p :: ps) = Path (rooted p) (comps p ++ concat (comps <$> ps)).
Proof. done. Qed.

Lemma Join_single p : Join [p] = p.
Proof. destruct p. by rw /Join /= app_nil_r. Qed.

Lemma Join_Join p ps qs : Join (Join (p :: ps) :: qs) = Join (p :: ps ++ qs).
Proof. by rw /Join /= fmap_app concat_app app_assoc. Qed.

Lemma resolve_Join cwd p ps :
  resolve cwd (Join (p :: ps)) = resolve cwd p ++ concat (comps <$> ps).
Proof. rw /resolve /=. destruct (rooted p); by rw ?app_assoc. Qed.

Lemma resolve_Join_prefix cwd p ps :
  resolve cwd p `prefix_of` resolve cwd (Join (p :: ps)).
Proof. rw resolve_Join. apply prefix_app_same. Qed.

Lemma resolve_rooted cwd cwd' p :
  rooted p = true → resolve cwd p = resolve cwd' p.
Proof. rw /resolve. by intros ->. Qed.

Lemma resolve_Abs cwd cs : resolve cwd (Abs cs) = cs.
Proof. done. Qed.

Lemma resolve_absolute cwd cwd' p :
  resolve cwd' (absolute cwd p) = resolve cwd p.
Proof. done. Qed.

Lemma elem_of_ancestors_from base cs a :
  a ∈ ancestors_from base cs ↔
  ∃ k, a = base ++ k ∧ k ≠ [] ∧ k `prefix_of` cs.
Proof.
  revert base. induction cs as [|c cs IH]; intros base; simpl.
  - rw elem_of_nil. split; [done|].
    intros (k & _ & Hk & Hp). by apply prefix_nil_inv in Hp.
  - rw elem_of_cons IH. split.
    + intros [->|(k & -> & Hk & Hp)].
      * exists [c]. split_and!; [done..|]. by apply prefix_cons, prefix_nil.
      * exists (c :: k). rw -app_assoc. split_and!; [done..|].
        by apply prefix_cons.
    + intros (k & -> & Hk & Hp). destruct k as [|c' k]; [done|].
      pose proof (prefix_cons_inv_1 _ _ _ _ Hp) as ->.
      apply prefix_cons_inv_2 in Hp.
      destruct k as [|c'' k]; [by left|right].
      exists (c'' :: k). by rw -app_assoc.
Qed.

Lemma elem_of_ancestors a b :
  a ∈ ancestors b ↔ a ≠ [] ∧ a `prefix_of` b.
Proof.
  rw /ancestors elem_of_ancestors_from. split.
  - by intros (k & -> & ? & ?).
  - intros [??]. by exists a.
Qed.

Lemma ancestors_self a : a ≠ [] → a ∈ ancestors a.
Proof. intros. by apply elem_of_ancestors. Qed.

Lemma ancestors_from_app base cs1 cs2 :
  ancestors_from base (cs1 ++ cs2) =
  ancestors_from base cs1 ++ ancestors_from (base ++ cs1) cs2.
Proof.
  revert base. induction cs1 as [|c cs1 IH]; intros base; simpl.
  - by rw app_nil_r.
  - by rw IH -app_assoc.
Qed.
End paths.

Arguments Join : simpl never.
Arguments ancestors : simpl never.
Arguments resolve : simpl never.

#[export] Hint Resolve resolve_Join_prefix ancestors_self : helm.
#[export] Hint Rewrite resolve_Join resolve_Abs resolve_absolute : helm.
