(* ===== verification/Codec.v ===== *)
(** * The document format

    [manifest.MarshalJSON] answers with a JSON document.  The package
    [manifest] is not part of the sources at hand; the module [Json] models
    the format from the specification: structured values, their compact
    JSON text ([Marshal], which fails on a value that has no JSON form),
    and a reader of that text ([Unmarshal]) that stands for the client at
    the other end of the pipe.
    The round trip [Unmarshal_encode] shows that nothing of a value is lost
    in its document.

    Numbers are integers; in a string the quote and the backslash are
    escaped with a backslash and every other character is written as it
    is.  The reader takes fuel; the length of the text is enough
    ([size_length]). *)

From Stdlib Require Import ZArith DecimalString DecimalZ DecimalPos Ascii.
From S2P Require Import Prelude.

#[local] Arguments String.append !_ _ / : simpl nomatch.

Module Json.

(** ** Values *)

(** A value to serialise.  [Opaque] is a Go value that has no JSON form (a
    channel, a function, a complex number), with the name of its type. *)
Unset Elimination Schemes.
Inductive value :=
| Null
| Bool (b : bool)
| Num (n : Z)
| Str (s : string)
| Arr (vs : list value)
| Obj (fields : list (string * value))
| Opaque (type : string).
Set Elimination Schemes.

(** Induction on a value, with the hypothesis for every element of an
    array and every field of an object. *)
Section value_ind.
Context (P : value → Prop).
Context (HNull : P Null) (HBool : ∀ b, P (Bool b)) (HNum : ∀ n, P (Num n))
  (HStr : ∀ s, P (Str s)) (HArr : ∀ vs, Forall P vs → P (Arr vs))
  (HObj : ∀ fs, Forall (λ kv, P kv.2) fs → P (Obj fs))
  (HOpaque : ∀ t, P (Opaque t)).

Fixpoint value_ind (v : value) : P v :=
  match v with
  | Null => HNull
  | Bool b => HBool b
  | Num n => HNum n
  | Str s => HStr s
  | Arr vs =>
      HArr vs ((fix go vs : Forall P vs :=
                  match vs with
                  | [] => Forall_nil_2 P
                  | v :: vs => Forall_cons_2 P v vs (value_ind v) (go vs)
                  end) vs)
  | Obj fs =>
      HObj fs ((fix go fs : Forall (λ kv, P kv.2) fs :=
                  match fs with
                  | [] => Forall_nil_2 _
                  | kv :: fs => Forall_cons_2 _ kv fs (value_ind kv.2) (go fs)
                  end) fs)
  | Opaque t => HOpaque t
  end.
End value_ind.

#[global] Instance value_eq_dec : EqDecision value.
Proof.
  refine (fix go (v1 v2 : value) {struct v1} : Decision (v1 = v2) :=
    match v1, v2 with
    | Null, Null => left _
    | Bool b1, Bool b2 => cast_if (decide (b1 = b2))
    | Num n1, Num n2 => cast_if (decide (n1 = n2))
    | Str s1, Str s2 => cast_if (decide (s1 = s2))
    | Arr vs1, Arr vs2 => cast_if (@list_eq_dec _ go vs1 vs2)
    | Obj fs1, Obj fs2 =>
        cast_if (@list_eq_dec _ (@prod_eq_dec _ _ _ go) fs1 fs2)
    | Opaque t1, Opaque t2 => cast_if (decide (t1 = t2))
    | _, _ => right _
    end); congruence.
Defined.

(** The first of two answers that is one. *)
Definition or_else {A} (x y : option A) : option A :=
  match x with
  | Some a => Some a
  | None => y
  end.

(** The type of the first part of a value that has no JSON form, in the
    order of the document. *)
Fixpoint unsupported (v : value) : option string :=
  match v with
  | Opaque t => Some t
  | Arr vs => foldr (λ v, or_else (unsupported v)) None vs
  | Obj fs => foldr (λ kv, or_else (unsupported kv.2)) None fs
  | _ => None
  end.

(** The number of values in a value, itself included, plus one for each
    element of a sequence: the calls the reader makes on its document. *)
Fixpoint size (v : value) : nat :=
  match v with
  | Arr vs => S (sum_list ((λ v, S (size v)) <$> vs))
  | Obj fs => S (sum_list ((λ kv, S (size kv.2)) <$> fs))
  | _ => 1
  end.

(** ** Writing *)

Definition quote : ascii := ascii_of_nat 34.
Definition backslash : ascii := ascii_of_nat 92.

(** The characters that are escaped in a string. *)
Definition special (c : ascii) : bool :=
  Ascii.eqb c quote || Ascii.eqb c backslash.

Fixpoint escape (s : string) : string :=
  match s with
  | EmptyString => EmptyString
  | String c s =>
      if special c then String backslash (String c (escape s))
      else String c (escape s)
  end.

Definition encode_string (s : string) : string :=
  String quote (escape s +:+ String quote "").

Definition encode_int (n : Z) : string := NilEmpty.string_of_int (Z.to_int n).

Definition encode_field (encode : value → string) (kv : string * value)
    : string :=
  encode_string kv.1 +:+ ":" +:+ encode kv.2.

(** The compact text of a value.  The fields of an object are written in
    their order. *)
Fixpoint encode (v : value) : string :=
  match v with
  | Null | Opaque _ => "null"
  | Bool b => if b then "true" else "false"
  | Num n => encode_int n
  | Str s => encode_string s
  | Arr vs => "[" +:+ String.concat "," (encode <$> vs) +:+ "]"
  | Obj fs => "{" +:+ String.concat "," (encode_field encode <$> fs) +:+ "}"
  end.

(** [json.Marshal]: the text of the value, or the error that names the
    first type without a JSON form. *)
Definition Marshal (v : value) : result bytes :=
  match unsupported v with
  | Some t => Fail (Err ("json: unsupported type: " +:+ t))
  | None => Ok (encode v)
  end.

(** A text written with ['] where the document has the quote character. *)
Fixpoint text (s : string) : string :=
  match s with
  | EmptyString => EmptyString
  | String c s => String (if Ascii.eqb c "'" then quote else c) (text s)
  end.

(** ** Reading *)

Definition digit (c : ascii) : bool := Ascii.leb "0" c && Ascii.leb c "9".
Definition numeric (c : ascii) : bool := Ascii.eqb c "-" || digit c.

(** The longest prefix of characters that satisfy [p], and the rest. *)
Fixpoint span (p : ascii → bool) (s : string) : string * string :=
  match s with
  | String c s' =>
      if p c then let '(a, b) := span p s' in (String c a, b) else ("", s)
  | EmptyString => ("", "")
  end.

(** The input without the literal [lit] it begins with. *)
Fixpoint expect (lit s : string) : option string :=
  match lit, s with
  | EmptyString, _ => Some s
  | String a lit, String b s => if Ascii.eqb b a then expect lit s else None
  | String _ _, EmptyString => None
  end.

(** The string up to the closing quote, escapes undone, and what follows
    the quote. *)
Fixpoint unescape (s : string) : option (string * string) :=
  match s with
  | EmptyString => None
  | String c s' =>
      if Ascii.eqb c quote then Some ("", s')
      else if Ascii.eqb c backslash then
        match s' with
        | String d s'' =>
            if special d then prod_map (String d) id <$> unescape s'' else None
        | EmptyString => None
        end
      else prod_map (String c) id <$> unescape s'
  end.

Definition decode_int (s : string) : option (value * string) :=
  let '(digits, rest) := span numeric s in
  n ← NilEmpty.int_of_string digits; Some (Num (Z.of_int n), rest).

(** What follows an element [x] of a sequence: a comma and the elements
    that [next] reads, or the closing character. *)
Definition more {A} (close : ascii) (x : A) (rest : string)
    (next : string → option (list A * string)) : option (list A * string) :=
  match rest with
  | String c rest =>
      if Ascii.eqb c "," then '(xs, rest) ← next rest; Some (x :: xs, rest)
      else if Ascii.eqb c close then Some ([x], rest)
      else None
  | EmptyString => None
  end.

(** The value at the head of the input and the rest of the input. *)
Fixpoint decode (fuel : nat) (s : string) : option (value * string) :=
  match fuel, s with
  | S fuel, String c s' =>
      if numeric c then decode_int s
      else if Ascii.eqb c "n" then rest ← expect "ull" s'; Some (Null, rest)
      else if Ascii.eqb c "t" then
        rest ← expect "rue" s'; Some (Bool true, rest)
      else if Ascii.eqb c "f" then
        rest ← expect "alse" s'; Some (Bool false, rest)
      else if Ascii.eqb c quote then
        '(str, rest) ← unescape s'; Some (Str str, rest)
      else if Ascii.eqb c "[" then
        match expect "]" s' with
        | Some rest => Some (Arr [], rest)
        | None => '(vs, rest) ← decode_items fuel s'; Some (Arr vs, rest)
        end
      else if Ascii.eqb c "{" then
        match expect "}" s' with
        | Some rest => Some (Obj [], rest)
        | None => '(fs, rest) ← decode_fields fuel s'; Some (Obj fs, rest)
        end
      else None
  | _, _ => None
  end
with decode_items (fuel : nat) (s : string) : option (list value * string) :=
  match fuel with
  | S fuel => '(v, rest) ← decode fuel s; more "]" v rest (decode_items fuel)
  | 0 => None
  end
with decode_fields (fuel : nat) (s : string)
    : option (list (string * value) * string) :=
  match fuel with
  | S fuel =>
      s ← expect (String quote "") s;
      '(k, rest) ← unescape s;
      rest ← expect ":" rest;
      '(v, rest) ← decode fuel rest;
      more "}" (k, v) rest (decode_fields fuel)
  | 0 => None
  end.

(** [json.Unmarshal]: the value of a document, nothing left over. *)
Definition Unmarshal (s : bytes) : option value :=
  '(v, rest) ← decode (String.length s) s;
  if rest is EmptyString then Some v else None.

(** Every character of [s] satisfies [p]. *)
Fixpoint every (p : ascii → bool) (s : string) : bool :=
  match s with
  | String c s => p c && every p s
  | EmptyString => true
  end.

(** The input [rest] does not go on with a character that satisfies [p]. *)
Definition stops (p : ascii → bool) (rest : string) : bool :=
  match rest with
  | String c _ => negb (p c)
  | EmptyString => true
  end.

(** The reader gets [v] back from its text, with enough fuel and when what
    follows does not go on with the number. *)
Definition reads (v : value) : Prop :=
  ∀ fuel rest, size v ≤ fuel → stops numeric rest →
    decode fuel (encode v +:+ rest) = Some (v, rest).

(** ** The equations of the definitions *)

Lemma size_Arr vs : size (Arr vs) = S (sum_list ((λ v, S (size v)) <$> vs)).
Proof. done. Qed.

Lemma size_Obj fs :
  size (Obj fs) = S (sum_list ((λ kv, S (size kv.2)) <$> fs)).
Proof. done. Qed.

Lemma unsupported_Arr v vs :
  unsupported (Arr (v :: vs)) = None →
  unsupported v = None ∧ unsupported (Arr vs) = None.
Proof. simpl. by destruct (unsupported v). Qed.

Lemma unsupported_Obj k v fs :
  unsupported (Obj ((k, v) :: fs)) = None →
  unsupported v = None ∧ unsupported (Obj fs) = None.
Proof. simpl. by destruct (unsupported v). Qed.

Lemma encode_Arr vs rest :
  encode (Arr vs) +:+ rest =
  String "[" (String.concat "," (encode <$> vs) +:+ String "]" rest).
Proof. by rw /= string_app_assoc. Qed.

Lemma encode_Obj fs rest :
  encode (Obj fs) +:+ rest =
  String "{"
    (String.concat "," (encode_field encode <$> fs) +:+ String "}" rest).
Proof. by rw /= string_app_assoc. Qed.

Lemma decode_Arr fuel s :
  decode (S fuel) (String "[" s) =
  match expect "]" s with
  | Some rest => Some (Arr [], rest)
  | None => '(vs, rest) ← decode_items fuel s; Some (Arr vs, rest)
  end.
Proof. done. Qed.

Lemma decode_Obj fuel s :
  decode (S fuel) (String "{" s) =
  match expect "}" s with
  | Some rest => Some (Obj [], rest)
  | None => '(fs, rest) ← decode_fields fuel s; Some (Obj fs, rest)
  end.
Proof. done. Qed.

(** The first of the strings joined, and what follows it. *)
Lemma concat_cons (s : string) (ss : list string) rest close :
  String.concat "," (s :: ss) +:+ String close rest =
  s +:+ (if ss is [] then String close rest
         else String "," (String.concat "," ss +:+ String close rest)).
Proof. destruct ss; [done|]. by rw /= !string_app_assoc. Qed.

(** ** Scanning *)

Section scanning.
Implicit Types (s rest : string) (c d : ascii).

Lemma expect_app lit rest : expect lit (lit +:+ rest) = Some rest.
Proof.
  induction lit as [|c lit IH]; [by destruct rest|]. by rw /= Ascii.eqb_refl.
Qed.

Lemma special_false c :
  special c = false → Ascii.eqb c quote = false ∧ Ascii.eqb c backslash = false.
Proof. apply orb_false_elim. Qed.

(** A string reads back from its escaped text. *)
Lemma unescape_escape s rest :
  unescape (escape s +:+ String quote rest) = Some (s, rest).
Proof.
  induction s as [|c s IH]; [done|]. simpl. destruct (special c) eqn:Hc.
  - by rw /= Hc IH.
  - destruct (special_false c Hc) as [Hq Hb]. by rw /= Hq Hb IH.
Qed.

Lemma span_app p s rest :
  every p s → stops p rest → span p (s +:+ rest) = (s, rest).
Proof.
  intros Hs Hr. induction s as [|c s IH]; simpl in *.
  - destruct rest as [|c rest]; [done|]. simpl in *. by destruct (p c).
  - destruct (p c); [|done]. by rw IH.
Qed.

Lemma every_string_of_uint u : every numeric (NilEmpty.string_of_uint u).
Proof. induction u; by simpl. Qed.

Lemma every_encode_int n : every numeric (encode_int n).
Proof.
  rw /encode_int. destruct (Z.to_int n); simpl; apply every_string_of_uint.
Qed.

Lemma string_of_uint_head u :
  u ≠ Decimal.Nil → ∃ c s, NilEmpty.string_of_uint u = String c s.
Proof. destruct u; [done|simpl; eauto..]. Qed.

(** The text of a number is not empty and begins like a number. *)
Lemma encode_int_head n : ∃ c s, encode_int n = String c s ∧ numeric c.
Proof.
  pose proof (every_encode_int n) as Hn. revert Hn. rw /encode_int.
  destruct n as [|p|p]; simpl; [by eauto| |].
  - destruct (string_of_uint_head _ (Unsigned.to_uint_nonnil p)) as (c & s & ->).
    intros [? _]%andb_prop_elim. eauto.
  - eauto.
Qed.

(** A number reads back from its text. *)
Lemma decode_int_encode n rest :
  stops numeric rest → decode_int (encode_int n +:+ rest) = Some (Num n, rest).
Proof.
  intros Hr. rw /decode_int span_app //; [apply every_encode_int|].
  by rw /encode_int NilEmpty.isi /= of_to.
Qed.

Lemma numeric_not c d : numeric d → numeric c = false → Ascii.eqb d c = false.
Proof.
  intros Hd Hc. by destruct (Ascii.eqb_spec d c) as [->|]; [rw Hc in Hd|].
Qed.
End scanning.

(** ** The round trip *)

Lemma reads_Num n : reads (Num n).
Proof.
  intros [|fuel] rest Hf Hr; [simpl in Hf; lia|].
  pose proof (decode_int_encode n rest Hr) as Hd. simpl in *. revert Hd.
  destruct (encode_int_head n) as (c & s & -> & Hc). simpl.
  by destruct (numeric c).
Qed.

Lemma reads_scalar v :
  match v with Arr _ | Obj _ | Opaque _ => False | _ => True end → reads v.
Proof.
  destruct v as [|[]|n|s| | |]; try done; intros _; [| | |apply reads_Num|];
    intros [|fuel] rest Hf Hr; try (simpl in Hf; lia); try done.
  by rw /= string_app_assoc /= unescape_escape.
Qed.

(** No text of a value begins with a closing bracket. *)
Lemma expect_close_encode v rest : expect "]" (encode v +:+ rest) = None.
Proof.
  destruct v as [|[]|n| | | |]; try done.
  destruct (encode_int_head n) as (c & s & Hn & Hc).
  by rw /= Hn /= (numeric_not "]" c).
Qed.

Lemma expect_close_field kv rest :
  expect "}" (encode_field encode kv +:+ rest) = None.
Proof. done. Qed.

Lemma decode_items_encode vs fuel rest :
  Forall (λ v, unsupported v = None → reads v) vs →
  unsupported (Arr vs) = None → vs ≠ [] → size (Arr vs) ≤ S fuel →
  decode_items fuel (String.concat "," (encode <$> vs) +:+ String "]" rest)
  = Some (vs, rest).
Proof.
  intros Hvs. revert fuel. induction Hvs as [|v vs Hv _ IH]; [done|].
  intros [|fuel] [Hu Hus]%unsupported_Arr _ Hf; [simpl in Hf; lia|].
  rw fmap_cons concat_cons. cbn [decode_items]. rw size_Arr fmap_cons /= in Hf.
  rw (Hv Hu); [lia|by destruct vs|]. destruct vs as [|v' vs]; [done|].
  cbn [mbind option_bind more]. cbn -[decode_items String.concat].
  rw IH // size_Arr; lia.
Qed.

Lemma decode_fields_encode fs fuel rest :
  Forall (λ kv, unsupported kv.2 = None → reads kv.2) fs →
  unsupported (Obj fs) = None → fs ≠ [] → size (Obj fs) ≤ S fuel →
  decode_fields fuel
    (String.concat "," (encode_field encode <$> fs) +:+ String "}" rest)
  = Some (fs, rest).
Proof.
  intros Hfs. revert fuel. induction Hfs as [|[k v] fs Hv _ IH]; [done|].
  intros [|fuel] [Hu Hus]%unsupported_Obj _ Hf; [simpl in Hf; lia|].
  rw fmap_cons concat_cons /encode_field /encode_string.
  cbn [decode_fields expect String.append fst snd] in *.
  rw size_Obj fmap_cons /= in Hf.
  rw Ascii.eqb_refl !string_app_assoc. cbn [mbind option_bind String.append].
  rw unescape_escape. cbn [mbind option_bind expect String.append].
  rw Ascii.eqb_refl /= (Hv Hu); [lia|by destruct fs|].
  destruct fs as [|kv fs]; [done|].
  cbn [mbind option_bind more]. cbn -[decode_fields String.concat].
  rw IH // size_Obj; lia.
Qed.

(** The text of a value with no unsupported part reads back as the value,
    whatever follows it. *)
Lemma decode_encode v : unsupported v = None → reads v.
Proof.
  induction v as [| | | |vs IH|fs IH|t] using value_ind;
    try (intros _; by apply reads_scalar);
    [| |done]; intros Hu [|fuel] rest Hf Hr; try (simpl in Hf; lia).
  - rw encode_Arr decode_Arr. destruct vs as [|v vs]; [done|].
    rw fmap_cons concat_cons expect_close_encode -concat_cons -fmap_cons.
    by rw (decode_items_encode (v :: vs)).
  - rw encode_Obj decode_Obj. destruct fs as [|kv fs]; [done|].
    rw fmap_cons concat_cons expect_close_field -concat_cons -fmap_cons.
    by rw (decode_fields_encode (kv :: fs)).
Qed.

(** ** The fuel *)

Lemma sequence_length {A} (f : A → string) (l : list A) close :
  sum_list ((λ x, S (String.length (f x))) <$> l)
  ≤ String.length (String.concat "," (f <$> l) +:+ String close "").
Proof.
  destruct l as [|x l]; [simpl; lia|].
  change (λ x, S (String.length (f x))) with ((λ s, S (String.length s)) ∘ f).
  rw string_app_length list_fmap_compose -(concat_length ",") //=. lia.
Qed.

(** The length of a document is enough fuel to read it. *)
Lemma size_length v : size v ≤ String.length (encode v).
Proof.
  induction v as [|[]|n|s|vs IH|fs IH|t] using value_ind;
    try (simpl; lia).
  - destruct (encode_int_head n) as (c & s & Hn & _). rw /= Hn /=. lia.
  - rw size_Arr. apply le_n_S. etrans; [|apply (sequence_length encode)].
    apply sum_list_fmap_le. eapply Forall_impl; [done|].
    intros v Hv. by apply le_n_S.
  - rw size_Obj. apply le_n_S.
    etrans; [|apply (sequence_length (encode_field encode))].
    apply sum_list_fmap_le. eapply Forall_impl; [done|]. intros [k v] Hv.
    rw /encode_field !string_app_length. cbn [fst snd] in *. lia.
Qed.

(** ** What the format promises *)

(** What is written reads back. *)
Lemma Unmarshal_encode v : unsupported v = None → Unmarshal (encode v) = Some v.
Proof.
  intros Hv.
  rw /Unmarshal -{2}(string_app_nil_r (encode v)) (decode_encode v) //.
  apply size_length.
Qed.

Lemma Marshal_Ok v : unsupported v = None → Marshal v = Ok (encode v).
Proof. by rw /Marshal => ->. Qed.

Lemma Marshal_Fail v t :
  unsupported v = Some t →
  Marshal v = Fail (Err ("json: unsupported type: " +:+ t)).
Proof. by rw /Marshal => ->. Qed.

(** [Marshal] fails exactly on the values with an unsupported part. *)
Lemma Marshal_is_Ok v : (∃ d, Marshal v = Ok d) ↔ unsupported v = None.
Proof.
  rw /Marshal. destruct (unsupported v); split; try done; [by intros []|].
  by exists (encode v).
Qed.

Lemma Marshal_Unmarshal v d : Marshal v = Ok d → Unmarshal d = Some v.
Proof.
  rw /Marshal. destruct (unsupported v) eqn:Hv; [done|].
  intros [= <-]. by apply Unmarshal_encode.
Qed.

(** No two values have the same document. *)
Lemma Marshal_inj v1 v2 d : Marshal v1 = Ok d → Marshal v2 = Ok d → v1 = v2.
Proof. intros H1%Marshal_Unmarshal H2%Marshal_Unmarshal. congruence. Qed.

End Json.
