(* ===== verification/Chart.v ===== *)
(** * The chart model

    [model.Chart] is declared outside the sources at hand; [install.go] reads
    six of its fields, each a sequence of resource definitions.  A resource
    definition is opaque to the package: it is handed to
    [manifest.MarshalJSON] and never inspected.  [manifests] is the order in
    which [uploadManifests] walks a chart. *)

From S2P Require Import Prelude Codec.

(** A resource definition: structured key/value data the package never looks
    into. *)
Record Resource := MkResource { res_fields : list (string * Json.value) }.

#[export] Instance Resource_eq_dec : EqDecision Resource.
Proof. solve_decision. Defined.

(** The six categories of a chart, in the order of the doc comment of
    [Install]. *)
Inductive Kind :=
| Namespace
| Secret
| PersistentVolume
| Service
| Pod
| ReplicationController.

#[export] Instance Kind_eq_dec : EqDecision Kind.
Proof. solve_decision. Defined.

Definition kinds : list Kind :=
  [Namespace; Secret; PersistentVolume; Service; Pod; ReplicationController].

(** The fields of [model.Chart] that [uploadManifests] ranges over. *)
Record Chart := MkChart {
  Namespaces : list Resource;
  Secrets : list Resource;
  PersistentVolumes : list Resource;
  Services : list Resource;
  Pods : list Resource;
  ReplicationControllers : list Resource;
}.

#[export] Instance Chart_eq_dec : EqDecision Chart.
Proof. solve_decision. Defined.

(** The sequence of a chart for one category. *)
Definition category (c : Chart) (k : Kind) : list Resource :=
  match k with
  | Namespace => Namespaces c
  | Secret => Secrets c
  | PersistentVolume => PersistentVolumes c
  | Service => Services c
  | Pod => Pods c
  | ReplicationController => ReplicationControllers c
  end.

(** Every resource of a chart with its category, category by category. *)
Definition tagged_manifests (c : Chart) : list (Kind * Resource) :=
  k ← kinds; pair k <$> category c k.

(** Every resource of a chart in the order of application. *)
Definition manifests (c : Chart) : list Resource :=
  Namespaces c ++ Secrets c ++ PersistentVolumes c ++ Services c ++ Pods c
    ++ ReplicationControllers c.

Definition empty_chart : Chart := MkChart [] [] [] [] [] [].

Section chart.
Implicit Types (c : Chart) (k : Kind) (o : Resource).

Lemma kinds_complete k : k ∈ kinds.
Proof. destruct k; by apply (bool_decide_unpack _). Qed.

Lemma kinds_NoDup : NoDup kinds.
Proof. by apply (bool_decide_unpack _). Qed.

Lemma manifests_tagged c : manifests c = snd <$> tagged_manifests c.
Proof.
  rw /tagged_manifests /manifests /kinds /=.
  rw !fmap_app -!list_fmap_compose /= !list_fmap_id. by rw app_nil_r.
Qed.

Lemma manifests_length c :
  length (manifests c) =
  sum_list ((λ k, length (category c k)) <$> kinds).
Proof. rw /manifests /= !length_app. lia. Qed.

Lemma elem_of_manifests c o :
  o ∈ manifests c ↔ ∃ k, o ∈ category c k.
Proof.
  rw /manifests !elem_of_app. split.
  - intros H. destruct_or!;
      [by exists Namespace | by exists Secret | by exists PersistentVolume
      | by exists Service | by exists Pod | by exists ReplicationController].
  - intros [[] ?]; simpl in *; tauto.
Qed.
End chart.
