(* ===== verification/Manifest.v ===== *)
(** * The resource serialiser: [manifest.MarshalJSON]

    The package [manifest] is not part of the sources at hand.  The
    specification describes its one function: the document of a resource
    is the resource as an object, tagged with an [apiVersion] field set to
    the version that is asked for, and a resource with a value that has no
    JSON form has no document.  [MarshalJSON] is a function, so the same
    resource and version give the same bytes each time.  [ReadJSON] reads
    a document back and [Lossless] is what [uploadManifests] is promised:
    the document holds the resource and the version. *)

From S2P Require Import Prelude Codec Chart.

(** The fields of a resource other than its version. *)
Definition own_fields (o : Resource) : list (string * Json.value) :=
  filter (λ kv, kv.1 ≠ "apiVersion") (res_fields o).

(** The resource as an object with its version set: an [apiVersion] field
    of the resource gives way to the version asked for. *)
Definition stamp (o : Resource) (version : string) : Json.value :=
  Json.Obj (("apiVersion", Json.Str version) :: own_fields o).

Definition MarshalJSON (o : Resource) (version : string) : result bytes :=
  Json.Marshal (stamp o version).

(** The resource without a version of its own. *)
Definition unversioned (o : Resource) : Resource := MkResource (own_fields o).

(** Every value of the resource has a JSON form. *)
Definition supported (o : Resource) : Prop :=
  Json.unsupported (Json.Obj (own_fields o)) = None.

(** The resource and the version of a document: the document is an object
    with one [apiVersion] field, a string; the other fields are the
    resource. *)
Definition ReadJSON (d : bytes) : option (Resource * string) :=
  v ← Json.Unmarshal d;
  match v with
  | Json.Obj fs =>
      match filter (λ kv, kv.1 = "apiVersion") fs with
      | [(_, Json.Str version)] => Some (unversioned (MkResource fs), version)
      | _ => None
      end
  | _ => None
  end.

(** The schema of a serialised document: an object tagged with the
    version in its one [apiVersion] field. *)
Definition conforms (version : string) (d : bytes) : bool :=
  match ReadJSON d with
  | Some (_, v) => bool_decide (v = version)
  | None => false
  end.

(** What the driver is promised by a serialiser: the document of a resource
    reads back as the resource and the version. *)
Class Lossless (marshal : Resource → string → result bytes) : Prop :=
  marshal_reads o version d :
    marshal o version = Ok d → ReadJSON d = Some (unversioned o, version).

Section manifest.
Implicit Types (o : Resource) (version : string) (d : bytes).

Lemma own_fields_unversioned o : own_fields (unversioned o) = own_fields o.
Proof. apply list_filter_filter_l. by intros kv. Qed.

(** No [apiVersion] field is among the own fields of a resource. *)
Lemma own_fields_version o :
  filter (λ kv, kv.1 = "apiVersion") (own_fields o) = [].
Proof.
  rw /own_fields. induction (res_fields o) as [|kv fs IH]; [done|].
  destruct (decide (kv.1 = "apiVersion")) as [Hk|Hk].
  - by rw filter_cons_False; [intros []|].
  - by rw filter_cons_True // filter_cons_False.
Qed.

(** The stamped resource, taken apart again. *)
Lemma stamp_fields o version :
  let fs := ("apiVersion", Json.Str version) :: own_fields o in
  filter (λ kv, kv.1 = "apiVersion") fs = [("apiVersion", Json.Str version)]
  ∧ unversioned (MkResource fs) = unversioned o.
Proof.
  split.
  - by rw filter_cons_True // own_fields_version.
  - rw /unversioned {1}/own_fields /= filter_cons_False; [by intros []|].
    by rw -/(own_fields (unversioned o)) own_fields_unversioned.
Qed.

(** A resource that has no [apiVersion] field is its own unversioned
    form. *)
Lemma unversioned_plain o : own_fields o = res_fields o → unversioned o = o.
Proof. destruct o as [fs]. rw /unversioned /=. by intros ->. Qed.

Lemma stamp_unsupported o version :
  Json.unsupported (stamp o version) = Json.unsupported (Json.Obj (own_fields o)).
Proof. done. Qed.

(** [MarshalJSON] fails exactly on the resources with a value that has no
    JSON form. *)
Lemma MarshalJSON_is_Ok o version :
  (∃ d, MarshalJSON o version = Ok d) ↔ supported o.
Proof.
  rw /MarshalJSON /supported -(stamp_unsupported o version).
  apply Json.Marshal_is_Ok.
Qed.

Lemma MarshalJSON_Ok o version :
  supported o → MarshalJSON o version = Ok (Json.encode (stamp o version)).
Proof. intros Ho. by apply Json.Marshal_Ok. Qed.

(** The round trip: the document of a resource reads back as the resource
    and the version. *)
Lemma ReadJSON_MarshalJSON o version d :
  MarshalJSON o version = Ok d → ReadJSON d = Some (unversioned o, version).
Proof.
  intros Hd%Json.Marshal_Unmarshal.
  destruct (stamp_fields o version) as [Hv Ho].
  rw /ReadJSON Hd /stamp. cbn [mbind option_bind]. by rw Hv Ho.
Qed.

#[export] Instance MarshalJSON_lossless : Lossless MarshalJSON.
Proof. exact ReadJSON_MarshalJSON. Qed.

(** Two resources with one document differ in their [apiVersion] fields
    at most, and were serialised for the same version. *)
Lemma MarshalJSON_inj o1 o2 v1 v2 d :
  MarshalJSON o1 v1 = Ok d → MarshalJSON o2 v2 = Ok d →
  unversioned o1 = unversioned o2 ∧ v1 = v2.
Proof.
  intros H1%ReadJSON_MarshalJSON H2%ReadJSON_MarshalJSON. split; congruence.
Qed.

(** What reads back for a version conforms to the schema for it. *)
Lemma reads_conforms o version d :
  ReadJSON d = Some (o, version) → conforms version d.
Proof. intros Hd. by rw /conforms Hd bool_decide_true. Qed.

Lemma MarshalJSON_conforms o version d :
  MarshalJSON o version = Ok d → conforms version d.
Proof. intros Hd%ReadJSON_MarshalJSON. by eapply reads_conforms. Qed.
End manifest.
