(* ===== verification/Prog.v ===== *)
(** * Programs over the calls of the package

    [Op T] lists every call the package makes outside itself, [T] being what
    the call returns.  A program is a tree of such calls; [exec] runs it
    against a handler, which answers each call in some world [W] or ends the
    process, and records the calls made with their answers.  Two programs
    are equivalent when no handler tells them apart. *)

From S2P Require Import Prelude Paths Chart.

(** ** Values the calls exchange *)

(** What [os.Stat] returns about a node. *)
Record FileInfo := MkFileInfo { IsDir : bool }.

(** [os.Stdout] and [os.Stderr]. *)
Inductive stream := OsStdout | OsStderr.

(** A [*exec.Cmd] and the write end of a pipe, by their handles. *)
Definition cmd := nat.
Definition pipe := nat.

(** A [*vcs.GitRepo]: the remote address and the local directory. *)
Record GitRepo := MkGitRepo { git_remote : string; git_local : path }.

#[export] Instance FileInfo_eq_dec : EqDecision FileInfo.
Proof. solve_decision. Defined.
#[export] Instance stream_eq_dec : EqDecision stream.
Proof. solve_decision. Defined.
#[export] Instance GitRepo_eq_dec : EqDecision GitRepo.
Proof. solve_decision. Defined.

(** ** The calls *)

Inductive Op : Type → Type :=
(* log *)
| LogInfo (fmt : string) (args : list string) : Op unit
| LogDebug (fmt : string) (args : list string) : Op unit
| LogDie (fmt : string) (args : list string) : Op Empty_set
(* os *)
| OsStat (p : path) : Op (result FileInfo)
| OsMkdirAll (p : path) (perm : N) : Op (option error)
| OsChdir (p : path) : Op (option error)
(* path/filepath *)
| FilepathAbs (p : path) : Op (result path)
(* os/exec *)
| ExecLookPath (file : string) : Op (result path)
| ExecCommand (name : string) (args : list string) : Op cmd
| CmdStdinPipe (c : cmd) : Op (result pipe)
| CmdSetStdout (c : cmd) (s : stream) : Op unit
| CmdSetStderr (c : cmd) (s : stream) : Op unit
| CmdStart (c : cmd) : Op (option error)
| CmdWait (c : cmd) : Op (option error)
| PipeWrite (w : pipe) (data : bytes) : Op (result nat)
| PipeClose (w : pipe) : Op (option error)
(* helm/manifest, helm/model, and Fetch of this package *)
| ManifestMarshalJSON (o : Resource) (version : string) : Op (result bytes)
| ModelLoad (dir : path) : Op (result Chart)
| FetchChart (chart lname : string) (home : path) : Op unit
(* Masterminds/vcs *)
| VcsNewGitRepo (remote : string) (local : path) : Op (result GitRepo)
| GitCheckLocal (g : GitRepo) : Op bool
| GitGet (g : GitRepo) : Op (option error)
| GitUpdate (g : GitRepo) : Op (option error).

(** ** Programs *)

Inductive prog (R : Type) : Type :=
| Ret (r : R)
| Vis {T} (o : Op T) (k : T → prog R).
Arguments Ret {R} r.
Arguments Vis {R T} o k.

Fixpoint bind {A B} (p : prog A) (f : A → prog B) : prog B :=
  match p with
  | Ret a => f a
  | Vis o k => Vis o (λ x, bind (k x) f)
  end.

#[export] Instance prog_ret : MRet prog := @Ret.
#[export] Instance prog_bind : MBind prog := λ A B f p, bind p f.
#[export] Instance prog_fmap : FMap prog := λ A B f p, bind p (λ x, Ret (f x)).

(** One call. *)
Definition call {T} (o : Op T) : prog T := Vis o Ret.

(** [log.Die]: the process ends, nothing follows. *)
Definition die {R} (fmt : string) (args : list string) : prog R :=
  Vis (LogDie fmt args) (λ x : Empty_set, match x with end).

Declare Scope go_scope.
Delimit Scope go_scope with go.

(** [if err := p; err != nil { return err }; k] *)
Definition and_then (p k : prog (option error)) : prog (option error) :=
  e ← p;
  match e with
  | Some err => mret (Some err)
  | None => k
  end.

(** [x, err := p; if err != nil { return err }; k x] *)
Definition try_then {A} (p : prog (result A)) (k : A → prog (option error))
  : prog (option error) :=
  r ← p;
  match r with
  | Fail err => mret (Some err)
  | Ok x => k x
  end.

(** [if err := p; err != nil { log.Die(fmt, args..., err) }] *)
Definition or_die (p : prog (option error)) (fmt : string)
    (args : list string) : prog unit :=
  e ← p;
  match e with
  | Some err => die fmt (args ++ [err_msg err])
  | None => mret ()
  end.

(** [x, err := p; if err != nil { log.Die(fmt, args..., err) }] *)
Definition get_or_die {A} (p : prog (result A)) (fmt : string)
    (args : list string) : prog A :=
  r ← p;
  match r with
  | Fail err => die fmt (args ++ [err_msg err])
  | Ok x => mret x
  end.

Arguments and_then : simpl never.
Arguments or_die : simpl never.
Arguments get_or_die : simpl never.
Arguments try_then : simpl never.

Notation "'check!' p ;; k" := (and_then p k)
  (at level 20, p at level 99, k at level 200, only parsing) : go_scope.
Notation "x ←? p ;; k" := (try_then p (λ x, k))
  (at level 20, p at level 99, k at level 200, only parsing) : go_scope.

Open Scope go_scope.

(** ** Running a program *)

(** A handler answers a call in a world, or ends the process ([None]). *)
Definition handler (W : Type) : Type := ∀ T, Op T → W → option T * W.

(** A call with its answer; [None] when the process ended inside it. *)
Inductive event : Type :=
| Ev {T} (o : Op T) (r : option T).

(** The outcome of a run: the value returned unless the process ended, the
    final world and the calls made. *)
Record run (W R : Type) := MkRun {
  returned : option R;
  final : W;
  trace : list event;
}.
Arguments MkRun {W R} _ _ _.
Arguments returned {W R} _.
Arguments final {W R} _.
Arguments trace {W R} _.

(** The run [r] preceded by the events [tr]. *)
Definition after {W R} (tr : list event) (r : run W R) : run W R :=
  MkRun (returned r) (final r) (tr ++ trace r).

Fixpoint exec {W R} (h : handler W) (p : prog R) (w : W) : run W R :=
  match p with
  | Ret r => MkRun (Some r) w []
  | Vis o k =>
      match h _ o w with
      | (Some x, w1) => after [Ev o (Some x)] (exec h (k x) w1)
      | (None, w1) => MkRun None w1 [Ev o None]
      end
  end.

(** What follows a run: the continuation when it returned. *)
Definition then_run {W A B} (h : handler W) (r : run W A) (f : A → prog B)
  : run W B :=
  match returned r with
  | Some a => after (trace r) (exec h (f a) (final r))
  | None => MkRun None (final r) (trace r)
  end.

(** ** Program equivalence *)

(** No handler tells the two programs apart. *)
Definition prog_equiv {R} (p q : prog R) : Prop :=
  ∀ W (h : handler W) w, exec h p w = exec h q w.

#[export] Instance prog_equiv_Equiv {R} : Equiv (prog R) := prog_equiv.

#[export] Instance prog_equiv_equivalence {R} : Equivalence (≡@{prog R}).
Proof.
  split.
  - by intros p W h w.
  - intros p q H W h w. symmetry. apply H.
  - intros p q r H1 H2 W h w. etrans; [apply H1|apply H2].
Qed.

Section laws.
Context {W : Type} (h : handler W).
Implicit Types (w : W) (tr : list event).

Lemma after_nil {R} (r : run W R) : after [] r = r.
Proof. by destruct r. Qed.

Lemma after_app {R} tr1 tr2 (r : run W R) :
  after (tr1 ++ tr2) r = after tr1 (after tr2 r).
Proof. rw /after /=. by rw app_assoc. Qed.

Lemma then_run_after {A B} tr (r : run W A) (f : A → prog B) :
  then_run h (after tr r) f = after tr (then_run h r f).
Proof.
  rw /then_run /=. destruct (returned r); [|done].
  by rw -after_app.
Qed.

Lemma then_run_returned {A B} (r : run W A) (f : A → prog B) a :
  returned r = Some a →
  then_run h r f = after (trace r) (exec h (f a) (final r)).
Proof. rw /then_run. by intros ->. Qed.

Lemma then_run_stopped {A B} (r : run W A) (f : A → prog B) :
  returned r = None → then_run h r f = MkRun None (final r) (trace r).
Proof. rw /then_run. by intros ->. Qed.

Lemma exec_Ret {R} (r : R) w : exec h (Ret r) w = MkRun (Some r) w [].
Proof. done. Qed.

Lemma exec_Vis {R T} (o : Op T) (k : T → prog R) w :
  exec h (Vis o k) w =
  match h _ o w with
  | (Some x, w1) => after [Ev o (Some x)] (exec h (k x) w1)
  | (None, w1) => MkRun None w1 [Ev o None]
  end.
Proof. done. Qed.

Lemma exec_call {T} (o : Op T) w :
  exec h (call o) w = MkRun (h _ o w).1 (h _ o w).2 [Ev o (h _ o w).1].
Proof. rw /call /=. by destruct (h T o w) as [[x|] w1]. Qed.

Lemma exec_die {R} fmt args w :
  exec h (@die R fmt args) w =
  MkRun None (h _ (LogDie fmt args) w).2 [Ev (LogDie fmt args) None].
Proof. rw /die /=. by destruct (h _ _ w) as [[[]|] w1]. Qed.

(** Running [p] and then [f] is running [p], and [f] on what it returns. *)
Lemma exec_bind {A B} (p : prog A) (f : A → prog B) w :
  exec h (bind p f) w = then_run h (exec h p w) f.
Proof.
  revert w. induction p as [a|T o k IH]; intros w; simpl.
  - by rw /then_run /= after_nil.
  - destruct (h T o w) as [[x|] w1]; [|done].
    by rw IH then_run_after.
Qed.

Lemma exec_mbind {A B} (p : prog A) (f : A → prog B) w :
  exec h (p ≫= f) w = then_run h (exec h p w) f.
Proof. apply exec_bind. Qed.
End laws.

Section equiv.
Context {A B C : Type}.

Lemma bind_ret_l (a : A) (f : A → prog B) : bind (Ret a) f = f a.
Proof. done. Qed.

Lemma bind_ret_r (p : prog A) : bind p Ret ≡ p.
Proof.
  intros W h w. rw exec_bind /then_run.
  destruct (exec h p w) as [[a|] w1 tr]; simpl; [|done].
  by rw /after /= app_nil_r.
Qed.

Lemma then_run_then_run {W} (h : handler W) (r : run W A)
    (f : A → prog B) (g : B → prog C) :
  then_run h (then_run h r f) g = then_run h r (λ x, bind (f x) g).
Proof.
  rw {2 3}/then_run. destruct (returned r) as [a|]; [|done].
  by rw then_run_after exec_bind.
Qed.

Lemma bind_assoc (p : prog A) (f : A → prog B) (g : B → prog C) :
  bind (bind p f) g ≡ bind p (λ x, bind (f x) g).
Proof. intros W h w. by rw !exec_bind then_run_then_run. Qed.

Lemma then_run_ext {W} (h : handler W) (r : run W A) (f g : A → prog B) :
  (∀ a, f a ≡ g a) → then_run h r f = then_run h r g.
Proof. intros Hfg. rw /then_run. destruct (returned r); [|done]. by rw Hfg. Qed.

Lemma Vis_equiv {T} (o : Op T) (k k' : T → prog A) :
  (∀ x, k x ≡ k' x) → Vis o k ≡ Vis o k'.
Proof.
  intros Hk W h w. simpl. destruct (h T o w) as [[x|] w1]; [|done].
  by rw Hk.
Qed.
End equiv.

#[export] Instance bind_proper {A B} :
  Proper ((≡) ==> pointwise_relation A (≡) ==> (≡)) (@bind A B).
Proof.
  intros p q Hpq f g Hfg W h w. rw !exec_bind Hpq. by apply then_run_ext.
Qed.

#[export] Instance mbind_proper {A B} :
  Proper (pointwise_relation A (≡) ==> (≡) ==> (≡)) (@mbind prog _ A B).
Proof. intros f g Hfg p q Hpq. by apply bind_proper. Qed.

#[export] Instance exec_proper {W R} (h : handler W) :
  Proper ((≡) ==> (=) ==> (=)) (@exec W R h).
Proof. intros p q Hpq w ? <-. apply Hpq. Qed.

(** ** Laws of the early return *)

Section early_return.
Context {W : Type} (h : handler W).
Implicit Types (p q k : prog (option error)).

Lemma exec_and_then p k w :
  exec h (check! p;; k) w =
  then_run h (exec h p w) (λ e, if e is Some err then Ret (Some err) else k).
Proof. rw /and_then exec_mbind. by apply then_run_ext; intros []. Qed.

Lemma exec_try_then {A} (p : prog (result A)) (k : A → prog (option error)) w :
  exec h (x ←? p;; k x) w =
  then_run h (exec h p w)
    (λ r, match r with Fail err => Ret (Some err) | Ok x => k x end).
Proof. rw /try_then exec_mbind. by apply then_run_ext; intros []. Qed.

(** One call, then the rest: the three shapes of a call in the source. *)
Lemma exec_call_bind {T R} (o : Op T) (k : T → prog R) w :
  exec h (call o ≫= k) w =
  match h _ o w with
  | (Some x, w1) => after [Ev o (Some x)] (exec h (k x) w1)
  | (None, w1) => MkRun None w1 [Ev o None]
  end.
Proof. done. Qed.

Lemma exec_try_call {A} (o : Op (result A)) (k : A → prog (option error)) w :
  exec h (x ←? call o;; k x) w =
  match h _ o w with
  | (Some (Ok x), w1) => after [Ev o (Some (Ok x))] (exec h (k x) w1)
  | (Some (Fail err), w1) => MkRun (Some (Some err)) w1 [Ev o (Some (Fail err))]
  | (None, w1) => MkRun None w1 [Ev o None]
  end.
Proof. rw /try_then exec_call_bind. by destruct (h _ o w) as [[[x|err]|] w1]. Qed.

Lemma exec_check_call (o : Op (option error)) (k : prog (option error)) w :
  exec h (check! call o;; k) w =
  match h _ o w with
  | (Some None, w1) => after [Ev o (Some None)] (exec h k w1)
  | (Some (Some err), w1) => MkRun (Some (Some err)) w1 [Ev o (Some (Some err))]
  | (None, w1) => MkRun None w1 [Ev o None]
  end.
Proof. rw /and_then exec_call_bind. by destruct (h _ o w) as [[[err|]|] w1]. Qed.

Lemma exec_or_die (p : prog (option error)) fmt args w :
  exec h (or_die p fmt args) w =
  then_run h (exec h p w)
    (λ e, if e is Some err then die fmt (args ++ [err_msg err]) else Ret ()).
Proof. rw /or_die exec_mbind. by apply then_run_ext; intros []. Qed.

Lemma exec_get_or_die {A} (p : prog (result A)) fmt args w :
  exec h (get_or_die p fmt args) w =
  then_run h (exec h p w)
    (λ r, match r with
          | Fail err => die fmt (args ++ [err_msg err])
          | Ok x => Ret x
          end).
Proof. rw /get_or_die exec_mbind. by apply then_run_ext; intros []. Qed.
End early_return.

#[export] Instance and_then_proper :
  Proper ((≡) ==> (≡) ==> (≡)) and_then.
Proof.
  intros p p' Hp k k' Hk. rw /and_then. apply mbind_proper; [|done].
  by intros [err|].
Qed.

#[export] Instance try_then_proper {A} :
  Proper ((≡) ==> pointwise_relation A (≡) ==> (≡)) (@try_then A).
Proof.
  intros p p' Hp k k' Hk. rw /try_then. apply mbind_proper; [|done].
  intros [x|err]; [apply Hk|done].
Qed.

Section early_return_laws.
Implicit Types (p q k : prog (option error)).

Lemma and_then_nil k : (check! mret None;; k) = k.
Proof. done. Qed.

Lemma and_then_ret_r p : (check! p;; mret None) ≡ p.
Proof.
  intros W h w. rw exec_and_then /then_run.
  destruct (exec h p w) as [[[err|]|] w1 tr]; simpl; by rw /after /= ?app_nil_r.
Qed.

Lemma and_then_assoc p q k :
  (check! (check! p;; q);; k) ≡ (check! p;; check! q;; k).
Proof.
  intros W h w. rw !exec_and_then then_run_then_run.
  apply then_run_ext. intros [err|]; [done|].
  intros W' h' w'. by rw /= exec_and_then.
Qed.

Lemma try_then_and_then {A} (p : prog (result A)) (f : A → prog (option error)) k :
  (check! (x ←? p;; f x);; k) ≡ (x ←? p;; check! f x;; k).
Proof.
  intros W h w. rw exec_and_then !exec_try_then then_run_then_run.
  apply then_run_ext. intros [x|err]; [|done].
  intros W' h' w'. by rw /= exec_and_then.
Qed.
End early_return_laws.

#[export] Hint Rewrite @exec_Ret @exec_call @exec_die @exec_mbind @exec_bind
  @exec_and_then @exec_try_then
  @after_nil : helm.

(** ** The calls a program can make *)

(** A property of calls. *)
Definition op_pred : Type := ∀ T, Op T → Prop.

Definition ev_in (P : op_pred) (e : event) : Prop :=
  match e with
  | Ev o _ => P _ o
  end.

(** Every call of the program, whatever the answers, satisfies [P]. *)
Inductive calls_only (P : op_pred) {R} : prog R → Prop :=
| calls_Ret r : calls_only P (Ret r)
| calls_Vis {T} (o : Op T) k :
    P T o → (∀ x, calls_only P (k x)) → calls_only P (Vis o k).

Section calls.
Context (P : op_pred).

Lemma calls_only_call {T} (o : Op T) : P T o → calls_only P (call o).
Proof. intros. constructor; [done|]. constructor. Qed.

Lemma calls_only_die {R} fmt args :
  P _ (LogDie fmt args) → calls_only P (@die R fmt args).
Proof. intros. constructor; [done|]. intros []. Qed.

Lemma calls_only_bind {A B} (p : prog A) (f : A → prog B) :
  calls_only P p → (∀ a, calls_only P (f a)) → calls_only P (bind p f).
Proof. intros Hp Hf. induction Hp; simpl; [done|]. by constructor. Qed.

Lemma calls_only_mbind {A B} (p : prog A) (f : A → prog B) :
  calls_only P p → (∀ a, calls_only P (f a)) → calls_only P (p ≫= f).
Proof. apply calls_only_bind. Qed.

Lemma calls_only_mret {A} (a : A) : calls_only P (mret a).
Proof. constructor. Qed.

(** The trace of a run holds only calls the program can make. *)
Lemma exec_calls_only {W R} (h : handler W) (p : prog R) w :
  calls_only P p → Forall (ev_in P) (trace (exec h p w)).
Proof.
  intros Hp. revert w. induction Hp as [|T o k Ho Hk IH]; intros w; simpl.
  - constructor.
  - destruct (h T o w) as [[x|] w1]; simpl; repeat constructor; auto.
Qed.

(** A property of the world that the calls of the program keep holds
    after the run. *)
Lemma exec_invariant {W R} (h : handler W) (I : W → Prop) (p : prog R) w :
  (∀ T (o : Op T) w, P T o → I w → I (h T o w).2) →
  calls_only P p → I w → I (final (exec h p w)).
Proof.
  intros Hh Hp. revert w. induction Hp as [|T o k Ho Hk IH]; intros w Hw.
  - done.
  - simpl. specialize (Hh T o w Ho Hw).
    destruct (h T o w) as [[x|] w1]; simpl in *; auto.
Qed.
End calls.

Lemma calls_only_weaken (P Q : op_pred) {R} (p : prog R) :
  (∀ T o, P T o → Q T o) → calls_only P p → calls_only Q p.
Proof. intros HPQ. induction 1; constructor; auto. Qed.

(** The calls of a program written with the combinators of this file: the
    proof walks the program, case by case where it branches; [tac] is for
    the programs it calls. *)
Ltac solve_calls_with tac :=
  rw /or_die /get_or_die /and_then /try_then;
  repeat first [ apply calls_only_mbind | by apply calls_only_call
               | by apply calls_only_die | by constructor | assumption
               | tac | intros ? | case_goal ].
Ltac solve_calls := solve_calls_with fail.

#[export] Hint Resolve calls_only_call calls_only_die calls_only_mbind
  calls_only_bind calls_only_mret : helm.
#[export] Hint Constructors calls_only : helm.

(** ** Reading a trace *)

(** The bare calls of a trace, answers dropped. *)
Inductive anyop : Type :=
| AnyOp {T} (o : Op T).
Definition ev_op (e : event) : anyop :=
  match e with
  | Ev o _ => AnyOp o
  end.
Definition calls (tr : list event) : list anyop := ev_op <$> tr.

(** The resources handed to [manifest.MarshalJSON], in order. *)
Definition marshal_arg (a : anyop) : option Resource :=
  match a with
  | AnyOp (ManifestMarshalJSON o _) => Some o
  | AnyOp _ => None
  end.
Definition marshalled (tr : list event) : list Resource :=
  omap marshal_arg (calls tr).

(** The data written to pipes, in order. *)
Definition write_arg (a : anyop) : option bytes :=
  match a with
  | AnyOp (PipeWrite _ data) => Some data
  | AnyOp _ => None
  end.
Definition written (tr : list event) : list bytes := omap write_arg (calls tr).

(** The commands created, in order. *)
Definition command_arg (a : anyop) : option (string * list string) :=
  match a with
  | AnyOp (ExecCommand name args) => Some (name, args)
  | AnyOp _ => None
  end.
Definition commands (tr : list event) : list (string * list string) :=
  omap command_arg (calls tr).

(** The documents [manifest.MarshalJSON] answered, in order. *)
Definition marshal_doc (e : event) : option bytes :=
  match e with
  | @Ev T o r =>
      match o in Op T return option T → option bytes with
      | ManifestMarshalJSON _ _ => λ r, if r is Some (Ok b) then Some b else None
      | _ => λ _, None
      end r
  end.
Definition produced (tr : list event) : list bytes := omap marshal_doc tr.

(** The repositories [GitGet] was called on, in order, and what
    [GitCheckLocal] answered. *)
Definition get_arg (a : anyop) : option GitRepo :=
  match a with
  | AnyOp (GitGet g) => Some g
  | AnyOp _ => None
  end.
Definition clonings (tr : list event) : list GitRepo := omap get_arg (calls tr).

Definition check_answer (e : event) : option (GitRepo * bool) :=
  match e with
  | @Ev T o r =>
      match o in Op T return option T → option (GitRepo * bool) with
      | GitCheckLocal g => λ r, if r is Some b then Some (g, b) else None
      | _ => λ _, None
      end r
  end.
Definition checks (tr : list event) : list (GitRepo * bool) :=
  omap check_answer tr.

Section reading.
Context {A : Type} (f : anyop → option A).
Implicit Types tr : list event.

Lemma calls_app tr1 tr2 : calls (tr1 ++ tr2) = calls tr1 ++ calls tr2.
Proof. apply fmap_app. Qed.

Lemma read_app tr1 tr2 :
  omap f (calls (tr1 ++ tr2)) = omap f (calls tr1) ++ omap f (calls tr2).
Proof. by rw calls_app omap_app. Qed.

(** A trace of calls that [f] does not read reads as nothing. *)
Lemma read_none (P : op_pred) tr :
  (∀ T (o : Op T), P T o → f (AnyOp o) = None) →
  Forall (ev_in P) tr → omap f (calls tr) = [].
Proof.
  intros Hf. induction 1 as [|[T o r] tr He _ IH]; simpl; [done|].
  by rw (Hf T o He).
Qed.
End reading.

(** No document is produced where nothing is marshalled. *)
Lemma produced_none (P : op_pred) (tr : list event) :
  (∀ T (o : Op T), P T o → marshal_arg (AnyOp o) = None) →
  Forall (ev_in P) tr → produced tr = [].
Proof.
  intros Hf. induction 1 as [|[T o r] tr He _ IH]; simpl; [done|].
  specialize (Hf T o He). by destruct o.
Qed.

Lemma marshalled_app tr1 tr2 :
  marshalled (tr1 ++ tr2) = marshalled tr1 ++ marshalled tr2.
Proof. apply read_app. Qed.
Lemma written_app tr1 tr2 : written (tr1 ++ tr2) = written tr1 ++ written tr2.
Proof. apply read_app. Qed.
Lemma commands_app tr1 tr2 : commands (tr1 ++ tr2) = commands tr1 ++ commands tr2.
Proof. apply read_app. Qed.
Lemma produced_app tr1 tr2 : produced (tr1 ++ tr2) = produced tr1 ++ produced tr2.
Proof. apply omap_app. Qed.

Lemma trace_after {W R} tr (r : run W R) : trace (after tr r) = tr ++ trace r.
Proof. done. Qed.
Lemma returned_after {W R} tr (r : run W R) : returned (after tr r) = returned r.
Proof. done. Qed.
Lemma final_after {W R} tr (r : run W R) : final (after tr r) = final r.
Proof. done. Qed.

#[export] Hint Rewrite @trace_after @returned_after @final_after
  calls_app marshalled_app written_app commands_app produced_app : helm.

(** ** Runs, read in big steps

    [runs_to h p w res w' cs]: run from [w] under [h], the program [p]
    ends with [res] ([None] when the process ended inside it) in the world
    [w'], having made the calls [cs].  It is a reading of [exec], so every
    program has exactly one such run. *)

Definition runs_to {W R} (h : handler W) (p : prog R) (w : W)
    (res : option R) (w' : W) (cs : list anyop) : Prop :=
  returned (exec h p w) = res ∧ final (exec h p w) = w'
  ∧ calls (trace (exec h p w)) = cs.

Section big_step.
Context {W : Type} (h : handler W).
Implicit Types (w : W) (cs : list anyop).

Lemma runs_to_exec {R} (p : prog R) w :
  runs_to h p w (returned (exec h p w)) (final (exec h p w))
    (calls (trace (exec h p w))).
Proof. done. Qed.

Lemma runs_to_ret {R} (a : R) w : runs_to h (mret a) w (Some a) w [].
Proof. done. Qed.

Lemma runs_to_call {T} (o : Op T) w res w' :
  h _ o w = (res, w') → runs_to h (call o) w res w' [AnyOp o].
Proof. intros Ho. by rw /runs_to exec_call Ho. Qed.

Lemma runs_to_die {R} fmt args w :
  runs_to h (@die R fmt args) w None (h _ (LogDie fmt args) w).2
    [AnyOp (LogDie fmt args)].
Proof. by rw /runs_to exec_die. Qed.

Lemma runs_to_bind {A B} (p : prog A) (f : A → prog B) w a w1 cs1 res w2 cs2 :
  runs_to h p w (Some a) w1 cs1 → runs_to h (f a) w1 res w2 cs2 →
  runs_to h (p ≫= f) w res w2 (cs1 ++ cs2).
Proof.
  intros (Hr & <- & <-) (<- & <- & <-).
  by rw /runs_to exec_mbind (then_run_returned _ _ _ _ Hr) /= calls_app.
Qed.

Lemma runs_to_bind_stop {A B} (p : prog A) (f : A → prog B) w w1 cs :
  runs_to h p w None w1 cs → runs_to h (p ≫= f) w None w1 cs.
Proof.
  intros (Hr & <- & <-). by rw /runs_to exec_mbind (then_run_stopped _ _ _ Hr).
Qed.

Lemma runs_to_or_die (p : prog (option error)) fmt args w w1 cs :
  runs_to h p w (Some None) w1 cs → runs_to h (or_die p fmt args) w (Some ()) w1 cs.
Proof.
  intros Hp. rw -(app_nil_r cs). eapply runs_to_bind; [done|apply runs_to_ret].
Qed.

Lemma runs_to_or_die_err (p : prog (option error)) fmt args w err w1 cs :
  runs_to h p w (Some (Some err)) w1 cs →
  runs_to h (or_die p fmt args) w None
    (h _ (LogDie fmt (args ++ [err_msg err])) w1).2
    (cs ++ [AnyOp (LogDie fmt (args ++ [err_msg err]))]).
Proof. intros Hp. eapply runs_to_bind; [done|apply runs_to_die]. Qed.

Lemma runs_to_get_or_die {A} (p : prog (result A)) fmt args w x w1 cs :
  runs_to h p w (Some (Ok x)) w1 cs →
  runs_to h (get_or_die p fmt args) w (Some x) w1 cs.
Proof.
  intros Hp. rw -(app_nil_r cs). eapply runs_to_bind; [done|apply runs_to_ret].
Qed.

Lemma runs_to_get_or_die_err {A} (p : prog (result A)) fmt args w err w1 cs :
  runs_to h p w (Some (Fail err)) w1 cs →
  runs_to h (get_or_die p fmt args) w None
    (h _ (LogDie fmt (args ++ [err_msg err])) w1).2
    (cs ++ [AnyOp (LogDie fmt (args ++ [err_msg err]))]).
Proof. intros Hp. eapply runs_to_bind; [done|apply runs_to_die]. Qed.

Lemma runs_to_check (p k : prog (option error)) w w1 cs1 res w2 cs2 :
  runs_to h p w (Some None) w1 cs1 → runs_to h k w1 res w2 cs2 →
  runs_to h (check! p ;; k)%go w res w2 (cs1 ++ cs2).
Proof. intros Hp Hk. by eapply runs_to_bind. Qed.

Lemma runs_to_check_err (p k : prog (option error)) w err w1 cs :
  runs_to h p w (Some (Some err)) w1 cs →
  runs_to h (check! p ;; k)%go w (Some (Some err)) w1 cs.
Proof.
  intros Hp. rw -(app_nil_r cs). eapply runs_to_bind; [done|apply runs_to_ret].
Qed.
End big_step.

(** ** What every run keeps

    A property of the world that every call keeps holds at the end of every
    run, and a preorder on worlds that every call respects relates the
    start of every run to its end, also when the process ends inside the
    run. *)

Section keeps.
Context {W : Type} (h : handler W).

Lemma exec_keeps {R} (I : W → Prop) (p : prog R) w :
  (∀ T (o : Op T) w, I w → I (h T o w).2) → I w → I (final (exec h p w)).
Proof.
  intros Hh. revert w. induction p as [r|T o k IH]; intros w Hw; [done|].
  simpl. specialize (Hh T o w Hw).
  destruct (h T o w) as [[x|] w1]; simpl in *; auto.
Qed.

Lemma exec_respects {R} (Q : relation W) `{!PreOrder Q} (p : prog R) w :
  (∀ T (o : Op T) w, Q w (h T o w).2) → Q w (final (exec h p w)).
Proof.
  intros Hh. apply (exec_keeps (Q w)); [|done].
  intros T o w1 Hw1. by etrans.
Qed.

(** What holds after [p], and is kept by what follows, holds after
    [p ≫= f], also when the process ends inside [p]. *)
Lemma exec_mbind_keeps {A B} (I : W → Prop) (p : prog A) (f : A → prog B) w :
  I (final (exec h p w)) → (∀ a w1, I w1 → I (final (exec h (f a) w1))) →
  I (final (exec h (p ≫= f) w)).
Proof.
  intros Hp Hf. rw exec_mbind /then_run.
  destruct (returned (exec h p w)); [|done]. rw final_after. by apply Hf.
Qed.
End keeps.

(** ** Answers a program does not look at *)

(** The program goes on in the same way whatever is answered to its calls
    in [P]. *)
Inductive ignores (P : op_pred) {R} : prog R → Prop :=
| ignores_Ret r : ignores P (Ret r)
| ignores_Vis {T} (o : Op T) k :
    (P T o → ∀ x y, k x = k y) → (∀ x, ignores P (k x)) →
    ignores P (Vis o k).

(** Two environments that differ only in what they answer to the calls in
    [P]: they change the world alike and, where one answers such a call,
    the other answers it too. *)
Definition differ_on {W} (P : op_pred) (h h' : handler W) : Prop :=
  ∀ T (o : Op T) w,
    (h' T o w).2 = (h T o w).2
    ∧ ((h' T o w).1 = (h T o w).1
       ∨ P T o ∧ is_Some (h' T o w).1 ∧ is_Some (h T o w).1).

(** In two such environments a program that ignores the answers makes the
    same calls, leaves the same world and returns the same. *)
Lemma exec_ignores {W R} (P : op_pred) (h h' : handler W) (p : prog R) w :
  differ_on P h h' → ignores P p →
  returned (exec h' p w) = returned (exec h p w)
  ∧ final (exec h' p w) = final (exec h p w)
  ∧ calls (trace (exec h' p w)) = calls (trace (exec h p w)).
Proof.
  intros Hd Hp. revert w. induction Hp as [|T o k Hk _ IH]; intros w; [done|].
  rw !exec_Vis. destruct (Hd T o w) as [Hw Ha]. revert Hw Ha.
  destruct (h' T o w) as [a' w'], (h T o w) as [a w1]. simpl. intros ->.
  intros [->|(Ho & [x' ->] & [x ->])].
  - destruct a as [x|]; [|done]. simpl.
    by destruct (IH x w1) as (-> & -> & ->).
  - rw (Hk Ho x' x) /=. by destruct (IH x w1) as (-> & -> & ->).
Qed.

(** ** Calls, given what the environment answers

    [calls_only] asks of a program that its calls are in [P] whatever is
    answered.  Where the argument of a call is the answer to an earlier
    one (the path [filepath.Abs] made absolute, the repository
    [vcs.NewGitRepo] answered with) that is too much to ask: [calls_given]
    asks it for the answers that [A] allows. *)

(** What a program relies on in the answers to its calls. *)
Definition answer_pred : Type := ∀ T, Op T → T → Prop.

Fixpoint calls_given (A : answer_pred) (P : op_pred) {R} (p : prog R) : Prop :=
  match p with
  | Ret _ => True
  | Vis o k => P _ o ∧ ∀ x, A _ o x → calls_given A P (k x)
  end.

(** The handler answers as [A] says. *)
Definition answers {W} (A : answer_pred) (h : handler W) : Prop :=
  ∀ T (o : Op T) w x, (h T o w).1 = Some x → A T o x.

Section given.
Context (A : answer_pred) (P : op_pred).

Lemma calls_only_given {R} (p : prog R) : calls_only P p → calls_given A P p.
Proof. induction 1; simpl; auto. Qed.

Lemma calls_given_mbind {B C} (p : prog B) (f : B → prog C) :
  calls_given A P p → (∀ b, calls_given A P (f b)) → calls_given A P (p ≫= f).
Proof.
  intros Hp Hf. induction p as [b|T o k IH]; [apply Hf|].
  destruct Hp as [Ho Hk]. split; [done|]. intros x Hx. by apply IH, Hk.
Qed.
End given.
