(* ===== verification/World.v ===== *)
(** * A reference environment

    The state outside the program that its calls read and change: the file
    system, the working directory, the programs on the search path, the
    child processes, the cluster, the git clones and the log.  [handle]
    answers every call of [Prog.Op] in that state.  What the collaborators
    compute (how a resource is serialised, which documents the cluster
    accepts) is a parameter, the class [Collaborators]; where the package
    keeps its directories is the class [Layout]. *)

From stdpp Require Import gmap pretty.
From S2P Require Import Prelude Paths Codec Chart Manifest Prog.

(** ** The layout of the home directory

    The three package-level names that [install.go] and [update.go] use and
    that are declared elsewhere in the package. *)
Class Layout := MkLayout {
  WorkspaceChartPath : path;
  CachePath : path;
  helmpaths : list path;
}.

(** ** What the collaborators compute *)
Class Collaborators := MkCollaborators {
  (** the document [manifest.MarshalJSON] produces, or its error *)
  marshal : Resource → string → result bytes;
  (** whether [kubectl create] accepts a document, given the documents the
      cluster holds *)
  admits : list bytes → bytes → bool;
}.

(** ** State *)

Inductive node := File | Dir.

#[export] Instance node_eq_dec : EqDecision node.
Proof. solve_decision. Defined.

Inductive Level := Info | Debug | Fatal.

Record LogEntry := MkLog {
  log_level : Level;
  log_fmt : string;
  log_args : list string;
}.

(** The life of a child process. *)
Inductive pstatus :=
| NotStarted
| Running
| Exited (code : nat).

#[export] Instance pstatus_eq_dec : EqDecision pstatus.
Proof. solve_decision. Defined.

(** A [*exec.Cmd] with the child it stands for.  [p_pipe] is [None] until
    [StdinPipe] is called; [p_open] says whether the write end is open and
    [p_stdin] is what was written to it. *)
Record Process := MkProcess {
  p_name : string;
  p_args : list string;
  p_pipe : option pipe;
  p_open : bool;
  p_stdin : bytes;
  p_stdout : option stream;
  p_stderr : option stream;
  p_status : pstatus;
}.

Record World := MkWorld {
  fs : gmap abspath node;
  cwd : abspath;
  search_path : gmap string path;
  procs : list Process;
  cluster : list bytes;
  disk_charts : gmap abspath Chart;
  cache_charts : gmap string Chart;
  clones : gmap abspath (string * nat);
  remotes : gmap string nat;
  logs : list LogEntry;
  hung : bool;
}.

(** ** Field updates *)

Definition set_fs (f : gmap abspath node → gmap abspath node) (w : World) :=
  MkWorld (f (fs w)) (cwd w) (search_path w) (procs w) (cluster w)
    (disk_charts w) (cache_charts w) (clones w) (remotes w) (logs w) (hung w).
Definition set_cwd (d : abspath) (w : World) :=
  MkWorld (fs w) d (search_path w) (procs w) (cluster w)
    (disk_charts w) (cache_charts w) (clones w) (remotes w) (logs w) (hung w).
Definition set_procs (f : list Process → list Process) (w : World) :=
  MkWorld (fs w) (cwd w) (search_path w) (f (procs w)) (cluster w)
    (disk_charts w) (cache_charts w) (clones w) (remotes w) (logs w) (hung w).
Definition set_cluster (f : list bytes → list bytes) (w : World) :=
  MkWorld (fs w) (cwd w) (search_path w) (procs w) (f (cluster w))
    (disk_charts w) (cache_charts w) (clones w) (remotes w) (logs w) (hung w).
Definition set_disk_charts (f : gmap abspath Chart → gmap abspath Chart)
    (w : World) :=
  MkWorld (fs w) (cwd w) (search_path w) (procs w) (cluster w)
    (f (disk_charts w)) (cache_charts w) (clones w) (remotes w) (logs w)
    (hung w).
Definition set_clones
    (f : gmap abspath (string * nat) → gmap abspath (string * nat))
    (w : World) :=
  MkWorld (fs w) (cwd w) (search_path w) (procs w) (cluster w)
    (disk_charts w) (cache_charts w) (f (clones w)) (remotes w) (logs w)
    (hung w).
Definition add_log (e : LogEntry) (w : World) :=
  MkWorld (fs w) (cwd w) (search_path w) (procs w) (cluster w)
    (disk_charts w) (cache_charts w) (clones w) (remotes w) (logs w ++ [e])
    (hung w).
Definition set_hung (w : World) :=
  MkWorld (fs w) (cwd w) (search_path w) (procs w) (cluster w)
    (disk_charts w) (cache_charts w) (clones w) (remotes w) (logs w) true.

(** What the process calls leave alone: everything but the processes, the
    cluster and the log. *)
Definition static (w : World) :=
  (fs w, cwd w, search_path w, disk_charts w, cache_charts w, clones w,
   remotes w, hung w).

(** What logging leaves alone: everything but the log. *)
Definition silent (w : World) := (static w, procs w, cluster w).

(** ** The file system *)

(** The node at an absolute path; the root is a directory. *)
Definition node_at (f : gmap abspath node) (a : abspath) : option node :=
  match a with
  | [] => Some Dir
  | _ => f !! a
  end.

(** [mkdir -p]: every listed directory is made unless a file is in the way,
    in which case nothing is made. *)
Fixpoint mkdirs (f : gmap abspath node) (dirs : list abspath)
  : option (gmap abspath node) :=
  match dirs with
  | [] => Some f
  | a :: dirs' =>
      match f !! a with
      | Some File => None
      | _ => mkdirs (<[a:=Dir]> f) dirs'
      end
  end.

Definition mkdir_all (f : gmap abspath node) (a : abspath)
  : option (gmap abspath node) :=
  mkdirs f (ancestors a).

(** Whether nothing lives below [a]. *)
Definition empty_below (f : gmap abspath node) (a : abspath) : bool :=
  bool_decide (map_Forall (λ b _, ¬ (a `prefix_of` b ∧ a ≠ b)) f).

(** Every node but the root lives in a directory. *)
Definition wf_fs (f : gmap abspath node) : Prop :=
  f !! [] = None ∧
  ∀ a c, is_Some (f !! (a ++ [c])) → node_at f a = Some Dir.

Lemma node_at_snoc (f : gmap abspath node) (a : abspath) (c : string) :
  node_at f (a ++ [c]) = f !! (a ++ [c]).
Proof. by destruct a. Qed.

(** The directories of [dirs] laid over [f]. *)
Definition with_dirs (f : gmap abspath node) (dirs : list abspath)
  : gmap abspath node :=
  foldl (λ f a, <[a:=Dir]> f) f dirs.

(** No file of [f] is in the way of the directories [dirs]. *)
Definition clear_of_files (f : gmap abspath node) (dirs : list abspath) : Prop :=
  Forall (λ a, f !! a ≠ Some File) dirs.

Section file_system.
Implicit Types (f : gmap abspath node) (a b : abspath) (dirs : list abspath).

Lemma lookup_with_dirs f dirs b :
  with_dirs f dirs !! b = if decide (b ∈ dirs) then Some Dir else f !! b.
Proof.
  revert f. induction dirs as [|a dirs IH]; intros f; simpl.
  - done.
  - rw IH. destruct (decide (b ∈ dirs)) as [Hb|Hb].
    + rw decide_True //. by right.
    + destruct (decide (a = b)) as [->|Hab].
      * rw lookup_insert_eq decide_True //. by left.
      * rw lookup_insert_ne // decide_False //. by intros [->|]%elem_of_cons.
Qed.

Lemma clear_of_files_insert f a dirs :
  clear_of_files f dirs → clear_of_files (<[a:=Dir]> f) dirs.
Proof.
  intros Hc. eapply Forall_impl; [done|]. intros b Hb.
  destruct (decide (a = b)) as [->|]; by rw ?lookup_insert_eq ?lookup_insert_ne.
Qed.

(** [mkdir -p] succeeds exactly when no file is in the way, and then makes
    the directories. *)
Lemma mkdirs_clear f dirs :
  clear_of_files f dirs → mkdirs f dirs = Some (with_dirs f dirs).
Proof.
  revert f. induction dirs as [|a dirs IH]; intros f Hc; [done|].
  apply Forall_cons in Hc as [Ha Hc]. simpl.
  rw (IH (<[a:=Dir]> f)); [by apply clear_of_files_insert|].
  by destruct (f !! a) as [[]|].
Qed.

Lemma mkdirs_blocked f dirs :
  ¬ clear_of_files f dirs → mkdirs f dirs = None.
Proof.
  revert f. induction dirs as [|a dirs IH]; intros f Hc; simpl.
  - destruct Hc. constructor.
  - destruct (f !! a) as [[]|] eqn:Ha; [done|..]; apply IH; intros Hc';
      apply Hc; (constructor; [by rw Ha|]); (eapply Forall_impl; [done|]);
      intros b; destruct (decide (a = b)) as [->|];
      rw ?lookup_insert_eq ?lookup_insert_ne //; congruence.
Qed.

Lemma mkdir_all_clear f a :
  clear_of_files f (ancestors a)
  → mkdir_all f a = Some (with_dirs f (ancestors a)).
Proof. apply mkdirs_clear. Qed.

Lemma mkdir_all_blocked f a :
  ¬ clear_of_files f (ancestors a) → mkdir_all f a = None.
Proof. apply mkdirs_blocked. Qed.

Lemma node_at_with_dirs f dirs b :
  node_at (with_dirs f dirs) b
  = if decide (b ∈ dirs) then Some Dir else node_at f b.
Proof.
  destruct b as [|c b]; simpl; [by case_decide|]. apply lookup_with_dirs.
Qed.

(** [mkdir -p] keeps the file system well formed. *)
Lemma wf_fs_with_dirs f a :
  wf_fs f → clear_of_files f (ancestors a) → wf_fs (with_dirs f (ancestors a)).
Proof.
  intros [Hroot Hwf] Hc. split.
  - rw lookup_with_dirs decide_False //. by intros [? _]%elem_of_ancestors.
  - intros b c. rw lookup_with_dirs node_at_with_dirs.
    destruct (decide (b ∈ _)) as [|Hb]; [done|]. case_decide as Hbc.
    + apply elem_of_ancestors in Hbc as [_ Hp]. destruct b as [|c' b]; [done|].
      destruct Hb. apply elem_of_ancestors. split; [done|].
      etrans; [apply prefix_app_same|done].
    + apply Hwf.
Qed.

Lemma with_dirs_app f dirs1 dirs2 :
  with_dirs f (dirs1 ++ dirs2) = with_dirs (with_dirs f dirs1) dirs2.
Proof. apply foldl_app. Qed.

Lemma clear_of_files_with_dirs f dirs1 dirs2 :
  clear_of_files f dirs2 → clear_of_files (with_dirs f dirs1) dirs2.
Proof.
  intros Hc. eapply Forall_impl; [done|]. intros b Hb.
  rw lookup_with_dirs. by case_decide.
Qed.

(** In a well-formed file system nothing lives below a missing node or a
    file. *)
Lemma wf_fs_below f a k :
  wf_fs f → node_at f a ≠ Some Dir → k ≠ [] → f !! (a ++ k) = None.
Proof.
  intros [_ Hwf] Ha. induction k as [|c k IH] using rev_ind; [done|]. intros _.
  destruct (f !! (a ++ k ++ [c])) as [n|] eqn:Hn; [|done].
  rw app_assoc in Hn. specialize (Hwf (a ++ k) c). rw Hn in Hwf.
  specialize (Hwf (mk_is_Some _ _ eq_refl)).
  destruct k as [|c' k] using rev_ind; [by rw app_nil_r in Hwf|].
  rw app_assoc node_at_snoc -app_assoc IH // in Hwf. by destruct k.
Qed.

(** The directories below [a] on the way to [a ++ k] are free when [a] is
    missing. *)
Lemma clear_of_files_below f a k :
  wf_fs f → node_at f a ≠ Some Dir →
  clear_of_files f (ancestors_from a k).
Proof.
  intros Hwf Ha. apply Forall_forall. intros b Hb.
  apply elem_of_ancestors_from in Hb as (k' & -> & Hk' & _).
  by rw (wf_fs_below f a k').
Qed.

(** A directory made by [mkdir -p] is there afterwards, with its parents. *)
Lemma with_dirs_ancestor f a b :
  b ≠ [] → b `prefix_of` a → with_dirs f (ancestors a) !! b = Some Dir.
Proof.
  intros ? ?. rw lookup_with_dirs decide_True //. by apply elem_of_ancestors.
Qed.
Lemma wf_fs_empty : wf_fs ∅.
Proof. split; [done|]. intros a c [n Hn]. by rw lookup_empty in Hn. Qed.

(** In a well-formed file system the parents of a node are directories. *)
Lemma wf_fs_above f a b :
  wf_fs f → is_Some (f !! a) → b ∈ ancestors a → b ≠ a → f !! b = Some Dir.
Proof.
  intros Hwf [n Hn] [Hb [k ->]]%elem_of_ancestors Hne.
  destruct (decide (node_at f b = Some Dir)) as [Hd|Hd]; [by destruct b|].
  rw (wf_fs_below f b k) // in Hn. intros ->. by rw app_nil_r in Hne.
Qed.

Lemma dir_ancestors f a :
  wf_fs f → node_at f a = Some Dir →
  Forall (λ b, f !! b = Some Dir) (ancestors a).
Proof.
  intros Hwf Ha. apply Forall_forall. intros b Hb.
  destruct (decide (b = a)) as [->|Hne].
  - apply elem_of_ancestors in Hb as [? _]. by destruct a.
  - apply (wf_fs_above f a); [done| |done..]. destruct a; [|simpl in Ha; by rw Ha].
    by apply elem_of_ancestors in Hb as [_ ->%prefix_nil_inv].
Qed.

Lemma with_dirs_present f dirs :
  Forall (λ b, f !! b = Some Dir) dirs → with_dirs f dirs = f.
Proof.
  intros Hd. apply map_eq. intros b. rw lookup_with_dirs.
  case_decide as Hb; [|done]. by rw (proj1 (Forall_forall _ _) Hd b Hb).
Qed.

(** [mkdir -p] of a directory that is there changes nothing. *)
Lemma mkdir_all_dir f a :
  wf_fs f → node_at f a = Some Dir → mkdir_all f a = Some f.
Proof.
  intros Hwf Ha. pose proof (dir_ancestors f a Hwf Ha) as Hd.
  rw mkdir_all_clear; [|by rw with_dirs_present].
  eapply Forall_impl; [done|]. by intros b ->.
Qed.

Lemma empty_below_spec f a :
  empty_below f a = true ↔ ∀ k, k ≠ [] → f !! (a ++ k) = None.
Proof.
  rw /empty_below bool_decide_eq_true map_Forall_lookup. split.
  - intros Hf k Hk. destruct (f !! (a ++ k)) as [n|] eqn:Hn; [|done].
    destruct (Hf _ _ Hn). split; [apply prefix_app_same|].
    intros Heq. apply Hk. apply (app_inv_head a). by rw app_nil_r.
  - intros Hf b n Hb [[k ->] Hne]. rw Hf // in Hb.
    intros ->. by rw app_nil_r in Hne.
Qed.

(** A directory is not empty once something has been put into it. *)
Lemma empty_below_insert f a c n : empty_below (<[a ++ [c]:=n]> f) a = false.
Proof.
  destruct (empty_below _ a) eqn:He; [|done].
  pose proof (proj1 (empty_below_spec _ _) He [c]) as Hk.
  rw lookup_insert_eq in Hk. by discriminate Hk.
Qed.

(** A directory made in a directory of a well-formed file system keeps it
    well formed. *)
Lemma wf_fs_insert_dir f a c :
  wf_fs f → node_at f a = Some Dir → wf_fs (<[a ++ [c]:=Dir]> f).
Proof.
  intros [Hroot Hwf] Ha. split; [rw lookup_insert_ne //; by destruct a|].
  intros b d Hbd.
  assert (node_at f b = Some Dir) as Hb.
  { destruct (decide (a ++ [c] = b ++ [d])) as [[-> _]%app_inj_tail|Hne]; [done|].
    rw lookup_insert_ne // in Hbd. by apply (Hwf b d). }
  destruct b as [|d' b]; [done|]. simpl in *.
  destruct (decide (a ++ [c] = d' :: b)) as [<-|Hne];
    by rw ?lookup_insert_eq ?lookup_insert_ne.
Qed.
(** A file made in a directory, where no directory is, keeps the file
    system well formed. *)
Lemma wf_fs_insert_file f a c :
  wf_fs f → node_at f a = Some Dir → f !! (a ++ [c]) ≠ Some Dir →
  wf_fs (<[a ++ [c]:=File]> f).
Proof.
  intros [Hroot Hwf] Ha Hc. split; [rw lookup_insert_ne //; by destruct a|].
  intros b d Hbd.
  assert (node_at f b = Some Dir) as Hb.
  { destruct (decide (a ++ [c] = b ++ [d])) as [[-> _]%app_inj_tail|Hne]; [done|].
    rw lookup_insert_ne // in Hbd. by apply (Hwf b d). }
  destruct b as [|d' b]; [done|]. simpl in *.
  destruct (decide (a ++ [c] = d' :: b)) as [Heq|Hne]; [|by rw lookup_insert_ne].
  destruct Hc. by rw Heq.
Qed.

(** [mkdir -p] writes above its target and at it, nowhere else. *)
Lemma mkdir_all_frame f a f' b :
  mkdir_all f a = Some f' → ¬ b `prefix_of` a → f' !! b = f !! b.
Proof.
  intros Hm Hb. destruct (decide (clear_of_files f (ancestors a))) as [Hc|Hc];
    [|by rw mkdir_all_blocked in Hm].
  rw mkdir_all_clear // in Hm. injection Hm as <-.
  rw lookup_with_dirs decide_False //. by intros [_ ?]%elem_of_ancestors.
Qed.

(** [mkdir -p], when it succeeds, keeps the file system well formed and
    keeps what was there. *)
Lemma mkdir_all_wf f a f' :
  wf_fs f → mkdir_all f a = Some f' →
  wf_fs f' ∧ node_at f' a = Some Dir
  ∧ ∀ b, ¬ b `prefix_of` a → f' !! b = f !! b.
Proof.
  intros Hwf Hm. destruct (decide (clear_of_files f (ancestors a))) as [Hc|Hc];
    [|by rw mkdir_all_blocked in Hm].
  rw mkdir_all_clear // in Hm. injection Hm as <-.
  split_and!; [by apply wf_fs_with_dirs| |].
  - destruct a as [|c a]; [done|]. by apply with_dirs_ancestor.
  - intros b Hb. apply (mkdir_all_frame f a); [by apply mkdir_all_clear|done].
Qed.

Lemma node_at_insert_dir f a b :
  node_at f b = Some Dir → node_at (<[a:=Dir]> f) b = Some Dir.
Proof.
  destruct b as [|c b]; [done|]. simpl.
  destruct (decide (a = c :: b)) as [->|]; by rw ?lookup_insert_eq ?lookup_insert_ne.
Qed.
End file_system.

Arguments mkdir_all : simpl never.
Arguments with_dirs : simpl never.

#[export] Instance clear_of_files_dec f dirs : Decision (clear_of_files f dirs).
Proof. apply _. Defined.

(** ** Errors of the environment *)

Definition ENOENT : error := Err "no such file or directory".
Definition ENOTDIR : error := Err "not a directory".
Definition ErrNotFound : error := Err "executable file not found in $PATH".
Definition ErrStarted : error := Err "exec: already started".
Definition ErrNotStarted : error := Err "exec: not started".
Definition ErrStdinSet : error := Err "exec: Stdin already set".
Definition ErrClosed : error := Err "file already closed".
Definition ErrNoProcess : error := Err "invalid argument".
Definition ErrWrongRemote : error := Err "The Remote does not match the VCS endpoint".
Definition ErrGit : error := Err "Unable to get repository".
Definition ErrNoChart : error := Err "chart not found".
Definition ExitError (code : nat) : error :=
  Err (String.append "exit status " (pretty code)).

(** ** Child processes *)

(** What a child does once it has read its whole input: [kubectl create -f -]
    offers the document to the cluster and exits with status 0 when it is
    accepted and 1 when it is not; any other command leaves the cluster
    alone. *)
Definition child_run `{Collaborators} (p : Process) (docs : list bytes)
  : list bytes * nat :=
  if decide (p_name p = "kubectl" ∧ p_args p = ["create"; "-f"; "-"]) then
    if admits docs (p_stdin p) then (docs ++ [p_stdin p], 0) else (docs, 1)
  else (docs, 0).

Definition with_pipe (w : pipe) (p : Process) : Process :=
  MkProcess (p_name p) (p_args p) (Some w) true (p_stdin p) (p_stdout p)
    (p_stderr p) (p_status p).
Definition with_stdout (s : stream) (p : Process) : Process :=
  MkProcess (p_name p) (p_args p) (p_pipe p) (p_open p) (p_stdin p) (Some s)
    (p_stderr p) (p_status p).
Definition with_stderr (s : stream) (p : Process) : Process :=
  MkProcess (p_name p) (p_args p) (p_pipe p) (p_open p) (p_stdin p)
    (p_stdout p) (Some s) (p_status p).
Definition with_status (st : pstatus) (p : Process) : Process :=
  MkProcess (p_name p) (p_args p) (p_pipe p) (p_open p) (p_stdin p)
    (p_stdout p) (p_stderr p) st.
Definition with_input (data : bytes) (p : Process) : Process :=
  MkProcess (p_name p) (p_args p) (p_pipe p) (p_open p)
    (String.append (p_stdin p) data) (p_stdout p) (p_stderr p) (p_status p).
Definition with_closed (p : Process) : Process :=
  MkProcess (p_name p) (p_args p) (p_pipe p) false (p_stdin p) (p_stdout p)
    (p_stderr p) (p_status p).

(** Whether the child has reached the end of its input: it runs and its
    standard input is not an open pipe. *)
Definition at_eof (p : Process) : bool :=
  bool_decide (p_status p = Running) && negb (p_open p).

(** The child [c] runs to its exit if it has reached the end of its input. *)
Definition settle `{Collaborators} (c : cmd) (w : World) : World :=
  match procs w !! c with
  | Some p =>
      if at_eof p then
        let '(docs, code) := child_run p (cluster w) in
        set_cluster (λ _, docs)
          (set_procs (alter (with_status (Exited code)) c) w)
      else w
  | None => w
  end.

(** ** The handler *)

Section handler.
Context `{Layout, Collaborators}.

Definition do_log (l : Level) (fmt : string) (args : list string)
    (w : World) : World :=
  add_log (MkLog l fmt args) w.

Definition do_die {T} (fmt : string) (args : list string) (w : World)
  : option T * World :=
  (None, do_log Fatal fmt args w).

Definition do_stat (p : path) (w : World) : result FileInfo :=
  match node_at (fs w) (resolve (cwd w) p) with
  | Some Dir => Ok (MkFileInfo true)
  | Some File => Ok (MkFileInfo false)
  | None => Fail ENOENT
  end.

Definition do_mkdir_all (p : path) (w : World) : option error * World :=
  match mkdir_all (fs w) (resolve (cwd w) p) with
  | Some f => (None, set_fs (λ _, f) w)
  | None => (Some ENOTDIR, w)
  end.

Definition do_chdir (p : path) (w : World) : option error * World :=
  match node_at (fs w) (resolve (cwd w) p) with
  | Some Dir => (None, set_cwd (resolve (cwd w) p) w)
  | Some File => (Some ENOTDIR, w)
  | None => (Some ENOENT, w)
  end.

Definition do_look_path (file : string) (w : World) : result path :=
  match search_path w !! file with
  | Some p => Ok p
  | None => Fail ErrNotFound
  end.

Definition do_command (name : string) (args : list string) (w : World)
  : cmd * World :=
  (length (procs w),
   set_procs
     (λ ps, ps ++ [MkProcess name args None false "" None None NotStarted])
     w).

Definition do_stdin_pipe (c : cmd) (w : World) : result pipe * World :=
  match procs w !! c with
  | Some p =>
      if p_pipe p is Some _ then (Fail ErrStdinSet, w)
      else if decide (p_status p = NotStarted)
      then (Ok c, set_procs (alter (with_pipe c) c) w)
      else (Fail ErrStarted, w)
  | None => (Fail ErrNoProcess, w)
  end.

Definition do_start (c : cmd) (w : World) : option error * World :=
  match procs w !! c with
  | Some p =>
      if decide (p_status p = NotStarted) then
        if search_path w !! p_name p is Some _
        then (None, settle c (set_procs (alter (with_status Running) c) w))
        else (Some ErrNotFound, w)
      else (Some ErrStarted, w)
  | None => (Some ErrNoProcess, w)
  end.

Definition do_write (k : pipe) (data : bytes) (w : World)
  : result nat * World :=
  match procs w !! k with
  | Some p =>
      if p_open p
      then (Ok (String.length data), set_procs (alter (with_input data) k) w)
      else (Fail ErrClosed, w)
  | None => (Fail ErrNoProcess, w)
  end.

Definition do_close (k : pipe) (w : World) : option error * World :=
  match procs w !! k with
  | Some p =>
      if p_open p
      then (None, settle k (set_procs (alter with_closed k) w))
      else (Some ErrClosed, w)
  | None => (Some ErrNoProcess, w)
  end.

(** [Wait] on a child that still waits for the end of its input never
    returns: the world is marked [hung] and the process does not go on. *)
Definition do_wait (c : cmd) (w : World) : option (option error) * World :=
  match procs w !! c with
  | Some p =>
      match p_status p with
      | NotStarted => (Some (Some ErrNotStarted), w)
      | Running => (None, set_hung w)
      | Exited 0 => (Some None, w)
      | Exited code => (Some (Some (ExitError code)), w)
      end
  | None => (Some (Some ErrNoProcess), w)
  end.

Definition do_load (dir : path) (w : World) : result Chart :=
  match disk_charts w !! resolve (cwd w) dir with
  | Some c => Ok c
  | None => Fail ErrNoChart
  end.

(** [Fetch] copies the chart from the cache into the workspace; it ends
    the process when the chart is not in the cache, when a file is in the
    way of the chart directory or when a directory is in the way of the
    marker file. *)
Definition do_fetch (chart lname : string) (home : path) (w : World)
  : option unit * World :=
  let dest := resolve (cwd w) (Join [home; WorkspaceChartPath; seg lname]) in
  match cache_charts w !! chart, mkdir_all (fs w) dest with
  | Some c, Some f =>
      if decide (fs w !! (dest ++ ["Chart.yaml"]) = Some Dir)
      then do_die "Could not fetch chart %q" [chart] w
      else
        (Some (),
         set_disk_charts <[dest:=c]>
           (set_fs (λ _, <[dest ++ ["Chart.yaml"]:=File]> f) w))
  | _, _ => do_die "Could not fetch chart %q" [chart] w
  end.

Definition do_new_repo (remote : string) (local : path) (w : World)
  : result GitRepo :=
  match clones w !! resolve (cwd w) local with
  | Some (r, _) =>
      if decide (r = remote) then Ok (MkGitRepo remote (absolute (cwd w) local))
      else Fail ErrWrongRemote
  | None => Ok (MkGitRepo remote (absolute (cwd w) local))
  end.

Definition do_check_local (g : GitRepo) (w : World) : bool :=
  bool_decide (is_Some (clones w !! resolve (cwd w) (git_local g))).

(** [git clone]: the remote must answer and the target must be absent or
    an empty directory. *)
Definition do_get (g : GitRepo) (w : World) : option error * World :=
  let a := resolve (cwd w) (git_local g) in
  match remotes w !! git_remote g, mkdir_all (fs w) a with
  | Some head, Some f =>
      if empty_below (fs w) a && bool_decide (node_at (fs w) a ≠ Some File)
      then (None,
            set_clones <[a:=(git_remote g, head)]>
              (set_fs (λ _, <[a ++ [".git"]:=Dir]> f) w))
      else (Some ErrGit, w)
  | _, _ => (Some ErrGit, w)
  end.

(** [git pull]: the clone moves to the head of its remote. *)
Definition do_update (g : GitRepo) (w : World) : option error * World :=
  let a := resolve (cwd w) (git_local g) in
  match clones w !! a with
  | Some (r, _) =>
      match remotes w !! r with
      | Some head => (None, set_clones <[a:=(r, head)]> w)
      | None => (Some ErrGit, w)
      end
  | None => (Some ErrGit, w)
  end.

Definition handle : handler World := λ T o,
  match o in Op T return World → option T * World with
  | LogInfo fmt args => λ w, (Some (), do_log Info fmt args w)
  | LogDebug fmt args => λ w, (Some (), do_log Debug fmt args w)
  | LogDie fmt args => do_die fmt args
  | OsStat p => λ w, (Some (do_stat p w), w)
  | OsMkdirAll p _ => λ w, prod_map Some id (do_mkdir_all p w)
  | OsChdir p => λ w, prod_map Some id (do_chdir p w)
  | FilepathAbs p => λ w, (Some (Ok (absolute (cwd w) p)), w)
  | ExecLookPath file => λ w, (Some (do_look_path file w), w)
  | ExecCommand name args => λ w, prod_map Some id (do_command name args w)
  | CmdStdinPipe c => λ w, prod_map Some id (do_stdin_pipe c w)
  | CmdSetStdout c s => λ w,
      (Some (), set_procs (alter (with_stdout s) c) w)
  | CmdSetStderr c s => λ w,
      (Some (), set_procs (alter (with_stderr s) c) w)
  | CmdStart c => λ w, prod_map Some id (do_start c w)
  | CmdWait c => do_wait c
  | PipeWrite k data => λ w, prod_map Some id (do_write k data w)
  | PipeClose k => λ w, prod_map Some id (do_close k w)
  | ManifestMarshalJSON o v => λ w, (Some (marshal o v), w)
  | ModelLoad dir => λ w, (Some (do_load dir w), w)
  | FetchChart chart lname home => do_fetch chart lname home
  | VcsNewGitRepo remote local => λ w, (Some (do_new_repo remote local w), w)
  | GitCheckLocal g => λ w, (Some (do_check_local g w), w)
  | GitGet g => λ w, prod_map Some id (do_get g w)
  | GitUpdate g => λ w, prod_map Some id (do_update g w)
  end.
End handler.

(** The field updates and the answers compute on a world given by its
    fields. *)
Arguments set_fs _ !_ /.
Arguments set_cwd _ !_ /.
Arguments set_procs _ !_ /.
Arguments set_cluster _ !_ /.
Arguments set_disk_charts _ !_ /.
Arguments set_clones _ !_ /.
Arguments add_log _ !_ /.
Arguments set_hung !_ /.
Arguments with_pipe _ !_ /.
Arguments with_stdout _ !_ /.
Arguments with_stderr _ !_ /.
Arguments with_status _ !_ /.
Arguments with_input _ !_ /.
Arguments with_closed !_ /.
Arguments at_eof !_ /.
Arguments settle {_} _ !_ /.
Arguments do_log _ _ _ !_ /.
Arguments do_die {_} _ _ !_ /.
Arguments do_stat _ !_ /.
Arguments do_mkdir_all _ !_ /.
Arguments do_chdir _ !_ /.
Arguments do_look_path _ !_ /.
Arguments do_command _ _ !_ /.
Arguments do_stdin_pipe _ !_ /.
Arguments do_start {_} _ !_ /.
Arguments do_write _ _ !_ /.
Arguments do_close {_} _ !_ /.
Arguments do_wait _ !_ /.
Arguments do_load _ !_ /.
Arguments do_fetch {_} _ _ _ !_ /.
Arguments do_new_repo _ _ !_ /.
Arguments do_check_local _ !_ /.
Arguments do_get _ !_ /.
Arguments do_update _ !_ /.

(** ** Logging changes the log only *)

Section add_log.
Implicit Types (e : LogEntry) (w : World).

Lemma fs_add_log e w : fs (add_log e w) = fs w.
Proof. by destruct w. Qed.
Lemma cwd_add_log e w : cwd (add_log e w) = cwd w.
Proof. by destruct w. Qed.
Lemma search_path_add_log e w : search_path (add_log e w) = search_path w.
Proof. by destruct w. Qed.
Lemma procs_add_log e w : procs (add_log e w) = procs w.
Proof. by destruct w. Qed.
Lemma cluster_add_log e w : cluster (add_log e w) = cluster w.
Proof. by destruct w. Qed.
Lemma disk_charts_add_log e w : disk_charts (add_log e w) = disk_charts w.
Proof. by destruct w. Qed.
Lemma cache_charts_add_log e w : cache_charts (add_log e w) = cache_charts w.
Proof. by destruct w. Qed.
Lemma clones_add_log e w : clones (add_log e w) = clones w.
Proof. by destruct w. Qed.
Lemma remotes_add_log e w : remotes (add_log e w) = remotes w.
Proof. by destruct w. Qed.
Lemma hung_add_log e w : hung (add_log e w) = hung w.
Proof. by destruct w. Qed.
Lemma static_add_log e w : static (add_log e w) = static w.
Proof. by destruct w. Qed.
Lemma silent_add_log e w : silent (add_log e w) = silent w.
Proof. by destruct w. Qed.
Lemma logs_add_log e w : logs (add_log e w) = logs w ++ [e].
Proof. by destruct w. Qed.

Lemma set_cwd_cwd w : set_cwd (cwd w) w = w.
Proof. by destruct w. Qed.
Lemma set_cwd_set_cwd (d d' : abspath) w : set_cwd d (set_cwd d' w) = set_cwd d w.
Proof. by destruct w. Qed.
End add_log.

#[export] Hint Rewrite fs_add_log cwd_add_log search_path_add_log
  procs_add_log cluster_add_log disk_charts_add_log cache_charts_add_log
  clones_add_log remotes_add_log hung_add_log static_add_log silent_add_log
  logs_add_log : helm.

(** ** The table of processes *)

Section table.
Context {A : Type}.
Implicit Types (ps : list A) (p : A).

Lemma lookup_new ps p : (ps ++ [p]) !! length ps = Some p.
Proof. by rw list_lookup_middle. Qed.

Lemma alter_new (f : A → A) ps p :
  alter f (length ps) (ps ++ [p]) = ps ++ [f p].
Proof. by rw -{1}(Nat.add_0_r (length ps)) alter_app_r. Qed.
End table.

#[export] Hint Rewrite @lookup_new @alter_new : helm.

(** Symbolic execution in a world given by its fields: compute, and look
    the newest process up. *)
(** A fatal message of the program, as the reference environment
    records it. *)
Section dies.
Context `{Layout, Collaborators}.

Lemma runs_to_or_die_log (p : prog (option error)) fmt args w err w1 cs :
  runs_to handle p w (Some (Some err)) w1 cs →
  runs_to handle (or_die p fmt args) w None
    (add_log (MkLog Fatal fmt (args ++ [err_msg err])) w1)
    (cs ++ [AnyOp (LogDie fmt (args ++ [err_msg err]))]).
Proof. exact (runs_to_or_die_err handle p fmt args w err w1 cs). Qed.

Lemma runs_to_get_or_die_log {A} (p : prog (result A)) fmt args w err w1 cs :
  runs_to handle p w (Some (Fail err)) w1 cs →
  runs_to handle (get_or_die p fmt args) w None
    (add_log (MkLog Fatal fmt (args ++ [err_msg err])) w1)
    (cs ++ [AnyOp (LogDie fmt (args ++ [err_msg err]))]).
Proof. exact (runs_to_get_or_die_err handle p fmt args w err w1 cs). Qed.
End dies.

Ltac run_world := repeat (progress (simpl; rw ?lookup_new ?alter_new)).

(** ** A sample environment

    The layout the specification describes, the serialiser of [Manifest]
    and a cluster that refuses a document it already holds, and a world
    with git and kubectl installed and an empty home. *)
Module Sample.

Definition layout : Layout :=
  MkLayout (Rel ["workspace"; "charts"]) (Rel ["cache"])
    [Rel ["cache"]; Rel ["workspace"]; Rel ["workspace"; "charts"]].

Definition collaborators : Collaborators :=
  MkCollaborators MarshalJSON (λ docs d, bool_decide (d ∉ docs)).

Definition world : World :=
  MkWorld ∅ []
    {[ "git" := Abs ["usr"; "bin"; "git"];
       "kubectl" := Abs ["usr"; "bin"; "kubectl"] ]}
    [] [] ∅ ∅ ∅ {[ "https://example.com/charts" := 7 ]} [] false.

Definition ns (name : string) : Resource :=
  MkResource [("kind", Json.Str "Namespace"); ("name", Json.Str name)].
Definition svc (name : string) : Resource :=
  MkResource [("kind", Json.Str "Service"); ("name", Json.Str name);
              ("ports", Json.Arr [Json.Num 80; Json.Num 443])].
Definition pod (name : string) : Resource :=
  MkResource [("kind", Json.Str "Pod"); ("name", Json.Str name)].

(** A pod with a value that has no JSON form. *)
Definition broken : Resource :=
  MkResource [("kind", Json.Str "Pod"); ("hook", Json.Opaque "func()")].

Definition chart : Chart :=
  MkChart [ns "demo"] [] [] [svc "web"] [pod "web-1"; pod "web-2"] [].

(** The documents of the namespace, the service and the two pods. *)
Definition ns_doc : bytes :=
  Json.text "{'apiVersion':'v1','kind':'Namespace','name':'demo'}".
Definition svc_doc : bytes :=
  Json.text "{'apiVersion':'v1','kind':'Service','name':'web','ports':[80,443]}".
Definition pod_doc (name : string) : bytes :=
  Json.text ("{'apiVersion':'v1','kind':'Pod','name':'" +:+ name +:+ "'}").

Definition documents : list bytes :=
  [ns_doc; svc_doc; pod_doc "web-1"; pod_doc "web-2"].

End Sample.
