(* ===== verification/Invariant.v ===== *)
(** * What every call of the reference environment keeps

    The frame of each call (the file system is written by [MkdirAll],
    [Fetch] and [git clone] only), the invariant [wf_fs] of the file
    system, and the two things that only grow: the documents of the
    cluster and the log.  With [Prog.exec_keeps] they hold along every run
    of every program of the package.  The predicates [along] and [within]
    say where the calls of a program write; a program that satisfies one
    leaves the rest of the file system as it is ([exec_along],
    [exec_within]). *)

From stdpp Require Import gmap.
From S2P Require Import Prelude Paths Chart Prog World.

(** The calls that write to the file system. *)
Definition touches_fs {T} (o : Op T) : bool :=
  match o with
  | OsMkdirAll _ _ | FetchChart _ _ _ | GitGet _ => true
  | _ => false
  end.

(** The calls on child processes. *)
Definition touches_procs {T} (o : Op T) : bool :=
  match o with
  | ExecCommand _ _ | CmdStdinPipe _ | CmdSetStdout _ _ | CmdSetStderr _ _
  | CmdStart _ | CmdWait _ | PipeWrite _ _ | PipeClose _ => true
  | _ => false
  end.

(** A program that stays away from child processes. *)
Definition no_child : op_pred := λ T o, touches_procs o = false.

(** A program that neither touches a child process nor serialises. *)
Definition aside : op_pred := λ T o,
  touches_procs o = false ∧ marshal_arg (AnyOp o) = None.

(** The path [b] is neither above nor below [a]. *)
Definition outside (a b : abspath) : Prop :=
  ¬ b `prefix_of` a ∧ ¬ a `prefix_of` b.

(** From [w] to [w'] the file system is as it was outside of [a]. *)
Definition keeps_outside (a : abspath) : relation World :=
  λ w w', ∀ b, outside a b → fs w' !! b = fs w !! b.

#[export] Instance keeps_outside_preorder a : PreOrder (keeps_outside a).
Proof.
  split; [by intros w b|]. intros w1 w2 w3 H12 H23 b Hb.
  by rw H23 // H12.
Qed.

(** The calls that write to the file system write along [a]: at [a],
    above it or below it. *)
Definition along (a : abspath) : op_pred := λ T o,
  match o with
  | OsMkdirAll p _ => ∃ q, p = Abs (a ++ q)
  | GitGet g => ∃ q, git_local g = Abs (a ++ q)
  | FetchChart _ _ _ => False
  | _ => True
  end.

(** The same for a process that stays in the directory [c]: the paths it
    writes to, read from [c], are [a] or below it, and [Fetch] may write. *)
Definition within `{Layout} (c a : abspath) : op_pred := λ T o,
  match o with
  | OsMkdirAll p _ => ∃ q, resolve c p = a ++ q
  | GitGet g => ∃ q, resolve c (git_local g) = a ++ q
  | FetchChart _ lname home =>
      ∃ q, resolve c (Join [home; WorkspaceChartPath; seg lname]) = a ++ q
  | OsChdir _ => False
  | _ => True
  end.

(** From [w0] to [w] the process has not moved and the file system is as
    it was outside of [a]. *)
Definition stays (a : abspath) (w0 : World) : World → Prop :=
  λ w, cwd w = cwd w0 ∧ keeps_outside a w0 w.

(** A list kept in the world only grows from [w1] to [w2]. *)
Definition grows {A} (f : World → list A) : relation World :=
  λ w1 w2, f w1 `prefix_of` f w2.

#[export] Instance grows_preorder {A} (f : World → list A) : PreOrder (grows f).
Proof.
  split; [intros w; by rw /grows|].
  intros w1 w2 w3 H12 H23. rw /grows. by etrans.
Qed.

Section invariant.
Context `{Layout, Collaborators}.
Implicit Types (w : World).

Lemma fs_settle c w : fs (settle c w) = fs w.
Proof. rw /settle. destruct w; simpl. by repeat case_match. Qed.

Lemma cwd_settle c w : cwd (settle c w) = cwd w.
Proof. rw /settle. destruct w; simpl. by repeat case_match. Qed.

Lemma logs_settle c w : logs (settle c w) = logs w.
Proof. rw /settle. destruct w; simpl. by repeat case_match. Qed.

Lemma cluster_settle c w : cluster w `prefix_of` cluster (settle c w).
Proof.
  rw /settle /child_run. destruct w; simpl.
  repeat case_match; simplify_eq/=; try done. apply prefix_app_same.
Qed.

(** A call that does not write to the file system leaves it alone. *)
Lemma handle_fs {T} (o : Op T) w :
  touches_fs o = false → fs (handle T o w).2 = fs w.
Proof.
  destruct o; try done; intros _; destruct w; simpl;
    rw /do_chdir /do_stdin_pipe /do_start /do_write /do_close /do_wait
       /do_update /=;
    repeat case_match; by rw /= ?fs_settle.
Qed.

Lemma do_mkdir_all_wf p w :
  wf_fs (fs w) → wf_fs (fs (do_mkdir_all p w).2).
Proof.
  intros Hwf. rw /do_mkdir_all.
  destruct (mkdir_all _ _) as [f|] eqn:Hm; [|done].
  apply mkdir_all_wf in Hm as [? _]; [|done]. by destruct w.
Qed.

Lemma do_fetch_wf chart lname home w :
  wf_fs (fs w) → wf_fs (fs (do_fetch chart lname home w).2).
Proof.
  intros Hwf. rw /do_fetch. destruct (cache_charts w !! chart); [|by destruct w].
  destruct (mkdir_all _ _) as [f|] eqn:Hm; [|by destruct w].
  case_decide as Hd; [by destruct w|].
  apply mkdir_all_wf in Hm as (Hf & Hdest & Hkeep); [|done].
  destruct w; simpl in *. apply wf_fs_insert_file; [done..|].
  by rw Hkeep; [apply snoc_not_prefix|].
Qed.

Lemma do_get_wf g w : wf_fs (fs w) → wf_fs (fs (do_get g w).2).
Proof.
  intros Hwf. rw /do_get. destruct (remotes w !! _); [|done].
  destruct (mkdir_all _ _) as [f|] eqn:Hm; [|done].
  case_match; [|done].
  apply mkdir_all_wf in Hm as (Hf & Hdest & _); [|done].
  destruct w; simpl in *. by apply wf_fs_insert_dir.
Qed.

Lemma outside_below a q b : outside a b → ¬ b `prefix_of` a ++ q.
Proof.
  intros [Hb Ha] [Hp|(l & -> & _)]%app_prefix_cases; [done|].
  apply Ha, prefix_app_same.
Qed.

Lemma outside_in a q b : outside a b → b ≠ a ++ q.
Proof. intros [_ Ha] ->. apply Ha, prefix_app_same. Qed.

(** A directory made at [a] or below it, and a node put into it. *)
Lemma mkdir_insert_frame f f' a q c n b :
  mkdir_all f (a ++ q) = Some f' → outside a b →
  <[(a ++ q) ++ [c]:=n]> f' !! b = f !! b.
Proof.
  intros Hm Hb. rw lookup_insert_ne.
  { rw -app_assoc. by apply not_eq_sym, outside_in. }
  by eapply mkdir_all_frame, outside_below.
Qed.

(** Only [Chdir] moves the process. *)
Lemma handle_cwd {T} (o : Op T) w :
  (if o is OsChdir _ then False else True) → cwd (handle T o w).2 = cwd w.
Proof.
  destruct o; try done; intros _; destruct w; simpl;
    rw /do_mkdir_all /do_stdin_pipe /do_start /do_write /do_close /do_wait
       /do_fetch /do_get /do_update /=;
    repeat case_match; by rw /= ?cwd_settle.
Qed.

(** [Fetch] writes the directory of the chart and the marker file in it. *)
Lemma do_fetch_frame chart lname home w a q b :
  resolve (cwd w) (Join [home; WorkspaceChartPath; seg lname]) = a ++ q →
  outside a b → fs (do_fetch chart lname home w).2 !! b = fs w !! b.
Proof.
  intros Hq Hb. rw /do_fetch Hq.
  destruct (cache_charts w !! chart); [|by destruct w].
  destruct (mkdir_all _ _) as [f|] eqn:Hm; [|by destruct w].
  case_decide; [by destruct w|]. destruct w; simpl in *.
  by eapply mkdir_insert_frame.
Qed.

(** A call that writes within [a] leaves the rest of the file system as it
    is. *)
Lemma handle_within a {T} (o : Op T) w b :
  within (cwd w) a T o → outside a b → fs (handle T o w).2 !! b = fs w !! b.
Proof.
  intros Ho Hb. destruct (touches_fs o) eqn:Hfs; [|by rw handle_fs].
  destruct o; try done; cbn [handle prod_map fst snd id]; destruct Ho as [q Hq].
  - rw /do_mkdir_all Hq.
    destruct (mkdir_all _ _) as [f|] eqn:Hm; [|done]. destruct w; simpl in *.
    by eapply mkdir_all_frame, outside_below.
  - by eapply do_fetch_frame.
  - rw /do_get Hq. destruct (remotes w !! _); [|done].
    destruct (mkdir_all _ _) as [f|] eqn:Hm; [|done]. case_match; [|done].
    destruct w; simpl in *. by eapply mkdir_insert_frame.
Qed.

Lemma along_within a c {T} (o : Op T) :
  along a T o → touches_fs o = true → within c a T o.
Proof. destruct o; try done; intros [q Hq] _; exists q; by rw Hq. Qed.

Lemma handle_along a {T} (o : Op T) w b :
  along a T o → outside a b → fs (handle T o w).2 !! b = fs w !! b.
Proof.
  intros Ho Hb. destruct (touches_fs o) eqn:Hfs; [|by rw handle_fs].
  apply (handle_within a); [by apply along_within|done].
Qed.

(** So does a program all of whose writes stay within [a], and it does
    not move. *)
Lemma exec_within a {R} (p : prog R) w0 w :
  calls_only (within (cwd w0) a) p → stays a w0 w →
  stays a w0 (final (exec handle p w)).
Proof.
  intros Hp.
  apply (exec_invariant (within (cwd w0) a) handle (stays a w0)); [|done].
  intros T o w1 Ho [Hc Hk]. split.
  - rw -Hc. apply handle_cwd. by destruct o.
  - intros b Hb. rw (handle_within a) -?Hk ?Hc //.
Qed.

(** So does a program all of whose writes go along [a], wherever it
    moves. *)
Lemma exec_along a {R} (p : prog R) w0 w :
  calls_only (along a) p → keeps_outside a w0 w →
  keeps_outside a w0 (final (exec handle p w)).
Proof.
  intros Hp.
  apply (exec_invariant (along a) handle (keeps_outside a w0)); [|done].
  intros T o w1 Ho Hk b Hb. rw (handle_along a) //. by apply Hk.
Qed.

(** The repository [vcs.NewGitRepo] answers with lives where it was asked
    for. *)
Lemma do_new_repo_local repo p w g :
  do_new_repo repo p w = Ok g → git_local g = absolute (cwd w) p.
Proof. rw /do_new_repo. repeat case_match; naive_solver. Qed.

(** Every call keeps the file system well formed. *)
Lemma handle_wf {T} (o : Op T) w : wf_fs (fs w) → wf_fs (fs (handle T o w).2).
Proof.
  intros Hwf. destruct (touches_fs o) eqn:Ho; [|by rw handle_fs].
  destruct o; try done; cbn [handle].
  - by apply do_mkdir_all_wf.
  - by apply do_fetch_wf.
  - by apply do_get_wf.
Qed.

(** A call that is not on a child process leaves the processes and the
    cluster alone, and the process does not wait. *)
Lemma handle_procs {T} (o : Op T) w :
  touches_procs o = false →
  procs (handle T o w).2 = procs w ∧ cluster (handle T o w).2 = cluster w
  ∧ hung (handle T o w).2 = hung w.
Proof.
  destruct o; try done; intros _; cbn [handle prod_map fst snd];
    rw /do_mkdir_all /do_chdir /do_fetch /do_get /do_update /do_die /do_log;
    repeat case_match; cbn [fst snd id]; by destruct w.
Qed.

(** So does every program. *)
Lemma exec_wf {R} (p : prog R) w :
  wf_fs (fs w) → wf_fs (fs (final (exec handle p w))).
Proof. apply (exec_keeps handle (λ w, wf_fs (fs w))). intros. by apply handle_wf. Qed.

(** No call takes a document from the cluster or an entry from the log. *)
Lemma handle_cluster {T} (o : Op T) w :
  cluster w `prefix_of` cluster (handle T o w).2.
Proof.
  destruct o; cbn [handle prod_map fst snd];
    rw /do_mkdir_all /do_chdir /do_stdin_pipe /do_start /do_write /do_close
       /do_wait /do_fetch /do_get /do_update /do_command /do_die;
    repeat case_match; cbn [fst snd id]; try done;
    try (etrans; [|apply cluster_settle]); by destruct w.
Qed.

Lemma handle_logs {T} (o : Op T) w : logs w `prefix_of` logs (handle T o w).2.
Proof.
  destruct o; cbn [handle prod_map fst snd];
    rw /do_mkdir_all /do_chdir /do_stdin_pipe /do_start /do_write /do_close
       /do_wait /do_fetch /do_get /do_update /do_command /do_die /do_log;
    repeat case_match; cbn [fst snd id]; rw ?logs_settle; try done;
    destruct w; simpl; try done; apply prefix_app_same.
Qed.

Lemma exec_no_child {R} (p : prog R) w :
  calls_only no_child p →
  procs (final (exec handle p w)) = procs w
  ∧ cluster (final (exec handle p w)) = cluster w
  ∧ hung (final (exec handle p w)) = hung w.
Proof.
  intros Hp.
  apply (exec_invariant no_child handle
           (λ w', procs w' = procs w ∧ cluster w' = cluster w ∧ hung w' = hung w));
    [|done..].
  intros T o w1 Ho (<- & <- & <-). by apply handle_procs.
Qed.

(** Calls made aside leave the cluster alone and serialise nothing. *)
Lemma aside_run {R} (p : prog R) w :
  calls_only aside p →
  cluster (final (exec handle p w)) = cluster w
  ∧ marshalled (trace (exec handle p w)) = [].
Proof.
  intros Hp. split.
  - apply (exec_no_child p w). eapply calls_only_weaken; [|done]. by intros T o [].
  - eapply read_none; [|by apply exec_calls_only]. by intros T o [].
Qed.

Lemma exec_cluster {R} (p : prog R) w :
  cluster w `prefix_of` cluster (final (exec handle p w)).
Proof. apply (exec_respects handle (grows cluster)). intros. apply handle_cluster. Qed.

Lemma exec_logs {R} (p : prog R) w :
  logs w `prefix_of` logs (final (exec handle p w)).
Proof. apply (exec_respects handle (grows logs)). intros. apply handle_logs. Qed.
End invariant.
