(* ===== verification/Child.v ===== *)
(** * The life of a child process

    A child of the program is created by [exec.Command], may be given a
    pipe as its standard input before it is started, reads what is
    written to the pipe, and exits once it has been started and the pipe
    is closed.  [child_step] is one step of that life; the calls of the
    reference environment move every child along it, so what rule
    induction shows of [child_step] holds of the children of every run. *)

From stdpp Require Import gmap.
From S2P Require Import Prelude Paths Chart Prog World Invariant.

(** The child [exec.Command] makes. *)
Definition fresh (name : string) (args : list string) : Process :=
  MkProcess name args None false "" None None NotStarted.

Inductive child_step : Process → Process → Prop :=
| child_pipe p k :
    p_status p = NotStarted → p_pipe p = None → child_step p (with_pipe k p)
| child_stdout p s : child_step p (with_stdout s p)
| child_stderr p s : child_step p (with_stderr s p)
| child_start p :
    p_status p = NotStarted → child_step p (with_status Running p)
| child_write p data : p_open p = true → child_step p (with_input data p)
| child_close p : p_open p = true → child_step p (with_closed p)
| child_exit p code :
    at_eof p = true → child_step p (with_status (Exited code) p).

(** How far a child has come. *)
Definition phase (p : Process) : nat :=
  match p_status p with
  | NotStarted => 0
  | Running => 1
  | Exited _ => 2
  end.

Definition exited (p : Process) : Prop := ∃ code, p_status p = Exited code.

(** The write end of the pipe of a child that has exited is closed. *)
Definition child_ok (p : Process) : Prop := exited p → p_open p = false.

(** Every child of a table is in the other, further in its life. *)
Definition table_lives (ps ps' : list Process) : Prop :=
  ∀ c p, ps !! c = Some p → ∃ p', ps' !! c = Some p' ∧ rtc child_step p p'.

Section life.
Implicit Types (p : Process) (ps : list Process).

Lemma child_step_phase p p' : child_step p p' → phase p ≤ phase p'.
Proof.
  destruct 1 as [p k Hs|p s|p s|p Hs|p data|p|p code [Hs _]%andb_prop];
    rw /phase /=; try done; try (rw Hs; lia).
  apply bool_decide_eq_true in Hs. rw Hs. lia.
Qed.

Lemma child_step_name p p' :
  child_step p p' → p_name p' = p_name p ∧ p_args p' = p_args p.
Proof. by destruct 1. Qed.

Lemma child_step_ok p p' : child_ok p → child_step p p' → child_ok p'.
Proof.
  rw /child_ok /exited.
  intros Hok. destruct 1 as [p k Hs|p s|p s|p Hs|p data Ho|p|p code [_ Ho]%andb_prop];
    simpl; try done.
  - rw Hs. by intros [? [=]].
  - by intros [? [=]].
  - by intros _; apply negb_true_iff in Ho.
Qed.

(** A child that has exited stays as it is but for where its output
    goes. *)
Lemma child_step_exited p p' code :
  child_ok p → p_status p = Exited code → child_step p p' →
  p_status p' = Exited code ∧ p_stdin p' = p_stdin p.
Proof.
  intros Hok Hs. assert (p_open p = false) as Ho by (apply Hok; by exists code).
  destruct 1 as [p k Hs'|p s|p s|p Hs'|p data Ho'|p Ho'|p code' [Hr _]%andb_prop];
    try done; try congruence.
  apply bool_decide_eq_true in Hr. congruence.
Qed.

Lemma lives_phase p p' : rtc child_step p p' → phase p ≤ phase p'.
Proof.
  induction 1 as [|p p1 p2 Hs _ IH]; [done|].
  etrans; [by apply child_step_phase|done].
Qed.

Lemma lives_ok p p' : child_ok p → rtc child_step p p' → child_ok p'.
Proof. intros Hok. induction 1; eauto using child_step_ok. Qed.

Lemma lives_exited p p' code :
  child_ok p → p_status p = Exited code → rtc child_step p p' →
  p_status p' = Exited code ∧ p_stdin p' = p_stdin p.
Proof.
  intros Hok Hs. induction 1 as [|p p1 p2 Hstep _ IH]; [done|].
  destruct (child_step_exited p p1 code Hok Hs Hstep) as [Hs1 Hin1].
  destruct IH as [? ?]; [by eapply child_step_ok|done|]. split; congruence.
Qed.

#[export] Instance table_lives_preorder : PreOrder table_lives.
Proof.
  split; [intros ps c p Hp; by exists p|].
  intros ps1 ps2 ps3 H12 H23 c p Hp.
  destruct (H12 c p Hp) as (p2 & Hp2 & Hl2).
  destruct (H23 c p2 Hp2) as (p3 & Hp3 & Hl3).
  exists p3. split; [done|by etrans].
Qed.

Lemma table_lives_new ps p : table_lives ps (ps ++ [p]).
Proof. intros c q Hq. exists q. split; [by apply lookup_app_l_Some|apply rtc_refl]. Qed.

Lemma table_lives_alter (f : Process → Process) c0 ps :
  (∀ p, ps !! c0 = Some p → child_step p (f p)) →
  table_lives ps (alter f c0 ps).
Proof.
  intros Hf c p Hp. destruct (decide (c = c0)) as [->|Hne].
  - exists (f p). split; [by rw list_lookup_alter decide_True // Hp|].
    by apply rtc_once, Hf.
  - exists p. split; [by rw list_lookup_alter_ne|apply rtc_refl].
Qed.
End life.

(** ** The calls move the children along their life *)

Definition procs_live : relation World :=
  λ w1 w2, table_lives (procs w1) (procs w2).

#[export] Instance procs_live_preorder : PreOrder procs_live.
Proof.
  split; [intros w; by rw /procs_live|].
  intros w1 w2 w3 H12 H23. rw /procs_live. by etrans.
Qed.

Section calls.
Context `{Layout, Collaborators}.
Implicit Types (w : World).

Lemma settle_lives c w : table_lives (procs w) (procs (settle c w)).
Proof.
  rw /settle. destruct (procs w !! c) as [p|] eqn:Hp; [|done].
  destruct (at_eof p) eqn:He; [|done].
  destruct (child_run p (cluster w)) as [docs code]. destruct w; simpl in *.
  apply table_lives_alter. intros q Hq. rw Hp in Hq. injection Hq as <-.
  by constructor.
Qed.

Ltac same_child :=
  match goal with
  | H1 : ?ps !! ?c = Some ?p, H2 : ?ps !! ?c = Some ?q |- _ =>
      rw H1 in H2; injection H2 as <-
  end.

Lemma handle_lives {T} (o : Op T) w :
  table_lives (procs w) (procs (handle T o w).2).
Proof.
  destruct (touches_procs o) eqn:Ho;
    [|by destruct (handle_procs o w Ho) as (-> & _)].
  destruct o; try done; cbn [handle prod_map fst snd];
    rw /do_command /do_stdin_pipe /do_start /do_write /do_close /do_wait;
    repeat case_match; cbn [fst snd id]; try done;
    try (etrans; [|apply settle_lives]); destruct w; simpl in *;
    try apply table_lives_new; try done; apply table_lives_alter;
    intros q Hq; try same_child; by constructor.
Qed.

(** The children of every run have lived by the rules. *)
Lemma exec_lives {R} (p : prog R) w :
  table_lives (procs w) (procs (final (exec handle p w))).
Proof.
  apply (exec_respects handle procs_live). intros. apply handle_lives.
Qed.
End calls.
