(* ===== verification/Deploy.v ===== *)
(** * What a deployment promises

    The abstract view of the ordered deployment: the cluster is a list of
    accepted documents, a deployment offers it the documents of the
    resources one after the other and stops at the first resource that
    cannot be serialised or that the cluster refuses.  [Upload] proves that
    [uploadManifests] implements [deploy]. *)

From S2P Require Import Prelude Paths Chart Prog World.

Section deploy.
Context `{Collaborators}.
Implicit Types (o : Resource) (os : list Resource) (d : bytes)
  (docs ds : list bytes) (err : error).

(** What the cluster holds after it is offered [d]. *)
Definition offer docs d : list bytes :=
  if admits docs d then docs ++ [d] else docs.

(** What [kubectl create] reports about [d]. *)
Definition verdict docs d : option error :=
  if admits docs d then None else Some (ExitError 1).

(** The cluster after the deployment of [os] and the error it stopped
    with. *)
Fixpoint deploy os docs : list bytes * option error :=
  match os with
  | [] => (docs, None)
  | o :: os' =>
      match marshal o "v1" with
      | Fail err => (docs, Some err)
      | Ok d =>
          if admits docs d then deploy os' (docs ++ [d])
          else (docs, Some (ExitError 1))
      end
  end.

(** [ds] are the documents of [os], resource by resource. *)
Definition documents os ds : Prop :=
  Forall2 (λ o d, marshal o "v1" = Ok d) os ds.

(** The cluster accepts [ds] one after the other, starting from [docs]. *)
Fixpoint accepts docs ds : Prop :=
  match ds with
  | [] => True
  | d :: ds' => admits docs d = true ∧ accepts (docs ++ [d]) ds'
  end.

(** The resource [o] cannot be applied to the cluster [docs]: it has no
    document, or the cluster refuses it. *)
Definition fails_with docs o err : Prop :=
  marshal o "v1" = Fail err ∨
  ∃ d, marshal o "v1" = Ok d ∧ admits docs d = false ∧ err = ExitError 1.

Lemma documents_inj os ds ds' : documents os ds → documents os ds' → ds = ds'.
Proof.
  intros Hd. revert ds'. induction Hd as [|o d os ds Ho _ IH]; intros ds' Hd'.
  - by inversion Hd'.
  - inversion Hd' as [|? d' ? ds'' Ho' Hd'']; subst. f_equal; [congruence|auto].
Qed.

Lemma deploy_app os1 os2 docs :
  deploy (os1 ++ os2) docs =
  match deploy os1 docs with
  | (docs1, None) => deploy os2 docs1
  | stopped => stopped
  end.
Proof.
  revert docs. induction os1 as [|o os1 IH]; intros docs; simpl.
  - by destruct (deploy os2 docs) as [? []].
  - destruct (marshal o "v1") as [d|err]; [|done].
    by destruct (admits docs d).
Qed.

(** The deployment as a relation: from the cluster [docs], the resources
    [os] lead to the cluster [docs'] and the error [e]. *)
Inductive deploys : list Resource → list bytes → list bytes → option error → Prop :=
| deploys_nil docs :
    deploys [] docs docs None
| deploys_fail o os docs err :
    fails_with docs o err → deploys (o :: os) docs docs (Some err)
| deploys_step o d os docs docs' e :
    marshal o "v1" = Ok d → admits docs d = true →
    deploys os (docs ++ [d]) docs' e → deploys (o :: os) docs docs' e.

Lemma deploy_deploys os docs :
  deploys os docs (deploy os docs).1 (deploy os docs).2.
Proof.
  revert docs. induction os as [|o os IH]; intros docs; simpl; [constructor|].
  destruct (marshal o "v1") as [d|err] eqn:Ho; [|by constructor; left].
  destruct (admits docs d) eqn:Hadm; [by econstructor|].
  constructor. right. by exists d.
Qed.

(** A deployment that ends without error has offered the document of every
    resource, in order, and the cluster has accepted each. *)
Lemma deploys_complete os docs docs' :
  deploys os docs docs' None →
  ∃ ds, documents os ds ∧ accepts docs ds ∧ docs' = docs ++ ds.
Proof.
  intros Hd. remember None as e eqn:He.
  induction Hd as [docs| |o d os docs docs' e Ho Hadm _ IH]; [|done|].
  - exists []. by rw app_nil_r; split_and!; [constructor|..].
  - destruct (IH He) as (ds & Hds & Ha & ->). exists (d :: ds).
    rw -app_assoc. by split_and!; [constructor|..].
Qed.

(** A deployment that stops with an error has applied the resources before
    the failing one, in order, and nothing else. *)
Lemma deploys_stopped os docs docs' err :
  deploys os docs docs' (Some err) →
  ∃ n o ds, os !! n = Some o ∧ documents (take n os) ds ∧ accepts docs ds
            ∧ docs' = docs ++ ds ∧ fails_with docs' o err.
Proof.
  intros Hd. remember (Some err) as e eqn:He.
  induction Hd as [|o os docs err' Hf|o d os docs docs' e Ho Hadm _ IH]; [done|..].
  - injection He as ->. exists 0, o, []. rw app_nil_r.
    split_and!; [done|by constructor|done..].
  - destruct (IH He) as (n & o' & ds & Hn & Hds & Ha & -> & Hf).
    exists (S n), o', (d :: ds). rw -app_assoc in Hf |- *.
    split_and!; [done|by constructor|done..].
Qed.

(** Documents that the cluster accepts one after the other are all
    applied. *)
Lemma deploy_accepts os docs ds :
  documents os ds → accepts docs ds → deploy os docs = (docs ++ ds, None).
Proof.
  intros Hd. revert docs. induction Hd as [|o d os ds Ho _ IH]; intros docs.
  - by rw app_nil_r.
  - intros [Hadm Ha]. by rw /= Ho Hadm IH // -app_assoc.
Qed.

(** The cluster only grows, and by documents of the resources. *)
Lemma deploy_extends os docs : docs `prefix_of` (deploy os docs).1.
Proof.
  revert docs. induction os as [|o os IH]; intros docs; simpl; [done|].
  destruct (marshal o "v1") as [d|err]; [|done].
  destruct (admits docs d); [|done].
  etrans; [|apply IH]. apply prefix_app_same.
Qed.
End deploy.
