(* ===== verification/Kubectl.v ===== *)
(** * The cluster applier: [kubectlCreate] of [install.go]

    One child process per document: [kubectl create -f -] is given the
    document on its standard input, the input is closed and the exit of the
    child is awaited. *)

From stdpp Require Import gmap.
From S2P Require Import Prelude Paths Chart Prog World Child Deploy.

(** The arguments of the child, [a] in the source. *)
Definition kubectlArgs : list string := ["create"; "-f"; "-"].

Definition kubectlCreate (data : bytes) : prog (option error) :=
  let a := kubectlArgs in
  c ← call (ExecCommand "kubectl" a);
  stdin ←? call (CmdStdinPipe c);;
  call (CmdSetStdout c OsStdout);;
  call (CmdSetStderr c OsStderr);;
  check! call (CmdStart c);;
  call (LogInfo "File: %s" [data]);;
  call (PipeWrite stdin data);;
  call (PipeClose stdin);;
  call (CmdWait c).

(** ** In every environment *)

(** The calls [kubectlCreate] can make: the process calls and one line of
    log. *)
Definition kubectl_op : op_pred := λ T o,
  match o with
  | ExecCommand _ _ | CmdStdinPipe _ | CmdSetStdout _ _ | CmdSetStderr _ _
  | CmdStart _ | CmdWait _ | PipeWrite _ _ | PipeClose _ | LogInfo _ _ => True
  | _ => False
  end.

(** The two calls that deliver the document to the child. *)
Definition delivery : op_pred := λ T o,
  match o with
  | PipeWrite _ _ | PipeClose _ => True
  | _ => False
  end.

(** An environment in which the delivery is reported as failed: [Write]
    and [Close] answer with an error, whatever they did. *)
Definition misreport {W} (h : handler W) : handler W := λ T o,
  match o in Op T return W → option T * W with
  | PipeWrite k d => λ w,
      ((λ _, Fail ErrClosed) <$> (h _ (PipeWrite k d) w).1,
       (h _ (PipeWrite k d) w).2)
  | PipeClose k => λ w,
      ((λ _, Some ErrClosed) <$> (h _ (PipeClose k) w).1,
       (h _ (PipeClose k) w).2)
  | o' => h _ o'
  end.

Lemma kubectlCreate_calls data : calls_only kubectl_op (kubectlCreate data).
Proof.
  rw /kubectlCreate. solve_calls.
Qed.

(** The calls of a run of [kubectlCreate] that went through, for the
    command [c] and the pipe [k] the environment answered. *)
Definition kubectl_calls (c : cmd) (k : pipe) (data : bytes) : list anyop :=
  [ AnyOp (ExecCommand "kubectl" ["create"; "-f"; "-"]);
    AnyOp (CmdStdinPipe c);
    AnyOp (CmdSetStdout c OsStdout);
    AnyOp (CmdSetStderr c OsStderr);
    AnyOp (CmdStart c);
    AnyOp (LogInfo "File: %s" [data]);
    AnyOp (PipeWrite k data);
    AnyOp (PipeClose k);
    AnyOp (CmdWait c) ].

Section any_handler.
Context {W : Type} (h : handler W).
Implicit Types (w : W) (data : bytes).

(** Case analysis on the answers of the handler along a run. *)
Ltac answers :=
  repeat (simpl;
    match goal with
    | |- context [h ?T ?o ?w] => destruct (h T o w) as [[?|] ?]
    | |- context [match ?x with Ok _ => _ | Fail _ => _ end] => destruct x
    | |- context [match ?x with Some _ => _ | None => _ end] => destruct x
    end).

(** C5: in every environment, when [kubectlCreate] returns [nil] it has
    made exactly the nine calls of the source in their order: the command
    is [kubectl create -f -], the document is written to the pipe that
    [StdinPipe] answered, after [Start], and the pipe is closed before
    [Wait].  The command [c] of these calls is the one [exec.Command]
    answered, and the pipe [k] the one [StdinPipe] answered for it. *)
Theorem kubectlCreate_protocol w data :
  let tr := trace (exec h (kubectlCreate data) w) in
  returned (exec h (kubectlCreate data) w) = Some None →
  ∃ c k, calls tr = kubectl_calls c k data
         ∧ tr !! 0 = Some (Ev (ExecCommand "kubectl" kubectlArgs) (Some c))
         ∧ tr !! 1 = Some (Ev (CmdStdinPipe c) (Some (Ok k))).
Proof.
  rw /kubectlCreate /try_then /and_then /=. answers; try done.
  intros _. by eexists _, _.
Qed.

(** The document is written at most once, and only if [Start] succeeded. *)
Lemma kubectlCreate_written w data :
  written (trace (exec h (kubectlCreate data) w)) `prefix_of` [data].
Proof.
  rw /kubectlCreate /try_then /and_then /=.
  answers; simpl; auto using prefix_nil with helm.
Qed.

Lemma kubectlCreate_marshalled w data :
  marshalled (trace (exec h (kubectlCreate data) w)) = [].
Proof.
  eapply read_none; [|apply exec_calls_only, kubectlCreate_calls].
  by intros T [].
Qed.

Lemma kubectlCreate_produced w data :
  produced (trace (exec h (kubectlCreate data) w)) = [].
Proof.
  eapply produced_none; [|apply exec_calls_only, kubectlCreate_calls].
  by intros T [].
Qed.

(** A run of [kubectlCreate] makes nine calls at most, and the only
    command it creates is [kubectl create -f -]. *)
Lemma kubectlCreate_bounded w data :
  length (trace (exec h (kubectlCreate data) w)) ≤ 9
  ∧ commands (trace (exec h (kubectlCreate data) w)) = [("kubectl", kubectlArgs)].
Proof.
  rw /kubectlCreate /try_then /and_then /=. answers; simpl; split; (lia || done).
Qed.

(** [kubectlCreate] goes on in the same way whatever [Write] and [Close]
    answer. *)
Lemma kubectlCreate_ignores data : ignores delivery (kubectlCreate data).
Proof.
  rw /kubectlCreate /try_then /and_then.
  repeat first [ by constructor | constructor; [by intros []|intros ?]
               | constructor; [done|intros ?] | case_goal ].
Qed.

Lemma misreport_differs : differ_on delivery h (misreport h).
Proof.
  intros T o w. destruct o; (split; [done|]); try (by left);
    simpl; destruct (h _ _ w).1; (by left) || (right; by eauto).
Qed.

(** C29: [kubectlCreate] does not look at what [Write] and [Close]
    answer: in two environments that change the world alike and differ
    only in their answers to these two calls, it makes the same calls,
    leaves the same world and returns the same result.  A failed delivery
    is therefore never reported: the result is what [Wait] says of the
    child, whatever became of the document. *)
Theorem kubectlCreate_unchecked (h' : handler W) w data :
  differ_on delivery h h' →
  let r := exec h (kubectlCreate data) w in
  let r' := exec h' (kubectlCreate data) w in
  returned r' = returned r ∧ final r' = final r
  ∧ calls (trace r') = calls (trace r).
Proof. intros Hd. by apply (exec_ignores delivery), kubectlCreate_ignores. Qed.

(** When [kubectlCreate] returns [nil] the document was written. *)
Lemma kubectlCreate_nil_written w data :
  returned (exec h (kubectlCreate data) w) = Some None →
  written (trace (exec h (kubectlCreate data) w)) = [data].
Proof.
  rw /kubectlCreate /try_then /and_then /=. by answers.
Qed.
End any_handler.

(** ** In the reference environment *)

(** The child [kubectlCreate] leaves behind: it has run to its exit with
    the document as its input. *)
Definition kubectl_child (k : pipe) (data : bytes) (code : nat) : Process :=
  MkProcess "kubectl" kubectlArgs (Some k) false data (Some OsStdout)
    (Some OsStderr) (Exited code).

(** The child when [kubectl] is not on the search path: never started. *)
Definition kubectl_unstarted (k : pipe) : Process :=
  MkProcess "kubectl" kubectlArgs (Some k) true "" (Some OsStdout)
    (Some OsStderr) NotStarted.

(** The child of [kubectlCreate] has lived by the rules: it was given its
    pipe and its output streams, started, fed the document, its input was
    closed and it exited. *)
Lemma kubectl_child_lives k data code :
  rtc child_step (fresh "kubectl" kubectlArgs) (kubectl_child k data code).
Proof.
  rw (eq_refl : kubectl_child k data code
     = with_status (Exited code) (with_closed (with_input data
         (with_status Running (with_stderr OsStderr (with_stdout OsStdout
            (with_pipe k (fresh "kubectl" kubectlArgs)))))))).
  eapply rtc_l; [by apply (child_pipe _ k)|].
  eapply rtc_l; [apply (child_stdout _ OsStdout)|].
  eapply rtc_l; [apply (child_stderr _ OsStderr)|].
  eapply rtc_l; [by apply child_start|].
  eapply rtc_l; [by apply (child_write _ data)|].
  eapply rtc_l; [by apply child_close|].
  eapply rtc_once. by apply (child_exit _ code).
Qed.

Section reference.
Context `{Layout, Collaborators}.
Implicit Types (w : World) (data : bytes).

(** The world after [kubectlCreate data] when [kubectl] is installed. *)
Definition applied (data : bytes) (w : World) : World :=
  add_log (MkLog Info "File: %s" [data])
    (set_cluster (λ docs, offer docs data)
       (set_procs
          (λ ps, ps ++ [kubectl_child (length ps) data
                          (if admits (cluster w) data then 0 else 1)])
          w)).

Lemma kubectlCreate_run w data :
  is_Some (search_path w !! "kubectl") →
  returned (exec handle (kubectlCreate data) w) = Some (verdict (cluster w) data)
  ∧ final (exec handle (kubectlCreate data) w) = applied data w.
Proof.
  intros [pth Hp]. destruct w. simpl in Hp.
  rw /kubectlCreate /try_then /and_then /applied /verdict /offer.
  run_world. rw Hp. run_world.
  rw /child_run /=. by destruct (admits _ _); run_world.
Qed.

Lemma procs_applied w data :
  procs (applied data w)
  = procs w ++ [kubectl_child (length (procs w)) data
                  (if admits (cluster w) data then 0 else 1)].
Proof. by destruct w. Qed.

Lemma cluster_applied w data :
  cluster (applied data w) = offer (cluster w) data.
Proof. by destruct w. Qed.

Lemma static_applied w data : static (applied data w) = static w.
Proof. by destruct w. Qed.

Lemma search_path_applied w data :
  search_path (applied data w) = search_path w.
Proof. by destruct w. Qed.

Lemma kubectlCreate_run_missing w data :
  search_path w !! "kubectl" = None →
  returned (exec handle (kubectlCreate data) w) = Some (Some ErrNotFound)
  ∧ final (exec handle (kubectlCreate data) w) =
      set_procs (λ ps, ps ++ [kubectl_unstarted (length ps)]) w.
Proof.
  intros Hp. destruct w. simpl in Hp.
  rw /kubectlCreate /try_then /and_then. run_world. rw Hp. by run_world.
Qed.

(** With [kubectl] or without, [kubectlCreate] adds the document and
    returns [nil], or adds nothing and returns an error. *)
Lemma kubectlCreate_outcome w data :
  let r := exec handle (kubectlCreate data) w in
  (returned r = Some None ∧ cluster (final r) = cluster w ++ [data])
  ∨ (∃ err, returned r = Some (Some err) ∧ cluster (final r) = cluster w).
Proof.
  cbv zeta. destruct (search_path w !! "kubectl") as [pth|] eqn:Hk.
  - destruct (kubectlCreate_run w data) as [-> ->]; [by rw Hk|].
    rw cluster_applied /verdict /offer. destruct (admits _ _); eauto.
  - destruct (kubectlCreate_run_missing w data Hk) as [-> ->]. right.
    eexists. by destruct w.
Qed.

(** C3: with [kubectl] on the search path, [kubectlCreate] returns [nil]
    and the cluster holds the document as its newest one when the cluster
    accepts it; otherwise it returns the exit status of the child and the
    cluster is as before. *)
Theorem kubectlCreate_applies w data :
  is_Some (search_path w !! "kubectl") →
  let r := exec handle (kubectlCreate data) w in
  returned r = Some (verdict (cluster w) data)
  ∧ cluster (final r) = offer (cluster w) data.
Proof.
  intros Hp. cbv zeta. destruct (kubectlCreate_run w data Hp) as [-> ->].
  by destruct w.
Qed.

(** C7: without [kubectl] on the search path, [kubectlCreate] returns the
    error of [Start]; nothing is written to the child and the cluster is
    as before. *)
Theorem kubectlCreate_missing w data :
  search_path w !! "kubectl" = None →
  let r := exec handle (kubectlCreate data) w in
  returned r = Some (Some ErrNotFound)
  ∧ cluster (final r) = cluster w
  ∧ written (trace r) = [].
Proof.
  intros Hp. cbv zeta.
  destruct (kubectlCreate_run_missing w data Hp) as [Hr Hf].
  split_and!; [done|by rw Hf; destruct w|].
  destruct w. simpl in Hp. rw /kubectlCreate /try_then /and_then.
  run_world. rw Hp. by run_world.
Qed.

(** C8: [kubectlCreate] always comes back: the process does not end inside
    it and it does not wait for a child that waits for its input. *)
Theorem kubectlCreate_returns w data :
  let r := exec handle (kubectlCreate data) w in
  is_Some (returned r) ∧ hung (final r) = hung w.
Proof.
  cbv zeta. destruct (search_path w !! "kubectl") as [pth|] eqn:Hp.
  - destruct (kubectlCreate_run w data) as [-> ->]; [by rw Hp|]. by destruct w.
  - destruct (kubectlCreate_run_missing w data Hp) as [-> ->]. by destruct w.
Qed.

(** C35: with [kubectl] on the search path, [kubectlCreate] leaves
    exactly one new child and touches no other: the child was created as
    [kubectl create -f -], has gone through its whole life, has read the
    document and nothing else, and has exited with its input closed. *)
Theorem kubectlCreate_child w data :
  is_Some (search_path w !! "kubectl") →
  let r := exec handle (kubectlCreate data) w in
  ∃ p, procs (final r) = procs w ++ [p]
       ∧ rtc child_step (fresh "kubectl" kubectlArgs) p
       ∧ exited p ∧ p_stdin p = data ∧ p_open p = false.
Proof.
  intros Hk. cbv zeta. destruct (kubectlCreate_run w data Hk) as [_ ->].
  eexists. split; [apply procs_applied|].
  split_and!; [apply kubectl_child_lives|by eexists|done..].
Qed.
End reference.

(** ** The sample environment *)

Section sample.
#[local] Existing Instances Sample.layout Sample.collaborators.

Example kubectlCreate_sample :
  let r := exec handle (kubectlCreate "doc") Sample.world in
  returned r = Some None
  ∧ cluster (final r) = ["doc"]
  ∧ procs (final r) = [kubectl_child 0 "doc" 0]
  ∧ written (trace r) = ["doc"].
Proof. by vm_compute. Qed.

(** The cluster of the sample refuses a document it holds. *)
Example kubectlCreate_sample_twice :
  let r := exec handle (kubectlCreate "doc" ;; kubectlCreate "doc") Sample.world in
  returned r = Some (Some (Err "exit status 1")) ∧ cluster (final r) = ["doc"].
Proof. by vm_compute. Qed.

(** A pipe that breaks: [Write] fails and delivers nothing.  The child
    reads an empty input, the cluster takes it, and [kubectlCreate] returns
    [nil]. *)
Definition broken_pipe : handler World := λ T o,
  match o in Op T return World → option T * World with
  | PipeWrite k d => λ w, (Some (Fail ErrClosed), w)
  | o' => handle _ o'
  end.

Example kubectlCreate_broken_pipe :
  let r := exec broken_pipe (kubectlCreate "doc") Sample.world in
  returned r = Some None ∧ written (trace r) = ["doc"]
  ∧ cluster (final r) = [EmptyString].
Proof. by vm_compute. Qed.

(** The delivery reported as failed: [kubectlCreate] returns [nil] all the
    same. *)
Example kubectlCreate_misreported :
  let r := exec (misreport handle) (kubectlCreate "doc") Sample.world in
  returned r = Some None ∧ cluster (final r) = ["doc"]
  ∧ trace r !! 6 = Some (Ev (PipeWrite 0 "doc") (Some (Fail ErrClosed)))
  ∧ trace r !! 7 = Some (Ev (PipeClose 0) (Some (Some ErrClosed))).
Proof. by vm_compute. Qed.

Lemma kubectlCreate_unchecked_witness :
  let r := exec handle (kubectlCreate "doc") Sample.world in
  let r' := exec (misreport handle) (kubectlCreate "doc") Sample.world in
  returned r' = returned r ∧ final r' = final r
  ∧ calls (trace r') = calls (trace r).
Proof.
  apply (kubectlCreate_unchecked handle (misreport handle) Sample.world "doc"),
    misreport_differs.
Defined.

Lemma kubectlCreate_protocol_witness :
  let tr := trace (exec handle (kubectlCreate "doc") Sample.world) in
  ∃ c k, calls tr = kubectl_calls c k "doc"
         ∧ tr !! 0 = Some (Ev (ExecCommand "kubectl" kubectlArgs) (Some c))
         ∧ tr !! 1 = Some (Ev (CmdStdinPipe c) (Some (Ok k))).
Proof. apply (kubectlCreate_protocol handle Sample.world "doc"). by vm_compute. Defined.

Lemma kubectlCreate_applies_witness :
  let r := exec handle (kubectlCreate "doc") Sample.world in
  returned r = Some (verdict (cluster Sample.world) "doc")
  ∧ cluster (final r) = offer (cluster Sample.world) "doc".
Proof. apply (kubectlCreate_applies Sample.world "doc"). by eexists. Defined.

Lemma kubectlCreate_missing_witness :
  let w := set_cwd [] (MkWorld ∅ [] ∅ [] ["held"] ∅ ∅ ∅ ∅ [] false) in
  let r := exec handle (kubectlCreate "doc") w in
  returned r = Some (Some ErrNotFound)
  ∧ cluster (final r) = cluster w
  ∧ written (trace r) = [].
Proof. intros w. apply (kubectlCreate_missing w "doc"). by vm_compute. Defined.

Lemma kubectlCreate_child_witness :
  let r := exec handle (kubectlCreate "doc") Sample.world in
  ∃ p, procs (final r) = procs Sample.world ++ [p]
       ∧ rtc child_step (fresh "kubectl" kubectlArgs) p
       ∧ exited p ∧ p_stdin p = "doc" ∧ p_open p = false.
Proof. apply (kubectlCreate_child Sample.world "doc"). by eexists. Defined.
End sample.

Arguments kubectlCreate : simpl never.
