(* ===== verification/Upload.v ===== *)
(** * The ordered deployment driver: [uploadManifests] of [install.go]

    Six loops, one per category, in the order of the source.  Each loop
    serialises a resource for version [v1], hands the document to
    [kubectlCreate] and returns at the first error. *)

From stdpp Require Import gmap.
From S2P Require Import Prelude Paths Chart Prog World Invariant Child Deploy.
From S2P Require Import Kubectl.

(** One [for _, o := range ...] loop of [uploadManifests].  The result is the
    error the loop returns with, [None] when it runs to its end. *)
Fixpoint uploadLoop (os : list Resource) : prog (option error) :=
  match os with
  | [] => mret None
  | o :: os' =>
      b ←? call (ManifestMarshalJSON o "v1");;
      check! kubectlCreate b;;
      uploadLoop os'
  end.

Definition uploadManifests (c : Chart) : prog (option error) :=
  check! uploadLoop (Namespaces c);;
  check! uploadLoop (Secrets c);;
  check! uploadLoop (PersistentVolumes c);;
  check! uploadLoop (Services c);;
  check! uploadLoop (Pods c);;
  check! uploadLoop (ReplicationControllers c);;
  mret None.

Lemma uploadLoop_cons (o : Resource) (os : list Resource) :
  uploadLoop (o :: os) =
  (b ←? call (ManifestMarshalJSON o "v1");;
   check! kubectlCreate b;;
   uploadLoop os).
Proof. done. Qed.

(** The calls [uploadManifests] can make: the serialiser and the calls of
    [kubectlCreate]. *)
Definition upload_op : op_pred := λ T o,
  match o with
  | ManifestMarshalJSON _ _ => True
  | _ => kubectl_op T o
  end.

Lemma uploadLoop_calls (os : list Resource) : calls_only upload_op (uploadLoop os).
Proof.
  induction os as [|o os IH]; [constructor|].
  rw uploadLoop_cons.
  solve_calls_with
    ltac:(eapply calls_only_weaken; [|apply kubectlCreate_calls]; by intros ? []).
Qed.

Lemma uploadManifests_calls (c : Chart) :
  calls_only upload_op (uploadManifests c).
Proof.
  rw /uploadManifests. solve_calls_with ltac:(apply uploadLoop_calls).
Qed.

(** ** One loop after another is one loop *)

Lemma uploadLoop_app (l1 l2 : list Resource) :
  uploadLoop (l1 ++ l2) ≡ (check! uploadLoop l1;; uploadLoop l2).
Proof.
  induction l1 as [|o l1 IH]; simpl; [done|].
  rw try_then_and_then. apply try_then_proper; [done|]. intros b.
  rw and_then_assoc. by apply and_then_proper.
Qed.

(** The loops over a list of sequences, one after the other, are the loop
    over the sequences joined. *)
Lemma uploadLoop_concat (ls : list (list Resource)) :
  foldr (λ os k, check! uploadLoop os;; k)%go (mret None) ls
  ≡ uploadLoop (concat ls).
Proof.
  induction ls as [|os ls IH]; simpl; [done|].
  rw uploadLoop_app. by apply and_then_proper.
Qed.

(** A run of [uploadManifests] is the run of the single loop. *)
Lemma exec_uploadManifests {W} (h : handler W) (c : Chart) w :
  exec h (uploadManifests c) w = exec h (uploadLoop (manifests c)) w.
Proof.
  rw /manifests -(app_nil_r (ReplicationControllers c)).
  apply (uploadLoop_concat [_; _; _; _; _; _]).
Qed.

(** C1: [uploadManifests] is the single loop over the manifests of the chart
    in the order namespaces, secrets, persistent volumes, services, pods,
    replication controllers: no environment tells the two apart. *)
Theorem uploadManifests_single_loop (c : Chart) :
  uploadManifests c ≡ uploadLoop (manifests c).
Proof. intros W h w. apply exec_uploadManifests. Qed.

(** ** In every environment *)

Section any_handler.
Context {W : Type} (h : handler W).
Implicit Types (w : W) (os : list Resource).

(** What a run of the driver over [os] looks like from outside: the
    resources serialised are the first of [os] in their order, the
    documents written to [kubectl] are the first of the documents produced
    in their order, and a run that returns [nil] has serialised every
    resource and written every document. *)
Definition in_order os (r : run W (option error)) : Prop :=
  marshalled (trace r) `prefix_of` os
  ∧ written (trace r) `prefix_of` produced (trace r)
  ∧ (returned r = Some None →
     marshalled (trace r) = os ∧ written (trace r) = produced (trace r)).

Lemma in_order_stop o os (r : run W (option error)) :
  marshalled (trace r) = [o] → written (trace r) `prefix_of` produced (trace r) →
  returned r ≠ Some None → in_order (o :: os) r.
Proof.
  intros Hm Hw Hr. split_and!; [|done..]. rw Hm. apply prefix_cons, prefix_nil.
Qed.

Lemma uploadLoop_in_order os w : in_order os (exec h (uploadLoop os) w).
Proof.
  revert w. induction os as [|o os IH]; intros w; [by split_and!|].
  rw uploadLoop_cons exec_try_call.
  destruct (h _ _ w) as [[[d|err]|] w1]; [|by apply in_order_stop..].
  rw exec_and_then /then_run.
  pose proof (kubectlCreate_marshalled h w1 d) as Hm.
  pose proof (kubectlCreate_produced h w1 d) as Hp.
  pose proof (kubectlCreate_written h w1 d) as Hw.
  pose proof (kubectlCreate_nil_written h w1 d) as Hn.
  destruct (exec h (kubectlCreate d) w1) as [[[err|]|] w2 tr]; simpl in *.
  - apply in_order_stop; autorewrite with helm; simpl; rw ?Hm ?Hp ?app_nil_r //.
  - destruct (IH w2) as (IHm & IHw & IHr).
    split_and!; autorewrite with helm; simpl; rw ?Hm ?Hp ?(Hn eq_refl) /=.
    + by apply prefix_cons.
    + by apply prefix_cons.
    + by intros [-> ->]%IHr.
  - apply in_order_stop; autorewrite with helm; simpl; rw ?Hm ?Hp ?app_nil_r //.
Qed.

(** C2: in every environment, [uploadManifests] serialises the manifests
    of the chart in the order namespaces, secrets, persistent volumes,
    services, pods, replication controllers and stops at the first failure:
    the resources serialised are a prefix of that order, each document
    written to [kubectl] is the document produced for its resource, and a
    run that returns [nil] has gone through the whole chart. *)
Theorem uploadManifests_in_order (c : Chart) w :
  in_order (manifests c) (exec h (uploadManifests c) w).
Proof. rw exec_uploadManifests. apply uploadLoop_in_order. Qed.

(** The size of a run over [os]: ten calls for each resource at most, and
    one command for each at most, always [kubectl create -f -]. *)
Definition bounded os (tr : list event) : Prop :=
  length tr ≤ 10 * length os
  ∧ length (commands tr) ≤ length os
  ∧ Forall (λ c, c = ("kubectl", kubectlArgs)) (commands tr).

Lemma bounded_empty os : bounded os [].
Proof. split_and!; [simpl; lia..|constructor]. Qed.

Lemma bounded_nil o os (e : event) :
  commands [e] = [] → bounded (o :: os) [e].
Proof. intros He. rw /bounded He /=. split_and!; [lia..|constructor]. Qed.

Lemma bounded_cons o os (e : event) tr1 tr2 :
  commands [e] = [] → length tr1 ≤ 9 →
  commands tr1 = [("kubectl", kubectlArgs)] → bounded os tr2 →
  bounded (o :: os) (e :: tr1 ++ tr2).
Proof.
  intros He Hl Hc (Hl2 & Hc2 & Hk). rw /bounded.
  rw (commands_app [e] (tr1 ++ tr2)) commands_app He Hc /= length_app.
  split_and!; [lia..|by constructor].
Qed.

Lemma uploadLoop_bounded os w : bounded os (trace (exec h (uploadLoop os) w)).
Proof.
  revert w. induction os as [|o os IH]; intros w; [apply bounded_empty|].
  rw uploadLoop_cons exec_try_call.
  destruct (h _ _ w) as [[[d|err]|] w1]; [|by apply bounded_nil..].
  rw exec_and_then /then_run.
  destruct (kubectlCreate_bounded h w1 d) as [Hl Hc].
  destruct (exec h (kubectlCreate d) w1) as [[[err|]|] w2 tr]; simpl in *.
  - apply bounded_cons; [done..|apply bounded_empty].
  - by apply bounded_cons.
  - rw -(app_nil_r tr). apply bounded_cons; [done..|apply bounded_empty].
Qed.

(** C40: in every environment, a run of [uploadManifests] is bounded by
    the chart: it makes at most ten calls for each manifest, it creates at
    most one child for each manifest, and every child it creates is
    [kubectl create -f -]. *)
Theorem uploadManifests_bounded (c : Chart) w :
  bounded (manifests c) (trace (exec h (uploadManifests c) w)).
Proof. rw exec_uploadManifests. apply uploadLoop_bounded. Qed.
End any_handler.

(** ** In the reference environment *)

Section reference.
Context `{Layout, Collaborators}.
Implicit Types (w : World) (os : list Resource) (c : Chart).

Lemma uploadLoop_run os w :
  is_Some (search_path w !! "kubectl") →
  returned (exec handle (uploadLoop os) w) = Some (deploy os (cluster w)).2
  ∧ cluster (final (exec handle (uploadLoop os) w)) = (deploy os (cluster w)).1
  ∧ static (final (exec handle (uploadLoop os) w)) = static w.
Proof.
  revert w. induction os as [|o os IH]; intros w Hk; [done|].
  rw uploadLoop_cons exec_try_call. cbn [handle deploy].
  destruct (marshal o "v1") as [d|err]; [|done].
  destruct (kubectlCreate_run w d Hk) as [Hr Hf].
  rw exec_and_then /then_run Hr Hf /verdict.
  destruct (admits (cluster w) d) eqn:Hadm; cbn [returned final trace after].
  2: { rw exec_Ret. cbn [returned final fst snd].
       by rw cluster_applied /offer Hadm static_applied. }
  destruct (IH (applied d w)) as (-> & -> & ->); [by rw search_path_applied|].
  by rw cluster_applied /offer Hadm static_applied.
Qed.

(** C4: with [kubectl] on the search path, [uploadManifests] implements
    [deploy]: it returns the error [deploy] stops with, and leaves the
    cluster that [deploy] computes from the manifests of the chart; the file
    system, the working directory and the clones are left alone. *)
Theorem uploadManifests_refines_deploy c w :
  is_Some (search_path w !! "kubectl") →
  let r := exec handle (uploadManifests c) w in
  returned r = Some (deploy (manifests c) (cluster w)).2
  ∧ cluster (final r) = (deploy (manifests c) (cluster w)).1
  ∧ static (final r) = static w.
Proof. intros Hk. rw /= exec_uploadManifests. by apply uploadLoop_run. Qed.

(** C6: with [kubectl] on the search path, when every manifest of the chart
    has a document and the cluster accepts the documents one after the
    other, [uploadManifests] returns [nil] and the cluster holds, after what
    it held, the documents of the namespaces, secrets, persistent volumes,
    services, pods and replication controllers, in that order. *)
Theorem uploadManifests_success c w ds :
  is_Some (search_path w !! "kubectl") →
  documents (manifests c) ds → accepts (cluster w) ds →
  let r := exec handle (uploadManifests c) w in
  returned r = Some None ∧ cluster (final r) = cluster w ++ ds.
Proof.
  intros Hk Hd Ha. rw /= exec_uploadManifests.
  destruct (uploadLoop_run (manifests c) w Hk) as (-> & -> & _).
  by rw (deploy_accepts _ _ _ Hd Ha).
Qed.

(** C9: with [kubectl] on the search path, when [uploadManifests] returns
    an error, the manifests before the failing one have been applied, each
    once and in order, the failing one is the first that has no document or
    that the cluster refuses, and nothing after it has been applied. *)
Theorem uploadManifests_fail_fast c w err :
  is_Some (search_path w !! "kubectl") →
  let r := exec handle (uploadManifests c) w in
  returned r = Some (Some err) →
  ∃ n o ds, manifests c !! n = Some o
    ∧ documents (take n (manifests c)) ds ∧ accepts (cluster w) ds
    ∧ cluster (final r) = cluster w ++ ds
    ∧ fails_with (cluster (final r)) o err.
Proof.
  intros Hk. rw /= exec_uploadManifests.
  destruct (uploadLoop_run (manifests c) w Hk) as (-> & -> & _).
  intros [= He]. apply deploys_stopped. rw -He. apply deploy_deploys.
Qed.

Lemma uploadLoop_run_missing os w :
  search_path w !! "kubectl" = None →
  is_Some (returned (exec handle (uploadLoop os) w))
  ∧ cluster (final (exec handle (uploadLoop os) w)) = cluster w
  ∧ hung (final (exec handle (uploadLoop os) w)) = hung w.
Proof.
  intros Hk. destruct os as [|o os]; [done|].
  rw uploadLoop_cons exec_try_call. cbn [handle].
  destruct (marshal o "v1") as [d|err]; [|done].
  destruct (kubectlCreate_run_missing w d Hk) as [Hr Hf].
  rw exec_and_then /then_run Hr Hf exec_Ret. by destruct w.
Qed.

(** C10: [uploadManifests] always comes back with [nil] or an error: the
    process does not end inside it, and it never waits for a child that
    waits for its input, whatever the chart and the environment hold. *)
Theorem uploadManifests_returns c w :
  let r := exec handle (uploadManifests c) w in
  is_Some (returned r) ∧ hung (final r) = hung w.
Proof.
  rw /= exec_uploadManifests.
  destruct (search_path w !! "kubectl") as [pth|] eqn:Hk.
  - destruct (uploadLoop_run (manifests c) w) as (-> & _ & Hs); [by rw Hk|].
    split; [done|]. by injection Hs.
  - by destruct (uploadLoop_run_missing (manifests c) w Hk) as (? & _ & ?).
Qed.

(** ** What a run adds to the cluster *)

(** The run [r] from [w] has added to the cluster the documents of the
    first resources it has serialised, in their order, and nothing
    else. *)
Definition adds {R} w (r : run World R) : Prop :=
  ∃ ds, cluster (final r) = cluster w ++ ds
        ∧ documents (take (length ds) (marshalled (trace r))) ds.

Lemma adds_nothing {R} w (r : run World R) :
  cluster (final r) = cluster w → adds w r.
Proof. intros Hc. exists []. rw app_nil_r. by split; [|constructor]. Qed.

(** What is done aside, before or after, adds nothing. *)
Lemma adds_after {A B} (p : prog A) (f : A → prog B) w :
  calls_only aside p → (∀ a w1, adds w1 (exec handle (f a) w1)) →
  adds w (exec handle (p ≫= f) w).
Proof.
  intros [Hc Hm]%(aside_run p w) Hf. rw exec_mbind /then_run.
  destruct (returned (exec handle p w)) as [a|]; [|by apply adds_nothing].
  destruct (Hf a (final (exec handle p w))) as (ds & Hds & Hd).
  exists ds. by rw final_after trace_after marshalled_app Hm Hds Hc.
Qed.

Lemma adds_before {A B} (p : prog A) (f : A → prog B) w :
  adds w (exec handle p w) → (∀ a, calls_only aside (f a)) →
  adds w (exec handle (p ≫= f) w).
Proof.
  intros (ds & Hds & Hd) Hf. rw exec_mbind /then_run.
  destruct (returned (exec handle p w)) as [a|]; [|by exists ds].
  destruct (aside_run (f a) (final (exec handle p w)) (Hf a)) as [Hc Hm].
  exists ds. by rw final_after trace_after marshalled_app Hm app_nil_r Hc.
Qed.

Lemma uploadLoop_adds os w : adds w (exec handle (uploadLoop os) w).
Proof.
  revert w. induction os as [|o os IH]; intros w; [by apply adds_nothing|].
  rw uploadLoop_cons exec_try_call. cbn [handle].
  destruct (marshal o "v1") as [d|err] eqn:Ho; [|by apply adds_nothing].
  rw exec_and_then /then_run.
  pose proof (kubectlCreate_marshalled handle w d) as Hm.
  destruct (kubectlCreate_outcome w d) as [[Hr Hc]|(err & Hr & Hc)]; rw Hr;
    [|by apply adds_nothing].
  destruct (IH (final (exec handle (kubectlCreate d) w))) as (ds & Hds & Hd).
  exists (d :: ds). autorewrite with helm. rw Hds Hc -app_assoc Hm /=.
  split; [done|]. by constructor.
Qed.

(** A child of the upload that is done: a [kubectl] that has exited, its
    input closed. *)
Definition kubectl_done (p : Process) : Prop :=
  exited p ∧ p_name p = "kubectl" ∧ p_open p = false.

Lemma uploadLoop_kids os w :
  is_Some (search_path w !! "kubectl") →
  ∃ kids, procs (final (exec handle (uploadLoop os) w)) = procs w ++ kids
          ∧ Forall kubectl_done kids ∧ length kids ≤ length os.
Proof.
  revert w. induction os as [|o os IH]; intros w Hk;
    [exists []; by rw app_nil_r|].
  rw uploadLoop_cons exec_try_call. cbn [handle].
  destruct (marshal o "v1") as [d|err];
    [|exists []; rw app_nil_r /=; split_and!; [done|constructor|lia]].
  destruct (kubectlCreate_run w d Hk) as [Hr Hf].
  rw exec_and_then /then_run Hr Hf /verdict.
  assert (kubectl_done (kubectl_child (length (procs w)) d
            (if admits (cluster w) d then 0 else 1))) as Hdone
    by (split_and!; [by eexists|done..]).
  destruct (admits (cluster w) d) eqn:Hadm; cbn [returned final trace after].
  2: { rw exec_Ret. cbn [returned final fst snd]. eexists [_].
       rw procs_applied Hadm. split_and!; [done|by constructor|simpl; lia]. }
  destruct (IH (applied d w)) as (kids & -> & Hkids & Hlen);
    [by rw search_path_applied|].
  eexists (_ :: kids). rw procs_applied Hadm -app_assoc.
  split_and!; [done|by constructor|simpl; lia].
Qed.

(** C36: with [kubectl] on the search path, [uploadManifests] leaves no
    child behind that still runs: the children it has created, at most
    one per manifest, are [kubectl] processes that have exited with their
    input closed, and the processes that were there are untouched. *)
Theorem uploadManifests_no_child_left c w :
  is_Some (search_path w !! "kubectl") →
  let r := exec handle (uploadManifests c) w in
  ∃ kids, procs (final r) = procs w ++ kids
          ∧ Forall kubectl_done kids ∧ length kids ≤ length (manifests c).
Proof. intros Hk. rw /= exec_uploadManifests. by apply uploadLoop_kids. Qed.
End reference.

(** ** The sample chart *)

Section sample.
#[local] Existing Instances Sample.layout Sample.collaborators.

Example upload_sample :
  let r := exec handle (uploadManifests Sample.chart) Sample.world in
  returned r = Some None
  ∧ cluster (final r) = Sample.documents
  ∧ marshalled (trace r) =
      [ Sample.ns "demo"; Sample.svc "web"; Sample.pod "web-1";
        Sample.pod "web-2" ].
Proof. by vm_compute. Qed.

(** A chart whose second pod cannot be serialised: the namespace, the
    service and the first pod are applied, the replication controller is
    not. *)
Example upload_sample_broken :
  let c := MkChart [Sample.ns "demo"] [] [] [Sample.svc "web"]
             [Sample.pod "web-1"; Sample.broken] [Sample.pod "rc"] in
  let r := exec handle (uploadManifests c) Sample.world in
  returned r = Some (Some (Err "json: unsupported type: func()"))
  ∧ cluster (final r) = take 3 Sample.documents
  ∧ length (procs (final r)) = 3.
Proof. by vm_compute. Qed.

Lemma uploadManifests_refines_deploy_witness :
  let r := exec handle (uploadManifests Sample.chart) Sample.world in
  returned r = Some (deploy (manifests Sample.chart) (cluster Sample.world)).2
  ∧ cluster (final r) = (deploy (manifests Sample.chart) (cluster Sample.world)).1
  ∧ static (final r) = static Sample.world.
Proof.
  apply (uploadManifests_refines_deploy Sample.chart Sample.world).
  by eexists.
Defined.

Lemma uploadManifests_success_witness :
  let r := exec handle (uploadManifests Sample.chart) Sample.world in
  returned r = Some None
  ∧ cluster (final r) = cluster Sample.world ++ Sample.documents.
Proof.
  apply (uploadManifests_success Sample.chart Sample.world).
  - by eexists.
  - by repeat constructor.
  - by vm_compute.
Defined.

Lemma uploadManifests_fail_fast_witness :
  let c := MkChart [Sample.ns "demo"] [] [] [] [Sample.broken] [] in
  let r := exec handle (uploadManifests c) Sample.world in
  ∃ n o ds, manifests c !! n = Some o
    ∧ documents (take n (manifests c)) ds ∧ accepts (cluster Sample.world) ds
    ∧ cluster (final r) = cluster Sample.world ++ ds
    ∧ fails_with (cluster (final r)) o (Err "json: unsupported type: func()").
Proof.
  intros c. apply (uploadManifests_fail_fast c Sample.world).
  - by eexists.
  - by vm_compute.
Defined.

Lemma uploadManifests_no_child_left_witness :
  let r := exec handle (uploadManifests Sample.chart) Sample.world in
  ∃ kids, procs (final r) = procs Sample.world ++ kids
          ∧ Forall kubectl_done kids
          ∧ length kids ≤ length (manifests Sample.chart).
Proof.
  apply (uploadManifests_no_child_left Sample.chart Sample.world). by eexists.
Defined.
End sample.

Arguments uploadLoop : simpl never.
Arguments uploadManifests : simpl never.
