(* ===== verification/Install.v ===== *)
(** * The install workflow: [chartInstalled] and [Install] of [install.go] *)

From stdpp Require Import gmap.
From S2P Require Import Prelude Paths Chart Prog World Invariant Deploy.
From S2P Require Import Kubectl Upload.

Section install.
Context `{Layout}.

(** The marker file of a chart, [p] in [chartInstalled]. *)
Definition chartYaml (chart : string) (home : path) : path :=
  Join [home; WorkspaceChartPath; seg chart; seg "Chart.yaml"].

(** The directory of a chart in the workspace, [cd] in [Install]. *)
Definition chartDir (chart : string) (home : path) : path :=
  Join [home; WorkspaceChartPath; seg chart].

(** [err != nil || fi.IsDir()], the second operand evaluated only when
    [err] is [nil]. *)
Definition failed_or_dir (r : result FileInfo) : bool :=
  match r with
  | Fail _ => true
  | Ok fi => IsDir fi
  end.

Definition chartInstalled (chart : string) (home : path) : prog bool :=
  let p := chartYaml chart home in
  call (LogDebug "Looking for %q" [show_path p]);;
  r ← call (OsStat p);
  if failed_or_dir r then
    call (LogDebug "No chart: %s" [show_err (result_err r)]);;
    mret false
  else mret true.

Definition Install (chart : string) (home : path) (namespace : string)
  : prog unit :=
  installed ← chartInstalled chart home;
  (if negb installed then
     call (LogInfo "No installed chart named %q. Installing now." [chart]);;
     call (FetchChart chart chart home)
   else mret ());;
  let cd := chartDir chart home in
  c ← get_or_die (call (ModelLoad cd)) "Failed to load chart: %s" [];
  or_die (uploadManifests c) "Failed to upload manifests: %s" [].

(** The calls [chartInstalled] can make. *)
Definition lookup_op : op_pred := λ T o,
  match o with
  | LogDebug _ _ | OsStat _ => True
  | _ => False
  end.

Lemma chartInstalled_calls chart home :
  calls_only lookup_op (chartInstalled chart home).
Proof.
  rw /chartInstalled. solve_calls.
Qed.

(** [chartInstalled] serialises nothing and creates no command. *)
Lemma chartInstalled_quiet {W} (h : handler W) chart home w :
  marshalled (trace (exec h (chartInstalled chart home) w)) = []
  ∧ commands (trace (exec h (chartInstalled chart home) w)) = [].
Proof.
  split; (eapply read_none; [|apply exec_calls_only, chartInstalled_calls]);
    by intros T [].
Qed.

(** ** The steps of an installation, in every environment *)

(** What a call is to an installation: the look for the marker file, the
    fetch, the load, or a part of the upload; the log is none of them. *)
Inductive step := Look | Fetching | Loading | Applying.

Definition step_of (a : anyop) : option step :=
  match a with
  | AnyOp (OsStat _) => Some Look
  | AnyOp (FetchChart _ _ _) => Some Fetching
  | AnyOp (ModelLoad _) => Some Loading
  | AnyOp (LogInfo _ _) | AnyOp (LogDebug _ _) | AnyOp (LogDie _ _) => None
  | AnyOp _ => Some Applying
  end.
Definition steps (tr : list event) : list step := omap step_of (calls tr).

(** The calls of the upload when its failure ends the process. *)
Definition upload_or_die : op_pred := λ T o,
  match o with
  | LogDie _ _ => True
  | _ => upload_op T o
  end.

Section steps.
Context {W : Type} (h : handler W).

Lemma steps_app tr1 tr2 : steps (tr1 ++ tr2) = steps tr1 ++ steps tr2.
Proof. apply read_app. Qed.

(** A trace of calls of the upload and of the log is a run of [Applying]
    steps. *)
Lemma steps_applying (P : op_pred) tr :
  (∀ T (o : Op T), P T o →
     step_of (AnyOp o) = None ∨ step_of (AnyOp o) = Some Applying) →
  Forall (ev_in P) tr → ∃ n, steps tr = replicate n Applying.
Proof.
  intros HP. rw /steps /calls.
  induction 1 as [|[T o r] tr He _ [n IH]]; [by exists 0|].
  rw fmap_cons. cbn [omap list_omap ev_op]. rw IH.
  destruct (HP T o He) as [->| ->]; [by exists n|by exists (S n)].
Qed.

Lemma upload_steps c fmt w :
  ∃ n, steps (trace (exec h (or_die (uploadManifests c) fmt []) w))
       = replicate n Applying.
Proof.
  apply (steps_applying upload_or_die).
  - intros T o Ho. destruct o; by auto.
  - apply exec_calls_only. rw /or_die. apply calls_only_mbind.
    + eapply calls_only_weaken; [|apply uploadManifests_calls].
      by intros T [].
    + intros [e|]; [|constructor]. by apply calls_only_die.
Qed.
Lemma steps_cons {T} (o : Op T) r tr :
  steps (Ev o r :: tr) = option_list (step_of (AnyOp o)) ++ steps tr.
Proof.
  rw /steps /calls fmap_cons. cbn [omap list_omap ev_op]. by destruct (step_of _).
Qed.

Lemma load_steps chart home w :
  ∃ n, steps (trace (exec h
         (c ← get_or_die (call (ModelLoad (chartDir chart home)))
                "Failed to load chart: %s" [];
          or_die (uploadManifests c) "Failed to upload manifests: %s" []) w))
       `prefix_of` Loading :: replicate n Applying.
Proof.
  rw exec_mbind exec_get_or_die exec_call /then_run.
  destruct (h _ (ModelLoad _) w) as [[[c|e]|] w1]; cbn [fst snd returned final trace].
  - rw exec_Ret. cbn [returned final trace after].
    destruct (upload_steps c "Failed to upload manifests: %s" w1) as [n Hn].
    exists n. rw !steps_app Hn. by apply prefix_cons.
  - rw exec_die. cbn [returned final trace after]. exists 0.
    apply prefix_cons, prefix_nil.
  - exists 0. apply prefix_cons, prefix_nil.
Qed.

Lemma chartInstalled_steps chart home w :
  let r := exec h (chartInstalled chart home) w in
  if returned r is Some _ then steps (trace r) = [Look]
  else steps (trace r) `prefix_of` [Look].
Proof.
  rw /chartInstalled /=.
  destruct (h _ (LogDebug _ _) w) as [[[]|] w1]; simpl; [|apply prefix_nil].
  destruct (h _ (OsStat _) w1) as [[r|] w2]; rw /steps /=; [|done].
  destruct (failed_or_dir r); simpl; [|done].
  by destruct (h _ (LogDebug _ _) w2) as [[[]|] w3]; rw /steps /=.
Qed.

(** C33: in every environment, the calls of [Install] come in the order
    of the workflow: the look for the marker file, then at most one
    fetch, then the load, then the calls of the upload; a run that ends
    early has made a prefix of them. *)
Theorem Install_steps chart home namespace w :
  let st := steps (trace (exec h (Install chart home namespace) w)) in
  ∃ n, st `prefix_of` Look :: Loading :: replicate n Applying
       ∨ st `prefix_of` Look :: Fetching :: Loading :: replicate n Applying.
Proof.
  cbv zeta. rw /Install exec_mbind /then_run.
  pose proof (chartInstalled_steps chart home w) as Hl. cbv zeta in Hl.
  destruct (exec h (chartInstalled chart home) w) as [[installed|] w1 tr];
    cbn [returned final trace] in *;
    [|exists 0; left; etrans; [done|]; apply prefix_cons, prefix_nil].
  rw trace_after steps_app Hl exec_mbind /then_run.
  destruct installed; cbn [negb].
  - rw exec_Ret. cbn [returned final trace after app].
    destruct (load_steps chart home w1) as [n Hn]. exists n. left.
    by apply prefix_cons.
  - rw exec_call_bind.
    destruct (h _ (LogInfo _ _) w1) as [[[]|] w2];
      [|exists 0; left; apply prefix_cons, prefix_nil].
    rw exec_call. destruct (h _ (FetchChart _ _ _) w2) as [[[]|] w3];
      cbn [fst snd returned final trace after app];
      [|exists 0; right; apply prefix_cons, prefix_cons, prefix_nil].
    destruct (load_steps chart home w3) as [n Hn]. exists n. right.
    rw !steps_cons /=. by apply prefix_cons, prefix_cons.
Qed.
End steps.
End install.

(** ** In the reference environment *)

Section reference.
Context `{Layout, Collaborators}.
Implicit Types (w : World) (chart : string) (home : path).

(** Whether the marker file of the chart is a file of the world. *)
Definition marker_present chart home w : bool :=
  bool_decide
    (node_at (fs w) (resolve (cwd w) (chartYaml chart home)) = Some File).

(** What [chartInstalled] logs. *)
Definition looking_for chart home : LogEntry :=
  MkLog Debug "Looking for %q" [show_path (chartYaml chart home)].
Definition no_chart chart home w : LogEntry :=
  MkLog Debug "No chart: %s"
    [show_err (result_err (do_stat (chartYaml chart home) w))].

(** The world after [chartInstalled]: only the log has grown. *)
Definition looked chart home w : World :=
  if marker_present chart home w then add_log (looking_for chart home) w
  else add_log (no_chart chart home w) (add_log (looking_for chart home) w).

Lemma chartInstalled_run chart home w :
  returned (exec handle (chartInstalled chart home) w)
    = Some (marker_present chart home w)
  ∧ final (exec handle (chartInstalled chart home) w) = looked chart home w.
Proof.
  destruct w. rw /chartInstalled /looked /marker_present /no_chart /=.
  by destruct (node_at _ _) as [[]|].
Qed.

Lemma silent_looked chart home w : silent (looked chart home w) = silent w.
Proof. rw /looked. by destruct w, (marker_present _ _ _). Qed.

(** C11: [chartInstalled] answers [true] exactly when the path
    [home/WorkspaceChartPath/chart/Chart.yaml] names a file: it answers
    [false] when nothing is there and when a directory is there.  It
    changes nothing but the log. *)
Theorem chartInstalled_spec chart home w :
  let r := exec handle (chartInstalled chart home) w in
  (returned r = Some true ↔
     node_at (fs w) (resolve (cwd w) (chartYaml chart home)) = Some File)
  ∧ is_Some (returned r)
  ∧ silent (final r) = silent w.
Proof.
  cbv zeta. destruct (chartInstalled_run chart home w) as [-> ->].
  split_and!; [|done|apply silent_looked].
  rw /marker_present. case_bool_decide; naive_solver.
Qed.

(** How [Install] ends after [uploadManifests]: it returns when the
    deployment went through and the process ends when it stopped. *)
Definition outcome (e : option error) : option unit :=
  if e is Some _ then None else Some ().

Lemma Install_upload c fmt w :
  is_Some (search_path w !! "kubectl") →
  returned (exec handle (or_die (uploadManifests c) fmt []) w)
    = outcome (deploy (manifests c) (cluster w)).2
  ∧ cluster (final (exec handle (or_die (uploadManifests c) fmt []) w))
    = (deploy (manifests c) (cluster w)).1
  ∧ static (final (exec handle (or_die (uploadManifests c) fmt []) w))
    = static w.
Proof.
  intros Hk. rw exec_or_die /then_run exec_uploadManifests.
  destruct (uploadLoop_run (manifests c) w Hk) as (-> & Hc & Hs).
  destruct (deploy _ _).2 as [err|]; [|done].
  rw exec_die /=. revert Hc Hs.
  by destruct (final (exec handle (uploadLoop (manifests c)) w)).
Qed.

(** C12: with [kubectl] on the search path, when the chart is in the
    workspace and loads as [c], [Install] does not fetch: it applies the manifests of [c] as [deploy] does,
    returns when the deployment went through and ends the process when it
    stopped; the cluster keeps what was applied before the failure. *)
Theorem Install_installed chart home namespace c w :
  marker_present chart home w = true →
  disk_charts w !! resolve (cwd w) (chartDir chart home) = Some c →
  is_Some (search_path w !! "kubectl") →
  let r := exec handle (Install chart home namespace) w in
  returned r = outcome (deploy (manifests c) (cluster w)).2
  ∧ cluster (final r) = (deploy (manifests c) (cluster w)).1
  ∧ static (final r) = static w.
Proof.
  intros Hm Hc Hk. cbv zeta. rw /Install exec_mbind /then_run.
  destruct (chartInstalled_run chart home w) as [-> ->].
  rw /looked Hm. cbn [negb mbind prog_bind bind mret prog_ret].
  rw exec_mbind exec_get_or_die exec_call /then_run.
  cbn [handle fst snd returned final trace after].
  rw /do_load disk_charts_add_log cwd_add_log Hc exec_Ret.
  cbn [returned final trace after].
  rw -(cluster_add_log (looking_for chart home) w)
     -(static_add_log (looking_for chart home) w).
  apply Install_upload. by rw search_path_add_log.
Qed.

(** The end of [Install] in a world given by its fields. *)
Ltac upload_here :=
  match goal with
  | |- context [exec handle (or_die (uploadManifests ?c) ?fmt []) ?w'] =>
      let Hr := fresh in let Hc := fresh in let Hs := fresh in
      destruct (Install_upload c fmt w') as (Hr & Hc & Hs);
      [|rw ?Hr ?Hc; simpl in Hs; injection Hs as ????????;
        repeat match goal with
          | H : _ (final _) = _ |- _ => rw ?H; clear H
          end]
  end.

Lemma chartYaml_resolve chart home cwd :
  resolve cwd (chartYaml chart home)
  = resolve cwd (chartDir chart home) ++ ["Chart.yaml"].
Proof. by rw /chartYaml /chartDir !resolve_Join /= -!app_assoc. Qed.

(** C13: with [kubectl] on the search path, when nothing is at the path
    of the marker file, no file is among the parents of the chart
    directory and the cache holds the chart as [c], [Install] fetches it
    into the workspace, loads it and applies its manifests as [deploy]
    does; afterwards the chart is installed. *)
Theorem Install_fetches chart home namespace c w :
  node_at (fs w) (resolve (cwd w) (chartYaml chart home)) = None →
  cache_charts w !! chart = Some c →
  clear_of_files (fs w) (ancestors (resolve (cwd w) (chartDir chart home))) →
  is_Some (search_path w !! "kubectl") →
  let r := exec handle (Install chart home namespace) w in
  returned r = outcome (deploy (manifests c) (cluster w)).2
  ∧ cluster (final r) = (deploy (manifests c) (cluster w)).1
  ∧ marker_present chart home (final r) = true.
Proof.
  intros Hn Hc Hf%mkdir_all_clear Hk. cbv zeta. rw /Install exec_mbind /then_run.
  destruct (chartInstalled_run chart home w) as [-> ->].
  rw /looked /marker_present Hn. cbn [negb mbind prog_bind bind mret prog_ret].
  rw chartYaml_resolve node_at_snoc /chartDir in Hn, Hf. destruct w. simpl in *.
  rw Hc Hf Hn /= lookup_insert_eq /=. rw /marker_present. upload_here; [done|].
  split_and!; [done..|]. apply bool_decide_eq_true.
  by rw chartYaml_resolve /chartDir node_at_snoc /= lookup_insert_eq.
Qed.

(** C14: when the chart is in the workspace but does not load, [Install]
    ends the process with the message [Failed to load chart]: no manifest is
    serialised, no child is created and the cluster is as before. *)
Theorem Install_load_failure chart home namespace w :
  marker_present chart home w = true →
  disk_charts w !! resolve (cwd w) (chartDir chart home) = None →
  let r := exec handle (Install chart home namespace) w in
  returned r = None
  ∧ last (logs (final r))
    = Some (MkLog Fatal "Failed to load chart: %s" [err_msg ErrNoChart])
  ∧ marshalled (trace r) = [] ∧ commands (trace r) = []
  ∧ cluster (final r) = cluster w.
Proof.
  intros Hm Hc. cbv zeta. rw /Install exec_mbind /then_run.
  destruct (chartInstalled_run chart home w) as [Hr ->].
  destruct (chartInstalled_quiet handle chart home w) as [Hq1 Hq2].
  rw Hr /looked Hm. cbn [negb mbind prog_bind bind mret prog_ret].
  rw exec_mbind exec_get_or_die exec_call /then_run.
  cbn [handle fst snd returned final trace after].
  rw /do_load disk_charts_add_log cwd_add_log Hc exec_die.
  cbn [handle fst snd returned final trace after].
  rw marshalled_app commands_app Hq1 Hq2.
  split_and!; [done|by destruct w; rw /= last_snoc|done..].
Qed.

(** C15: when the marker file is missing and the chart cannot be fetched,
    the process ends inside [Fetch]: [Fetch] is the last call [Install]
    makes, nothing is loaded or applied, and the file system and the
    cluster are as before. *)
Theorem Install_fetch_failure chart home namespace w :
  marker_present chart home w = false →
  cache_charts w !! chart = None →
  let r := exec handle (Install chart home namespace) w in
  returned r = None
  ∧ last (calls (trace r)) = Some (AnyOp (FetchChart chart chart home))
  ∧ fs (final r) = fs w ∧ cluster (final r) = cluster w.
Proof.
  intros Hm Hc. cbv zeta. rw /Install exec_mbind /then_run.
  destruct (chartInstalled_run chart home w) as [-> ->].
  generalize (trace (exec handle (chartInstalled chart home) w)). intros tr.
  rw /looked Hm. destruct w. simpl in *. rw Hc /=.
  split_and!; [done|by rw calls_app last_app|done..].
Qed.

(** C27: what [Install] does to the cluster, in every world and also when
    it ends the process half way: it takes nothing back, and what it adds
    after the documents that were there are the documents of the
    resources it has serialised, one for each in their order, up to the
    first that was refused.  The log keeps its entries as well. *)
Theorem Install_adds_documents chart home namespace w :
  let r := exec handle (Install chart home namespace) w in
  adds w r ∧ logs w `prefix_of` logs (final r).
Proof.
  split; [|apply exec_logs]. rw /Install /chartInstalled.
  apply adds_after; [by solve_calls|]. intros b w1.
  apply adds_after; [by destruct b; solve_calls|]. intros [] w2.
  apply adds_after; [by solve_calls|]. intros c w3.
  apply adds_before; [|intros [err|]; by solve_calls].
  rw exec_uploadManifests. apply uploadLoop_adds.
Qed.


(** C28: [Install] keeps to the directory of the chart in the workspace
    and keeps the file system well formed, however far it gets: every node
    it leaves behind lives in a directory, the process has not moved, and
    every path that is neither above nor below
    [home/WorkspaceChartPath/chart] holds what it held before. *)
Theorem Install_stays_in_chart chart home namespace w :
  wf_fs (fs w) →
  let r := exec handle (Install chart home namespace) w in
  wf_fs (fs (final r))
  ∧ stays (resolve (cwd w) (chartDir chart home)) w (final r).
Proof.
  intros Hwf. cbv zeta. split; [by apply exec_wf|].
  apply (exec_within _ _ w w); [|done].
  assert (within (cwd w) (resolve (cwd w) (chartDir chart home)) _
            (FetchChart chart chart home)) by (exists []; by rw app_nil_r).
  rw /Install /chartInstalled.
  solve_calls_with
    ltac:(eapply calls_only_weaken; [|apply uploadLoop_calls]; by intros ? []).
Qed.
End reference.

(** ** The sample environment *)

Section sample.
#[local] Existing Instances Sample.layout Sample.collaborators.

Definition home : path := Abs ["home"; "u"; ".helm"].
Definition demo_dir : abspath :=
  ["home"; "u"; ".helm"; "workspace"; "charts"; "demo"].

(** A world whose cache holds the sample chart. *)
Definition cached : World :=
  MkWorld ∅ [] (search_path Sample.world) [] [] ∅ {["demo" := Sample.chart]}
    ∅ ∅ [] false.

(** A world whose workspace holds the sample chart. *)
Definition installed : World :=
  MkWorld {[ demo_dir := Dir; demo_dir ++ ["Chart.yaml"] := File ]} []
    (search_path Sample.world) [] [] {[ demo_dir := Sample.chart ]} ∅ ∅ ∅ []
    false.

Example Install_sample :
  let r := exec handle (Install "demo" home "default") cached in
  returned r = Some ()
  ∧ cluster (final r) = Sample.documents
  ∧ fs (final r) !! (demo_dir ++ ["Chart.yaml"]) = Some File.
Proof. by vm_compute. Qed.

(** The cluster of the sample refuses what it holds: a second [Install]
    ends the process at the first manifest. *)
Example Install_sample_twice :
  let r1 := exec handle (Install "demo" home "default") cached in
  let r2 := exec handle (Install "demo" home "default") (final r1) in
  returned r2 = None ∧ cluster (final r2) = cluster (final r1)
  ∧ last (logs (final r2))
    = Some (MkLog Fatal "Failed to upload manifests: %s" ["exit status 1"]).
Proof. by vm_compute. Qed.

Lemma Install_installed_witness :
  let r := exec handle (Install "demo" home "default") installed in
  returned r = outcome (deploy (manifests Sample.chart) (cluster installed)).2
  ∧ cluster (final r) = (deploy (manifests Sample.chart) (cluster installed)).1
  ∧ static (final r) = static installed.
Proof.
  apply (Install_installed "demo" home "default" Sample.chart installed).
  - by vm_compute.
  - by vm_compute.
  - by eexists.
Defined.

Lemma Install_fetches_witness :
  let r := exec handle (Install "demo" home "default") cached in
  returned r = outcome (deploy (manifests Sample.chart) (cluster cached)).2
  ∧ cluster (final r) = (deploy (manifests Sample.chart) (cluster cached)).1
  ∧ marker_present "demo" home (final r) = true.
Proof.
  apply (Install_fetches "demo" home "default" Sample.chart cached).
  - by vm_compute.
  - by vm_compute.
  - by apply (bool_decide_unpack _).
  - by eexists.
Defined.

Lemma Install_load_failure_witness :
  let w := set_disk_charts (λ _, ∅) installed in
  let r := exec handle (Install "demo" home "default") w in
  returned r = None
  ∧ last (logs (final r))
    = Some (MkLog Fatal "Failed to load chart: %s" [err_msg ErrNoChart])
  ∧ marshalled (trace r) = [] ∧ commands (trace r) = []
  ∧ cluster (final r) = cluster w.
Proof.
  intros w. apply (Install_load_failure "demo" home "default" w); by vm_compute.
Defined.

Lemma Install_fetch_failure_witness :
  let r := exec handle (Install "demo" home "default") Sample.world in
  returned r = None
  ∧ last (calls (trace r)) = Some (AnyOp (FetchChart "demo" "demo" home))
  ∧ fs (final r) = fs Sample.world ∧ cluster (final r) = cluster Sample.world.
Proof.
  apply (Install_fetch_failure "demo" home "default" Sample.world); by vm_compute.
Defined.

(** A machine with something else on it. *)
Definition crowded : World :=
  set_fs (λ _, <[["etc"]:=Dir]> ∅) cached.

Example Install_crowded :
  let r := exec handle (Install "demo" home "default") crowded in
  returned r = Some () ∧ fs (final r) !! ["etc"] = Some Dir
  ∧ fs (final r) !! (demo_dir ++ ["Chart.yaml"]) = Some File.
Proof. by vm_compute. Qed.

Lemma Install_stays_in_chart_witness :
  let r := exec handle (Install "demo" home "default") crowded in
  wf_fs (fs (final r))
  ∧ stays (resolve (cwd crowded) (chartDir "demo" home)) crowded (final r).
Proof.
  apply (Install_stays_in_chart "demo" home "default" crowded).
  apply (wf_fs_insert_dir ∅ [] "etc"); [apply wf_fs_empty|done].
Defined.
End sample.

Arguments chartInstalled : simpl never.
Arguments Install : simpl never.
