(* ===== verification/Documents.v ===== *)
(** * The documents of a deployment

    What reaches [kubectl], read back.  With a serialiser that keeps the
    promise of [Manifest.Lossless], the documents [uploadManifests] writes
    are the manifests of the chart for version [v1], in their order, and
    [Install] keeps the schema of the documents of the cluster. *)

From stdpp Require Import gmap.
From S2P Require Import Prelude Paths Codec Chart Manifest Prog World.
From S2P Require Import Invariant Child Deploy Kubectl Upload Install.

(** The document [d] is the resource [o], serialised for [v1]. *)
Definition describes (o : Resource) (d : bytes) : Prop :=
  ReadJSON d = Some (unversioned o, "v1").

(** ** In every environment *)

Section any_handler.
Context {W : Type} (h : handler W).
Implicit Types (w : W) (os : list Resource) (ds : list bytes).

(** The environment answers [manifest.MarshalJSON] with a document that
    reads back as the resource and the version. *)
Definition serialises : Prop :=
  ∀ o version w d,
    (h _ (ManifestMarshalJSON o version) w).1 = Some (Ok d) →
    ReadJSON d = Some (unversioned o, version).

(** The documents written in a run over [os] are the first of [os], each
    at its place, and all of them when the run returns [nil]. *)
Definition delivered os (r : run W (option error)) : Prop :=
  Forall2 describes (take (length (written (trace r))) os) (written (trace r))
  ∧ (returned r = Some None → length (written (trace r)) = length os).

Lemma delivered_stop o os d (r : run W (option error)) :
  describes o d → written (trace r) `prefix_of` [d] →
  returned r ≠ Some None → delivered (o :: os) r.
Proof.
  intros Hd Hw Hr. split; [|done].
  destruct (written (trace r)) as [|d' ds]; [constructor|].
  pose proof (prefix_cons_inv_1 _ _ _ _ Hw) as ->.
  apply prefix_cons_inv_2, prefix_nil_inv in Hw as ->. by repeat constructor.
Qed.

Lemma uploadLoop_delivered os w :
  serialises → delivered os (exec h (uploadLoop os) w).
Proof.
  intros Hs. revert w. induction os as [|o os IH]; intros w;
    [by split; [constructor|]|].
  rw uploadLoop_cons exec_try_call. specialize (Hs o "v1" w).
  destruct (h _ _ w) as [[[d|err]|] w1]; [|by split; [constructor|]..].
  specialize (Hs d eq_refl). rw exec_and_then /then_run.
  pose proof (kubectlCreate_written h w1 d) as Hw.
  pose proof (kubectlCreate_nil_written h w1 d) as Hn.
  destruct (exec h (kubectlCreate d) w1) as [[[err|]|] w2 tr]; simpl in *.
  - apply (delivered_stop o os d); autorewrite with helm; rw /= ?app_nil_r //.
  - destruct (IH w2) as [IHd IHn].
    split; autorewrite with helm; rw /= (Hn eq_refl) /=.
    + by constructor.
    + by intros ->%IHn.
  - apply (delivered_stop o os d); autorewrite with helm; rw /= ?app_nil_r //.
Qed.

(** So it is for the six loops of [uploadManifests]. *)
Lemma uploadManifests_delivered (c : Chart) w :
  serialises → delivered (manifests c) (exec h (uploadManifests c) w).
Proof. rw exec_uploadManifests. apply uploadLoop_delivered. Qed.
End any_handler.

(** ** In the reference environment *)

Section reference.
Context `{Layout, Collaborators, !Lossless marshal}.
Implicit Types (w : World) (os : list Resource) (docs : list bytes).

Lemma handle_serialises : serialises handle.
Proof. intros o version w d [= Hd]. by apply marshal_reads. Qed.

(** Every document of the cluster conforms to the schema for [v1]. *)
Definition schema w : Prop := Forall (conforms "v1") (cluster w).

Lemma deploy_conforms os docs :
  Forall (conforms "v1") docs → Forall (conforms "v1") (deploy os docs).1.
Proof.
  revert docs. induction os as [|o os IH]; intros docs Hdocs; simpl; [done|].
  destruct (marshal o "v1") as [d|err] eqn:Ho; [|done].
  destruct (admits docs d); [|done].
  apply IH, Forall_app. split; [done|]. repeat constructor.
  by eapply reads_conforms, marshal_reads.
Qed.

(** [uploadManifests] keeps the schema, with [kubectl] or without. *)
Lemma uploadManifests_schema c w :
  schema w → schema (final (exec handle (uploadManifests c) w)).
Proof.
  intros Hw. rw /schema exec_uploadManifests.
  destruct (search_path w !! "kubectl") as [pth|] eqn:Hk.
  - destruct (uploadLoop_run (manifests c) w) as (_ & -> & _); [by rw Hk|].
    by apply deploy_conforms.
  - by destruct (uploadLoop_run_missing (manifests c) w Hk) as (_ & -> & _).
Qed.

(** A program that stays away from child processes keeps the schema. *)
Lemma quiet_schema {R} (p : prog R) w :
  calls_only no_child p → schema w → schema (final (exec handle p w)).
Proof.
  intros Hp. rw /schema. by destruct (exec_no_child p w Hp) as (_ & -> & _).
Qed.

Ltac quiet := apply quiet_schema; [|done]; rw /chartInstalled; solve_calls.

(** C39: [Install] keeps the schema of the cluster: when every document
    the cluster holds is an object tagged with [apiVersion] [v1] and with
    no other [apiVersion] field, so is every document it holds after
    [Install], in every world and however far [Install] gets. *)
Theorem Install_keeps_schema chart home namespace w :
  schema w → schema (final (exec handle (Install chart home namespace) w)).
Proof.
  intros Hw. rw /Install.
  apply (exec_mbind_keeps handle schema); [by quiet|]. intros b w1 H1.
  apply (exec_mbind_keeps handle schema); [by destruct b; quiet|].
  intros [] w2 H2.
  apply (exec_mbind_keeps handle schema); [by quiet|]. intros c w3 H3.
  apply (exec_mbind_keeps handle schema); [by apply uploadManifests_schema|].
  intros [err|] w4 H4; by quiet.
Qed.
End reference.

(** ** With the serialiser of the specification *)

Section specified.
Context `{Layout} (admits : list bytes → bytes → bool).

(** The collaborators of the specification: [MarshalJSON] of [Manifest],
    and a cluster that accepts what [admits] says. *)
#[local] Instance specified : Collaborators := MkCollaborators MarshalJSON admits.

(** C38: the round trip of a deployment.  With the serialiser of the
    specification, in every world and whatever the cluster accepts, the
    documents [uploadManifests] writes to [kubectl] read back as the
    manifests of the chart, stamped [v1]: the n-th document written is the
    n-th manifest in the order namespaces, secrets, persistent volumes,
    services, pods, replication controllers, nothing of it lost but an
    [apiVersion] of its own, and a run that returns [nil] has written a
    document for every manifest. *)
Theorem uploadManifests_round_trip (c : Chart) (w : World) :
  delivered (manifests c) (exec handle (uploadManifests c) w).
Proof. apply uploadManifests_delivered, handle_serialises. Qed.
End specified.

(** ** The sample chart *)

Section sample.
#[local] Existing Instances Sample.layout Sample.collaborators.

(** What the cluster of the sample holds reads back as the chart. *)
Example sample_reads_back :
  let r := exec handle (uploadManifests Sample.chart) Sample.world in
  ReadJSON <$> cluster (final r)
  = (λ o, Some (o, "v1")) <$> manifests Sample.chart.
Proof. by vm_compute. Qed.

(** A world whose cluster holds a pod already. *)
Definition running : World :=
  set_cluster (λ _, [Sample.pod_doc "old"]) installed.

Example Install_running :
  let r := exec handle (Install "demo" home "default") running in
  cluster (final r) = Sample.pod_doc "old" :: Sample.documents
  ∧ forallb (conforms "v1") (cluster (final r)) = true.
Proof. by vm_compute. Qed.

Lemma Install_keeps_schema_witness :
  schema (final (exec handle (Install "demo" home "default") running)).
Proof.
  apply (Install_keeps_schema "demo" home "default" running).
  apply Forall_cons_2; [by vm_compute|apply Forall_nil_2].
Defined.
End sample.
