(* ===== verification/Update.v ===== *)
(** * The repository sync and the bootstrap of the home directory:
    [update.go] *)

From stdpp Require Import gmap.
From S2P Require Import Prelude Paths Chart Prog World Invariant.

Section update.
Context `{Layout}.

Definition gitUpdate (git : GitRepo) : prog (option error) :=
  check! call (GitUpdate git);;
  call (LogInfo "Updated" []);;
  mret None.

Definition ensurePrereqs : prog unit :=
  get_or_die (call (ExecLookPath "git"))
    "Could not find 'git' on $PATH: %s" [];;
  get_or_die (call (ExecLookPath "kubectl"))
    "Could not find 'kubectl' on $PATH: %s" [];;
  mret ().

Definition ensureRepo (repo : string) (home : path) : prog GitRepo :=
  or_die (call (OsChdir home))
    "Could not change to directory %q: %s" [show_path home];;
  git ← get_or_die (call (VcsNewGitRepo repo home))
    "Could not get repository %q: %s" [repo];
  local ← call (GitCheckLocal git);
  (if negb local then
     call (LogInfo "Cloning repo into %q. Please wait." [show_path home]);;
     or_die (call (GitGet git))
       "Could not create repository in %q: %s" [show_path home]
   else mret ());;
  mret git.

(** The permission bits [0755]. *)
Definition perm0755 : N := 493.

(** The loop of [ensureHome] over [helmpaths]. *)
Fixpoint mkdirLoop (home : path) (ps : list path) : prog unit :=
  match ps with
  | [] => mret ()
  | p :: ps' =>
      let pp := Join [home; p] in
      or_die (call (OsMkdirAll pp perm0755))
        "Could not create %q: %s" [show_path pp];;
      mkdirLoop home ps'
  end.

Definition ensureHome (home : path) : prog unit :=
  r ← call (OsStat home);
  match r with
  | Fail err =>
      call (LogInfo "Creating %s" [show_path home]);;
      mkdirLoop home helmpaths
  | Ok fi =>
      if negb (IsDir fi)
      then die "%s must be a directory." [show_path home]
      else mret ()
  end;;
  or_die (call (OsChdir home))
    "Could not change to directory %q: %s" [show_path home].

(** [home, err := filepath.Abs(home)] assigns the parameter: when [Abs]
    fails [home] is the empty string by the time the message is printed. *)
Definition Update (repo : string) (home : path) : prog unit :=
  home ← get_or_die (call (FilepathAbs home))
    "Could not generate absolute path for %q: %s" [""];
  ensurePrereqs;;
  ensureHome home;;
  let gitrepo := Join [home; CachePath] in
  git ← ensureRepo repo gitrepo;
  or_die (gitUpdate git) "Failed to update from Git: %s" [].

End update.

(** ** Under any environment *)

Section any_handler.
Context `{Layout} {W : Type} (h : handler W).

(** C20: whatever the environment answers, [ensureRepo] clones at most
    once, and only the repository that [GitCheckLocal] has just said is
    not there: a working copy that is present is never cloned again. *)
Theorem ensureRepo_clone_guard repo home w :
  let tr := trace (exec h (ensureRepo repo home) w) in
  clonings tr = []
  ∨ ∃ g, clonings tr = [g] ∧ checks tr = [(g, false)].
Proof.
  cbv zeta. rw /ensureRepo /or_die /get_or_die /die /call /=.
  destruct (h _ (OsChdir home) w) as [[[e|]|] w1]; simpl; try by left.
  - destruct (h _ (LogDie _ _) w1) as [[[]|] ?]; by left.
  - destruct (h _ (VcsNewGitRepo repo home) w1) as [[[g|e]|] w2]; simpl; try by left.
    + destruct (h _ (GitCheckLocal g) w2) as [[[]|] w3]; simpl; try by left.
      destruct (h _ (LogInfo _ _) w3) as [[[]|] w4]; simpl; try by left.
      destruct (h _ (GitGet g) w4) as [[[e|]|] w5]; simpl; try (right; by exists g).
      destruct (h _ (LogDie _ _) w5) as [[[]|] ?]; right; by exists g.
    + destruct (h _ (LogDie _ _) w2) as [[[]|] ?]; by left.
Qed.

(** C25: whatever the environment, when [filepath.Abs] fails [Update]
    ends the process at once, on the message [Could not generate absolute
    path]: it makes no other call, and the path the message names is the
    empty string that [Abs] returned with its error, not the path [Update]
    was given. *)
Theorem Update_abs_failure repo home w err :
  (h _ (FilepathAbs home) w).1 = Some (Fail err) →
  let r := exec h (Update repo home) w in
  let fmt := "Could not generate absolute path for %q: %s" in
  returned r = None
  ∧ final r = (h _ (LogDie fmt [""; err_msg err]) (h _ (FilepathAbs home) w).2).2
  ∧ trace r = [Ev (FilepathAbs home) (Some (Fail err));
               Ev (LogDie fmt [""; err_msg err]) None].
Proof.
  intros Ha. cbv zeta. rw /Update exec_mbind exec_get_or_die exec_call Ha.
  rw /then_run. cbn [returned final trace]. by rw exec_die.
Qed.
End any_handler.

(** ** In the reference environment *)

Section reference.
Context `{Layout, Collaborators}.
Implicit Types (w : World) (home p : path) (ps : list path) (a : abspath).

(** The directories [ensureHome] makes for the subdirectories [ps] of the
    home directory [a], and the calls that make them. *)
Definition home_dirs a ps : list abspath :=
  concat ((λ p, ancestors (a ++ comps p)) <$> ps).
Definition mkdir_calls home ps : list anyop :=
  (λ p, AnyOp (OsMkdirAll (Join [home; p]) perm0755)) <$> ps.

(** No required subdirectory lies below the cache directory. *)
Definition cache_is_leaf : Prop :=
  Forall (λ p, ∀ k, comps p = comps CachePath ++ k → k = []) helmpaths.

Lemma resolve_Join2 cwd home p :
  resolve cwd (Join [home; p]) = resolve cwd home ++ comps p.
Proof. by rw resolve_Join /= app_nil_r. Qed.

Lemma Join_Abs a p : Join [Abs a; p] = Abs (a ++ comps p).
Proof. by rw /Join /= app_nil_r. Qed.

Lemma home_dirs_cons a p ps :
  home_dirs a (p :: ps) = ancestors (a ++ comps p) ++ home_dirs a ps.
Proof. done. Qed.

Lemma elem_of_home_dirs a b ps :
  b ∈ home_dirs a ps ↔ ∃ p, p ∈ ps ∧ b ≠ [] ∧ b `prefix_of` a ++ comps p.
Proof.
  induction ps as [|p ps IH].
  - rw /home_dirs /= elem_of_nil. split; [done|]. by intros (p & ?%elem_of_nil & _).
  - rw home_dirs_cons elem_of_app IH elem_of_ancestors. split.
    + intros [[??]|(q & ? & ?)]; [exists p|exists q]; split; [by left|done|by right|done].
    + intros (q & [->|?]%elem_of_cons & ?); [by left|right; by exists q].
Qed.

Lemma home_dirs_clear f a ps :
  wf_fs f → node_at f a = None → clear_of_files f (ancestors a) →
  clear_of_files f (home_dirs a ps).
Proof.
  intros Hwf Ha Hc. apply Forall_concat, Forall_fmap, Forall_true. intros p.
  rw /= /ancestors ancestors_from_app. apply Forall_app. split; [done|].
  apply clear_of_files_below; [done|]. by rw Ha.
Qed.

Lemma wf_fs_home_dirs f a ps :
  wf_fs f → clear_of_files f (home_dirs a ps) → wf_fs (with_dirs f (home_dirs a ps)).
Proof.
  revert f. induction ps as [|p ps IH]; intros f Hwf Hc; [done|].
  rw home_dirs_cons in Hc |- *. apply Forall_app in Hc as [Hp Hps]. rw with_dirs_app.
  apply IH; [by apply wf_fs_with_dirs|by apply clear_of_files_with_dirs].
Qed.

Lemma home_made f a p :
  a ≠ [] → p ∈ helmpaths →
  node_at (with_dirs f (home_dirs a helmpaths)) a = Some Dir
  ∧ node_at (with_dirs f (home_dirs a helmpaths)) (a ++ comps p) = Some Dir.
Proof.
  intros Ha Hp. rw !node_at_with_dirs !decide_True //;
    apply elem_of_home_dirs; exists p; split_and!; try done.
  - apply prefix_app_same.
  - by destruct a.
Qed.

(** The cache directory made by [ensureHome] is empty. *)
Lemma cache_empty f a :
  wf_fs f → node_at f a = None → cache_is_leaf →
  empty_below (with_dirs f (home_dirs a helmpaths)) (a ++ comps CachePath) = true.
Proof.
  intros Hwf Ha Hleaf. apply empty_below_spec. intros k Hk.
  rw lookup_with_dirs -app_assoc. case_decide as Hin.
  - apply elem_of_home_dirs in Hin as (p & Hp & _ & [k' Hpre]).
    rw -!app_assoc in Hpre. apply app_inv_head in Hpre.
    apply (proj1 (Forall_forall _ _) Hleaf p Hp) in Hpre. by destruct k.
  - apply wf_fs_below; [done|by rw Ha|by destruct (comps CachePath)].
Qed.

(** *** The runs of the helpers *)

Lemma mkdirLoop_run home ps w :
  clear_of_files (fs w) (home_dirs (resolve (cwd w) home) ps) →
  runs_to handle (mkdirLoop home ps) w (Some ())
    (set_fs (λ f, with_dirs f (home_dirs (resolve (cwd w) home) ps)) w)
    (mkdir_calls home ps).
Proof.
  revert w. induction ps as [|p ps IH]; intros w Hc; [by destruct w|].
  rw home_dirs_cons in Hc |- *. apply Forall_app in Hc as [Hp Hps].
  eapply (runs_to_bind _ _ _ _ _ _ [_]).
  - apply runs_to_or_die, runs_to_call. cbn [handle].
    by rw /do_mkdir_all resolve_Join2 (mkdir_all_clear _ _ Hp).
  - destruct w; cbn in *. rw with_dirs_app.
    by apply (IH (MkWorld _ _ _ _ _ _ _ _ _ _ _)), clear_of_files_with_dirs.
Qed.

(** What [ensureHome] makes of a world where nothing is at the home path. *)
Definition made_home home w : World :=
  set_cwd (resolve (cwd w) home)
    (set_fs (λ f, with_dirs f (home_dirs (resolve (cwd w) home) helmpaths))
       (add_log (MkLog Info "Creating %s" [show_path home]) w)).

Lemma ensureHome_fresh_run home w :
  wf_fs (fs w) →
  node_at (fs w) (resolve (cwd w) home) = None →
  clear_of_files (fs w) (ancestors (resolve (cwd w) home)) →
  helmpaths ≠ [] →
  runs_to handle (ensureHome home) w (Some ()) (made_home home w)
    (AnyOp (OsStat home) :: AnyOp (LogInfo "Creating %s" [show_path home])
       :: mkdir_calls home helmpaths ++ [AnyOp (OsChdir home)]).
Proof.
  intros Hwf Ha Hc Hne.
  pose proof (home_dirs_clear _ _ helmpaths Hwf Ha Hc) as Hd.
  destruct (exists_elem_of _ Hne) as [p0 Hp0].
  destruct (home_made (fs w) (resolve (cwd w) home) p0) as [Hhome _];
    [by intros Heq; rw Heq in Ha|done|].
  eapply (runs_to_bind _ _ _ _ _ _ [_]);
    [apply runs_to_call; cbn [handle]; by rw /do_stat Ha|].
  eapply (runs_to_bind _ _ _ _ _ _ (_ :: _)).
  - eapply (runs_to_bind _ _ _ _ _ _ [_]); [by apply runs_to_call|].
    apply mkdirLoop_run. by destruct w.
  - apply runs_to_or_die, runs_to_call. destruct w; cbn in *.
    by rw /do_chdir /= Hhome.
Qed.

Lemma ensureHome_existing_run home w :
  node_at (fs w) (resolve (cwd w) home) = Some Dir →
  runs_to handle (ensureHome home) w (Some ()) (set_cwd (resolve (cwd w) home) w)
    [AnyOp (OsStat home); AnyOp (OsChdir home)].
Proof.
  intros Ha. eapply (runs_to_bind _ _ _ _ _ _ [_] _ _ [_]);
    [apply runs_to_call; cbn [handle]; by rw /do_stat Ha|].
  eapply (runs_to_bind _ _ _ _ _ _ []); [apply runs_to_ret|].
  apply runs_to_or_die, runs_to_call. cbn [handle]. by rw /do_chdir Ha.
Qed.

Lemma ensurePrereqs_run w :
  is_Some (search_path w !! "git") → is_Some (search_path w !! "kubectl") →
  runs_to handle ensurePrereqs w (Some ()) w
    [AnyOp (ExecLookPath "git"); AnyOp (ExecLookPath "kubectl")].
Proof.
  intros [pg Hg] [pk Hk].
  eapply (runs_to_bind _ _ _ _ _ _ [_]);
    [apply runs_to_get_or_die, runs_to_call; cbn [handle]; by rw /do_look_path Hg|].
  eapply (runs_to_bind _ _ _ _ _ _ [_] _ _ []); [|apply runs_to_ret].
  apply runs_to_get_or_die, runs_to_call. cbn [handle]. by rw /do_look_path Hk.
Qed.

Lemma ensurePrereqs_missing_run w :
  ¬ (is_Some (search_path w !! "git") ∧ is_Some (search_path w !! "kubectl")) →
  ∃ fmt args cs,
    runs_to handle ensurePrereqs w None (add_log (MkLog Fatal fmt args) w) cs.
Proof.
  intros Hp. destruct (search_path w !! "git") as [pg|] eqn:Hg.
  - destruct (search_path w !! "kubectl") as [pk|] eqn:Hk; [by destruct Hp|].
    exists "Could not find 'kubectl' on $PATH: %s", [err_msg ErrNotFound]. eexists.
    eapply (runs_to_bind _ _ _ _ _ _ [_]);
      [apply runs_to_get_or_die, runs_to_call; cbn [handle]; by rw /do_look_path Hg|].
    apply runs_to_bind_stop.
    eapply (runs_to_get_or_die_log _ _ [] _ ErrNotFound w [_]), runs_to_call.
    cbn [handle]. by rw /do_look_path Hk.
  - exists "Could not find 'git' on $PATH: %s", [err_msg ErrNotFound]. eexists.
    apply runs_to_bind_stop.
    eapply (runs_to_get_or_die_log _ _ [] _ ErrNotFound w [_]), runs_to_call.
    cbn [handle]. by rw /do_look_path Hg.
Qed.

(** The handle [vcs.NewGitRepo] answers for the directory [a]. *)
Definition repo_at (repo : string) a : GitRepo := MkGitRepo repo (Abs a).

(** The world after [git clone] into [a], and after [git pull] there. *)
Definition cloned (repo : string) a (head : nat) w : World :=
  set_clones <[a:=(repo, head)]>
    (set_fs <[a ++ [".git"]:=Dir]>
       (add_log (MkLog Info "Cloning repo into %q. Please wait." [show_path (Abs a)])
          (set_cwd a w))).
Definition pulled (repo : string) a (head : nat) w : World :=
  add_log (MkLog Info "Updated" []) (set_clones <[a:=(repo, head)]> w).

Lemma gitUpdate_run repo a w rev head :
  cwd w = a → clones w !! a = Some (repo, rev) → remotes w !! repo = Some head →
  runs_to handle (gitUpdate (repo_at repo a)) w (Some None) (pulled repo a head w)
    [AnyOp (GitUpdate (repo_at repo a)); AnyOp (LogInfo "Updated" [])].
Proof.
  intros Hcwd Hc Hr. eapply (runs_to_check _ _ _ _ _ [_] _ _ [_]).
  - apply runs_to_call. cbn [handle]. by rw /do_update /= resolve_Abs Hc Hr.
  - eapply (runs_to_bind _ _ _ _ _ _ [_] _ _ []); [by apply runs_to_call|].
    apply runs_to_ret.
Qed.

(** The calls of [Update] and of [ensureRepo] one by one. *)
Lemma abs_run home fmt args w :
  runs_to handle (get_or_die (call (FilepathAbs home)) fmt args) w
    (Some (absolute (cwd w) home)) w [AnyOp (FilepathAbs home)].
Proof. by apply runs_to_get_or_die, runs_to_call. Qed.

Lemma chdir_run a fmt args w :
  node_at (fs w) a = Some Dir →
  runs_to handle (or_die (call (OsChdir (Abs a))) fmt args) w (Some ())
    (set_cwd a w) [AnyOp (OsChdir (Abs a))].
Proof.
  intros Ha. apply runs_to_or_die, runs_to_call. cbn [handle].
  by rw /do_chdir resolve_Abs Ha.
Qed.

Lemma new_repo_run repo a fmt args w :
  (∀ r rev, clones w !! a = Some (r, rev) → r = repo) →
  runs_to handle (get_or_die (call (VcsNewGitRepo repo (Abs a))) fmt args) w
    (Some (repo_at repo a)) w [AnyOp (VcsNewGitRepo repo (Abs a))].
Proof.
  intros Hc. apply runs_to_get_or_die, runs_to_call. destruct w; cbn in *.
  rw /do_new_repo /= resolve_Abs. destruct (clones !! a) as [[r rev]|] eqn:Hr; [|done].
  by rw decide_True; [apply (Hc r rev)|].
Qed.

Lemma check_local_run repo a w :
  runs_to handle (call (GitCheckLocal (repo_at repo a))) w
    (Some (bool_decide (is_Some (clones w !! a)))) w
    [AnyOp (GitCheckLocal (repo_at repo a))].
Proof. by apply runs_to_call. Qed.

(** [git clone] into a directory that is not empty is refused, and
    [ensureRepo] ends the process. *)
Lemma get_refused_run repo a fmt args w :
  empty_below (fs w) a = false →
  runs_to handle (or_die (call (GitGet (repo_at repo a))) fmt args) w None
    (add_log (MkLog Fatal fmt (args ++ [err_msg ErrGit])) w)
    [AnyOp (GitGet (repo_at repo a)); AnyOp (LogDie fmt (args ++ [err_msg ErrGit]))].
Proof.
  intros He. eapply (runs_to_or_die_log _ _ _ _ ErrGit _ [_]), runs_to_call.
  rw /= /do_get /= resolve_Abs He. by repeat case_match.
Qed.

(** The first three calls of [ensureRepo] on a directory. *)
Lemma ensureRepo_enter repo a w (k : GitRepo → prog GitRepo) res w' cs :
  node_at (fs w) a = Some Dir →
  (∀ r rev, clones w !! a = Some (r, rev) → r = repo) →
  runs_to handle (k (repo_at repo a)) (set_cwd a w) res w' cs →
  runs_to handle
    (or_die (call (OsChdir (Abs a)))
       "Could not change to directory %q: %s" [show_path (Abs a)];;
     git ← get_or_die (call (VcsNewGitRepo repo (Abs a)))
       "Could not get repository %q: %s" [repo];
     k git) w res w'
    (AnyOp (OsChdir (Abs a)) :: AnyOp (VcsNewGitRepo repo (Abs a)) :: cs).
Proof.
  intros Ha Hc Hk. eapply (runs_to_bind _ _ _ _ _ _ [_]); [by apply chdir_run|].
  eapply (runs_to_bind _ _ _ _ _ _ [_]); [|done]. apply new_repo_run.
  by destruct w.
Qed.

Lemma ensureRepo_found_run repo a w rev :
  node_at (fs w) a = Some Dir → clones w !! a = Some (repo, rev) →
  runs_to handle (ensureRepo repo (Abs a)) w (Some (repo_at repo a)) (set_cwd a w)
    [AnyOp (OsChdir (Abs a)); AnyOp (VcsNewGitRepo repo (Abs a));
     AnyOp (GitCheckLocal (repo_at repo a))].
Proof.
  intros Ha Hc. apply ensureRepo_enter; [done|by intros ?? [= -> _]%(eq_trans (eq_sym Hc))|].
  destruct w; cbn in Ha, Hc. eapply (runs_to_bind _ _ _ _ _ _ [_] _ _ []).
  - apply runs_to_call. by rw /= /do_check_local /= resolve_Abs Hc.
  - eapply (runs_to_bind _ _ _ _ _ _ [] _ _ []); apply runs_to_ret.
Qed.

Lemma ensureRepo_fresh_run repo a w head :
  wf_fs (fs w) → node_at (fs w) a = Some Dir → empty_below (fs w) a = true →
  clones w !! a = None → remotes w !! repo = Some head →
  runs_to handle (ensureRepo repo (Abs a)) w (Some (repo_at repo a))
    (cloned repo a head w)
    [AnyOp (OsChdir (Abs a)); AnyOp (VcsNewGitRepo repo (Abs a));
     AnyOp (GitCheckLocal (repo_at repo a));
     AnyOp (LogInfo "Cloning repo into %q. Please wait." [show_path (Abs a)]);
     AnyOp (GitGet (repo_at repo a))].
Proof.
  intros Hwf Ha He Hc Hr. apply ensureRepo_enter; [done|by rw Hc|].
  destruct w; cbn in Hwf, Ha, He, Hc, Hr. eapply (runs_to_bind _ _ _ _ _ _ [_] _ _ [_; _]).
  - apply runs_to_call. by rw /= /do_check_local /= resolve_Abs Hc.
  - eapply (runs_to_bind _ _ _ _ _ _ [_; _] _ _ []); [|apply runs_to_ret].
    eapply (runs_to_bind _ _ _ _ _ _ [_] _ _ [_]); [by apply runs_to_call|].
    apply runs_to_or_die, runs_to_call.
    rw /= /do_get /= resolve_Abs Hr (mkdir_all_dir _ _ Hwf Ha) He Ha.
    by rw bool_decide_true.
Qed.

(** *** [Update] from its first call to the repository *)

Definition prereqs_met w : Prop :=
  is_Some (search_path w !! "git") ∧ is_Some (search_path w !! "kubectl").

Definition open_calls home : list anyop :=
  [AnyOp (FilepathAbs home); AnyOp (ExecLookPath "git");
   AnyOp (ExecLookPath "kubectl")].

(** [Update] after the prerequisites: the bootstrap of the absolute home
    directory, then the repository work in the cache directory. *)
Lemma Update_run repo home w w1 cs1 e w2 cs2 :
  prereqs_met w →
  runs_to handle (ensureHome (absolute (cwd w) home)) w (Some ()) w1 cs1 →
  runs_to handle
    (git ← ensureRepo repo (Abs (resolve (cwd w) home ++ comps CachePath));
     or_die (gitUpdate git) "Failed to update from Git: %s" []) w1 e w2 cs2 →
  runs_to handle (Update repo home) w e w2 (open_calls home ++ cs1 ++ cs2).
Proof.
  intros [Hg Hk] Hhome Hrepo.
  eapply (runs_to_bind _ _ _ _ _ _ [_]);
    [by apply runs_to_get_or_die, runs_to_call|].
  eapply (runs_to_bind _ _ _ _ _ _ [_; _]); [by apply ensurePrereqs_run|].
  eapply runs_to_bind; [done|]. cbv zeta. by rw Join_Abs.
Qed.

Lemma Update_stale_run repo home w rev head :
  let a := resolve (cwd w) home ++ comps CachePath in
  prereqs_met w →
  node_at (fs w) (resolve (cwd w) home) = Some Dir →
  node_at (fs w) a = Some Dir →
  clones w !! a = Some (repo, rev) → remotes w !! repo = Some head →
  runs_to handle (Update repo home) w (Some ()) (pulled repo a head (set_cwd a w))
    (open_calls home
     ++ [AnyOp (OsStat (absolute (cwd w) home));
         AnyOp (OsChdir (absolute (cwd w) home))]
     ++ [AnyOp (OsChdir (Abs a)); AnyOp (VcsNewGitRepo repo (Abs a));
         AnyOp (GitCheckLocal (repo_at repo a))]
     ++ [AnyOp (GitUpdate (repo_at repo a)); AnyOp (LogInfo "Updated" [])]).
Proof.
  intros a Hp Hh Ha Hc Hr.
  eapply Update_run; [done|by apply ensureHome_existing_run|].
  eapply runs_to_bind.
  - apply (ensureRepo_found_run _ _ _ rev); by destruct w.
  - destruct w. by apply runs_to_or_die, (gitUpdate_run _ _ _ rev).
Qed.

Lemma Update_fresh_run repo home w head :
  let a := resolve (cwd w) home ++ comps CachePath in
  prereqs_met w → wf_fs (fs w) →
  node_at (fs w) (resolve (cwd w) home) = None →
  clear_of_files (fs w) (ancestors (resolve (cwd w) home)) →
  CachePath ∈ helmpaths → cache_is_leaf →
  clones w !! a = None → remotes w !! repo = Some head →
  runs_to handle (Update repo home) w (Some ())
    (pulled repo a head (cloned repo a head (made_home (absolute (cwd w) home) w)))
    (open_calls home
     ++ ([AnyOp (OsStat (absolute (cwd w) home));
          AnyOp (LogInfo "Creating %s" [show_path (absolute (cwd w) home)])]
         ++ mkdir_calls (absolute (cwd w) home) helmpaths
         ++ [AnyOp (OsChdir (absolute (cwd w) home))])
     ++ [AnyOp (OsChdir (Abs a)); AnyOp (VcsNewGitRepo repo (Abs a));
         AnyOp (GitCheckLocal (repo_at repo a));
         AnyOp (LogInfo "Cloning repo into %q. Please wait." [show_path (Abs a)]);
         AnyOp (GitGet (repo_at repo a))]
     ++ [AnyOp (GitUpdate (repo_at repo a)); AnyOp (LogInfo "Updated" [])]).
Proof.
  intros a Hp Hwf Hh Hc Hcache Hleaf Hcl Hr.
  pose proof (home_dirs_clear _ _ helmpaths Hwf Hh Hc) as Hd.
  assert (resolve (cwd w) home ≠ []) as Hnil by (by intros Heq; rw Heq in Hh).
  eapply Update_run; [done|apply ensureHome_fresh_run; [done..|]|].
  { by intros Heq; rw Heq in Hcache; apply elem_of_nil in Hcache. }
  eapply runs_to_bind.
  - apply ensureRepo_fresh_run; destruct w; cbn in *;
      [by apply wf_fs_home_dirs|by apply home_made|by apply cache_empty|done..].
  - apply runs_to_or_die, (gitUpdate_run _ _ _ head); destruct w; cbn in *;
      [done|by rw lookup_insert_eq|done].
Qed.

(** C19: [ensurePrereqs] returns exactly when both [git] and [kubectl]
    are on the search path, and then changes nothing; when [git] is
    missing it ends the process without looking for [kubectl]; each case
    logs the message of the program it did not find. *)
Theorem ensurePrereqs_spec w :
  let r := exec handle ensurePrereqs w in
  match search_path w !! "git", search_path w !! "kubectl" with
  | Some _, Some _ =>
      returned r = Some () ∧ final r = w
      ∧ calls (trace r)
        = [AnyOp (ExecLookPath "git"); AnyOp (ExecLookPath "kubectl")]
  | Some _, None =>
      returned r = None
      ∧ final r = add_log (MkLog Fatal "Could not find 'kubectl' on $PATH: %s"
                             [err_msg ErrNotFound]) w
  | None, _ =>
      returned r = None
      ∧ final r = add_log (MkLog Fatal "Could not find 'git' on $PATH: %s"
                             [err_msg ErrNotFound]) w
      ∧ calls (trace r)
        = [AnyOp (ExecLookPath "git");
           AnyOp (LogDie "Could not find 'git' on $PATH: %s" [err_msg ErrNotFound])]
  end.
Proof.
  cbv zeta. rw /ensurePrereqs /get_or_die. destruct w; simpl.
  rw /do_look_path /=.
  destruct (search_path !! "git"); simpl; [|done].
  rw /do_look_path /=. by destruct (search_path !! "kubectl").
Qed.

(** C16: on a well-formed file system, on a home path where nothing is,
    with no file among its parents and a layout that names at least one
    directory, [ensureHome] returns with every required subdirectory made as a
    directory, the home directory included, the working directory set to
    the home directory and the file system well formed. *)
Theorem ensureHome_fresh home w :
  wf_fs (fs w) →
  node_at (fs w) (resolve (cwd w) home) = None →
  clear_of_files (fs w) (ancestors (resolve (cwd w) home)) →
  helmpaths ≠ [] →
  let r := exec handle (ensureHome home) w in
  returned r = Some ()
  ∧ (∀ p, p ∈ helmpaths →
       node_at (fs (final r)) (resolve (cwd w) (Join [home; p])) = Some Dir)
  ∧ node_at (fs (final r)) (resolve (cwd w) home) = Some Dir
  ∧ cwd (final r) = resolve (cwd w) home
  ∧ wf_fs (fs (final r)).
Proof.
  intros Hwf Ha Hc Hne. cbv zeta.
  destruct (ensureHome_fresh_run home w) as (-> & -> & _); [done..|].
  pose proof (home_dirs_clear _ _ helmpaths Hwf Ha Hc) as Hd.
  assert (resolve (cwd w) home ≠ []) as Hnil by (by intros Heq; rw Heq in Ha).
  destruct (exists_elem_of _ Hne) as [p0 Hp0].
  rw /made_home. destruct w; simpl in *.
  split_and!; [done| |by apply (home_made _ _ p0)|done|by apply wf_fs_home_dirs].
  intros p Hp. rw resolve_Join2. by apply home_made.
Qed.

(** C17: on a home path that names a file, [ensureHome] ends the process
    with the message that the path must be a directory; it makes no
    directory and leaves the file system and the working directory as they
    were. *)
Theorem ensureHome_not_directory home w :
  node_at (fs w) (resolve (cwd w) home) = Some File →
  let r := exec handle (ensureHome home) w in
  returned r = None
  ∧ calls (trace r)
    = [AnyOp (OsStat home); AnyOp (LogDie "%s must be a directory." [show_path home])]
  ∧ final r = add_log (MkLog Fatal "%s must be a directory." [show_path home]) w.
Proof.
  intros Ha. cbv zeta. rw /ensureHome exec_call_bind. cbn [handle].
  rw /do_stat Ha. cbn [prod_map fst snd id negb IsDir].
  by rw exec_mbind exec_die.
Qed.

(** C18: on a home path that names a directory, [ensureHome] makes
    nothing, whether or not the required subdirectories are there: the
    file system is as before and the working directory is the home
    directory. *)
Theorem ensureHome_existing home w :
  node_at (fs w) (resolve (cwd w) home) = Some Dir →
  let r := exec handle (ensureHome home) w in
  returned r = Some ()
  ∧ calls (trace r) = [AnyOp (OsStat home); AnyOp (OsChdir home)]
  ∧ final r = set_cwd (resolve (cwd w) home) w.
Proof.
  intros Ha. cbv zeta. rw /ensureHome exec_call_bind. cbn [handle].
  rw /do_stat Ha. cbn [prod_map fst snd id negb IsDir].
  rw exec_mbind exec_Ret /then_run. cbn [returned final trace].
  rw exec_or_die exec_call /then_run. cbn [handle].
  by rw /do_chdir Ha.
Qed.
(** The calls of the bootstrap are none of [GitGet]. *)
Lemma mkdir_calls_clonings home ps : omap get_arg (mkdir_calls home ps) = [].
Proof. by induction ps. Qed.

(** C21: on a well-formed file system, on a home path where nothing is
    and no file is among its parents, with both programs on the search
    path, no working copy recorded for the cache directory and a remote
    that answers, for a layout whose [CachePath] is one of [helmpaths] with
    no other entry below it, [Update] returns; the cache
    directory then holds a working copy of the remote at its head, made
    by one clone, every required subdirectory is a directory, the working
    directory is the cache directory and the file system is well
    formed. *)
Theorem Update_fresh repo home w head :
  let a := resolve (cwd w) home ++ comps CachePath in
  prereqs_met w → wf_fs (fs w) →
  node_at (fs w) (resolve (cwd w) home) = None →
  clear_of_files (fs w) (ancestors (resolve (cwd w) home)) →
  CachePath ∈ helmpaths → cache_is_leaf →
  clones w !! a = None → remotes w !! repo = Some head →
  let r := exec handle (Update repo home) w in
  returned r = Some ()
  ∧ clones (final r) !! a = Some (repo, head)
  ∧ clonings (trace r) = [repo_at repo a]
  ∧ (∀ p, p ∈ helmpaths →
       node_at (fs (final r)) (resolve (cwd w) home ++ comps p) = Some Dir)
  ∧ cwd (final r) = a
  ∧ wf_fs (fs (final r)).
Proof.
  intros a Hp Hwf Hh Hc Hcache Hleaf Hcl Hr. cbv zeta.
  destruct (Update_fresh_run repo home w head) as (-> & -> & Hcalls); [done..|].
  pose proof (home_dirs_clear _ _ helmpaths Hwf Hh Hc) as Hd.
  assert (resolve (cwd w) home ≠ []) as Hnil by (by intros Heq; rw Heq in Hh).
  rw /clonings Hcalls !omap_app mkdir_calls_clonings.
  destruct w; cbn in *. split_and!; [done|by rw lookup_insert_eq|done| |done|].
  - intros p Hp'. by apply node_at_insert_dir, home_made.
  - apply wf_fs_insert_dir; [by apply wf_fs_home_dirs|by apply home_made].
Qed.

(** C22: with both programs on the search path, on a home directory
    whose cache directory holds a working copy of the remote, a remote
    that answers, [Update] returns with the working copy moved to the
    head of the remote in place: nothing is cloned, no directory is made
    and the file system is as before (in the reference environment a pull
    moves the recorded revision and writes no file). *)
Theorem Update_stale repo home w rev head :
  let a := resolve (cwd w) home ++ comps CachePath in
  prereqs_met w →
  node_at (fs w) (resolve (cwd w) home) = Some Dir →
  node_at (fs w) a = Some Dir →
  clones w !! a = Some (repo, rev) → remotes w !! repo = Some head →
  let r := exec handle (Update repo home) w in
  returned r = Some ()
  ∧ clones (final r) = <[a:=(repo, head)]> (clones w)
  ∧ clonings (trace r) = []
  ∧ fs (final r) = fs w
  ∧ cwd (final r) = a.
Proof.
  intros a Hp Hh Ha Hc Hr. cbv zeta.
  destruct (Update_stale_run repo home w rev head) as (-> & -> & Hcalls); [done..|].
  rw /clonings Hcalls. by destruct w.
Qed.

(** C23: on a home directory that is there without its cache directory,
    [Update] makes no directory: it ends the process on the change into
    the cache directory, before any call to the repository. *)
Theorem Update_no_cache repo home w :
  let a := resolve (cwd w) home ++ comps CachePath in
  prereqs_met w →
  node_at (fs w) (resolve (cwd w) home) = Some Dir →
  node_at (fs w) a = None →
  let r := exec handle (Update repo home) w in
  returned r = None
  ∧ final r
    = add_log (MkLog Fatal "Could not change to directory %q: %s"
                 [show_path (Abs a); err_msg ENOENT])
        (set_cwd (resolve (cwd w) home) w)
  ∧ calls (trace r)
    = open_calls home
      ++ [AnyOp (OsStat (absolute (cwd w) home));
          AnyOp (OsChdir (absolute (cwd w) home))]
      ++ [AnyOp (OsChdir (Abs a));
          AnyOp (LogDie "Could not change to directory %q: %s"
                   [show_path (Abs a); err_msg ENOENT])].
Proof.
  intros a Hp Hh Ha. cbv zeta.
  eapply Update_run; [done|by apply ensureHome_existing_run|].
  do 2 apply runs_to_bind_stop.
  eapply (runs_to_or_die_log _ _ [_] _ ENOENT _ [_]), runs_to_call.
  destruct w; cbn in *. by rw /do_chdir /= resolve_Abs Ha.
Qed.

(** C24: without [git] or [kubectl] on the search path [Update] ends
    the process before it looks at the file system: nothing but the log
    changes. *)
Theorem Update_missing_prereq repo home w :
  ¬ prereqs_met w →
  let r := exec handle (Update repo home) w in
  returned r = None ∧ silent (final r) = silent w
  ∧ ∃ fmt args, logs (final r) = logs w ++ [MkLog Fatal fmt args].
Proof.
  intros Hp. cbv zeta.
  destruct (ensurePrereqs_missing_run w Hp) as (fmt & args & cs & Hrun).
  assert (runs_to handle (Update repo home) w None
            (add_log (MkLog Fatal fmt args) w) ([AnyOp (FilepathAbs home)] ++ cs))
    as (-> & -> & _); [|split_and!; [done|by destruct w|by eexists _, _]].
  eapply runs_to_bind; [by apply runs_to_get_or_die, runs_to_call|].
  by apply runs_to_bind_stop.
Qed.

(** *** The ways [Update] ends the process *)

(** The world [Update] ends in when it dies in the cache directory [a]
    with the message [fmt]. *)
Definition died_in a (fmt : string) (args : list string) w : World :=
  add_log (MkLog Fatal fmt args) (set_cwd a w).

(** [ensureRepo] on a directory, after its change of directory. *)
Lemma ensureRepo_chdir a w (k : prog GitRepo) res w' cs :
  node_at (fs w) a = Some Dir →
  runs_to handle k (set_cwd a w) res w' cs →
  runs_to handle
    (or_die (call (OsChdir (Abs a)))
       "Could not change to directory %q: %s" [show_path (Abs a)];; k)
    w res w' (AnyOp (OsChdir (Abs a)) :: cs).
Proof.
  intros Ha Hk. eapply (runs_to_bind _ _ _ _ _ _ [_]); [|done].
  by apply chdir_run.
Qed.

(** When nothing is at the home path and a file is in the way among
    its parents, [ensureHome] ends the process at the first directory it
    tries to make, with the message [Could not create]: the file system
    is as before. *)
Theorem ensureHome_blocked home p ps w :
  node_at (fs w) (resolve (cwd w) home) = None →
  ¬ clear_of_files (fs w) (ancestors (resolve (cwd w) home)) →
  helmpaths = p :: ps →
  let r := exec handle (ensureHome home) w in
  returned r = None ∧ fs (final r) = fs w ∧ cwd (final r) = cwd w
  ∧ last (logs (final r))
    = Some (MkLog Fatal "Could not create %q: %s"
              [show_path (Join [home; p]); err_msg ENOTDIR]).
Proof.
  intros Ha Hc Hps. cbv zeta.
  enough (∃ cs, runs_to handle (ensureHome home) w None
            (add_log (MkLog Fatal "Could not create %q: %s"
                        [show_path (Join [home; p]); err_msg ENOTDIR])
               (add_log (MkLog Info "Creating %s" [show_path home]) w)) cs)
    as (cs & -> & -> & _); [by destruct w; rw /= last_snoc|].
  eexists. rw /ensureHome Hps.
  eapply (runs_to_bind _ _ _ _ _ _ [_]);
    [apply runs_to_call; cbn [handle]; by rw /do_stat Ha|].
  apply runs_to_bind_stop.
  eapply (runs_to_bind _ _ _ _ _ _ [_]); [by apply runs_to_call|].
  apply runs_to_bind_stop.
  eapply (runs_to_or_die_log _ _ [_] _ ENOTDIR _ [_]), runs_to_call.
  cbn [handle]. rw /do_mkdir_all resolve_Join2 cwd_add_log fs_add_log.
  rw mkdir_all_blocked //. intros Hc'. apply Hc.
  rw /ancestors ancestors_from_app in Hc'. by apply Forall_app in Hc' as [? _].
Qed.

(** A machine that has been set up: both programs are on the search
    path and the home directory is there with its cache directory. *)
Definition settled home w : Prop :=
  prereqs_met w
  ∧ node_at (fs w) (resolve (cwd w) home) = Some Dir
  ∧ node_at (fs w) (resolve (cwd w) home ++ comps CachePath) = Some Dir.

(** The calls of [Update] on such a machine before [ensureRepo]. *)
Definition settled_calls home w : list anyop :=
  open_calls home
  ++ [AnyOp (OsStat (absolute (cwd w) home));
      AnyOp (OsChdir (absolute (cwd w) home))].

Lemma Update_settled_run repo home w res w' cs :
  settled home w →
  runs_to handle
    (git ← ensureRepo repo (Abs (resolve (cwd w) home ++ comps CachePath));
     or_die (gitUpdate git) "Failed to update from Git: %s" [])
    (set_cwd (resolve (cwd w) home) w) res w' cs →
  runs_to handle (Update repo home) w res w' (settled_calls home w ++ cs).
Proof.
  intros (Hp & Hh & _) Hk. rw /settled_calls -app_assoc.
  by eapply Update_run; [|apply ensureHome_existing_run|].
Qed.

(** [Update] on a machine that has been set up and has no working copy
    yet: it clones into the empty cache directory and pulls. *)
Lemma Update_clone_run repo home w head :
  let a := resolve (cwd w) home ++ comps CachePath in
  settled home w → wf_fs (fs w) → empty_below (fs w) a = true →
  clones w !! a = None → remotes w !! repo = Some head →
  runs_to handle (Update repo home) w (Some ())
    (pulled repo a head (cloned repo a head (set_cwd (resolve (cwd w) home) w)))
    (settled_calls home w
     ++ [AnyOp (OsChdir (Abs a)); AnyOp (VcsNewGitRepo repo (Abs a));
         AnyOp (GitCheckLocal (repo_at repo a));
         AnyOp (LogInfo "Cloning repo into %q. Please wait." [show_path (Abs a)]);
         AnyOp (GitGet (repo_at repo a))]
     ++ [AnyOp (GitUpdate (repo_at repo a)); AnyOp (LogInfo "Updated" [])]).
Proof.
  intros a Hs Hwf He Hc Hr. apply Update_settled_run; [done|].
  destruct Hs as (_ & _ & Ha). eapply runs_to_bind.
  - apply ensureRepo_fresh_run; by destruct w.
  - apply runs_to_or_die, (gitUpdate_run _ _ _ head); destruct w; cbn in *;
      [done|by rw lookup_insert_eq|done].
Qed.

(** C30: when the cache directory holds a working copy of another
    remote, [Update] ends the process with the message [Could not get
    repository]: it neither clones nor pulls. *)
Theorem Update_wrong_remote repo home w other rev :
  let a := resolve (cwd w) home ++ comps CachePath in
  settled home w → clones w !! a = Some (other, rev) → other ≠ repo →
  runs_to handle (Update repo home) w None
    (died_in a "Could not get repository %q: %s" [repo; err_msg ErrWrongRemote] w)
    (settled_calls home w
     ++ [AnyOp (OsChdir (Abs a)); AnyOp (VcsNewGitRepo repo (Abs a));
         AnyOp (LogDie "Could not get repository %q: %s"
                  [repo; err_msg ErrWrongRemote])]).
Proof.
  intros a Hs Hc Hne. apply Update_settled_run; [done|]. destruct Hs as (_ & _ & Ha).
  apply runs_to_bind_stop, ensureRepo_chdir; [by destruct w|].
  apply runs_to_bind_stop.
  eapply (runs_to_get_or_die_log _ _ [_] _ ErrWrongRemote _ [_]), runs_to_call.
  destruct w; cbn in *. by rw /do_new_repo /= resolve_Abs Hc decide_False.
Qed.

(** C31: on a home directory with its cache directory, with both
    programs on the search path, when the cache directory holds no working
    copy and the remote does not answer, [Update] ends the process after
    the failed clone, with the message [Could not create repository]; the
    file system is as before (in the reference environment a failed clone
    writes nothing). *)
Theorem Update_clone_failure repo home w :
  let a := resolve (cwd w) home ++ comps CachePath in
  settled home w → clones w !! a = None → remotes w !! repo = None →
  runs_to handle (Update repo home) w None
    (add_log (MkLog Fatal "Could not create repository in %q: %s"
                [show_path (Abs a); err_msg ErrGit])
       (add_log (MkLog Info "Cloning repo into %q. Please wait." [show_path (Abs a)])
          (set_cwd a w)))
    (settled_calls home w
     ++ [AnyOp (OsChdir (Abs a)); AnyOp (VcsNewGitRepo repo (Abs a));
         AnyOp (GitCheckLocal (repo_at repo a));
         AnyOp (LogInfo "Cloning repo into %q. Please wait." [show_path (Abs a)]);
         AnyOp (GitGet (repo_at repo a));
         AnyOp (LogDie "Could not create repository in %q: %s"
                  [show_path (Abs a); err_msg ErrGit])]).
Proof.
  intros a Hs Hc Hr. apply Update_settled_run; [done|]. destruct Hs as (_ & _ & Ha).
  apply runs_to_bind_stop, (ensureRepo_enter _ _ _ _ _ _ [_; _; _; _]);
    [by destruct w|destruct w; cbn in *; by rw Hc|].
  destruct w; cbn in Ha, Hc, Hr. eapply (runs_to_bind _ _ _ _ _ _ [_]).
  - apply runs_to_call. by rw /= /do_check_local /= resolve_Abs Hc.
  - apply runs_to_bind_stop.
    eapply (runs_to_bind _ _ _ _ _ _ [_]); [by apply runs_to_call|].
    eapply (runs_to_or_die_log _ _ [_] _ ErrGit _ [_]), runs_to_call.
    by rw /= /do_get /= resolve_Abs Hr.
Qed.

(** C32: when the cache directory holds a working copy of a remote that
    does not answer, [Update] ends the process after the failed pull, with
    the message [Failed to update from Git]: the working copy stays at its
    revision. *)
Theorem Update_pull_failure repo home w rev :
  let a := resolve (cwd w) home ++ comps CachePath in
  settled home w → clones w !! a = Some (repo, rev) → remotes w !! repo = None →
  runs_to handle (Update repo home) w None
    (died_in a "Failed to update from Git: %s" [err_msg ErrGit] w)
    (settled_calls home w
     ++ [AnyOp (OsChdir (Abs a)); AnyOp (VcsNewGitRepo repo (Abs a));
         AnyOp (GitCheckLocal (repo_at repo a))]
     ++ [AnyOp (GitUpdate (repo_at repo a));
         AnyOp (LogDie "Failed to update from Git: %s" [err_msg ErrGit])]).
Proof.
  intros a Hs Hc Hr. apply Update_settled_run; [done|]. destruct Hs as (_ & _ & Ha).
  eapply runs_to_bind;
    [apply (ensureRepo_found_run _ _ _ rev); by destruct w|].
  eapply (runs_to_or_die_log _ _ [] _ ErrGit _ [_]).
  apply (runs_to_check_err _ _ _ _ _ _ [_]), runs_to_call.
  destruct w; cbn in *. by rw /do_update /= resolve_Abs Hc Hr.
Qed.

(** C37: a second [Update] of an absolute home directory, right after
    the first on a fresh machine, returns without cloning and changes
    neither the file system, nor the working copy, nor the working
    directory. *)
Theorem Update_twice repo home w head :
  let a := resolve (cwd w) home ++ comps CachePath in
  rooted home = true →
  prereqs_met w → wf_fs (fs w) →
  node_at (fs w) (resolve (cwd w) home) = None →
  clear_of_files (fs w) (ancestors (resolve (cwd w) home)) →
  CachePath ∈ helmpaths → cache_is_leaf →
  clones w !! a = None → remotes w !! repo = Some head →
  let r1 := exec handle (Update repo home) w in
  let r2 := exec handle (Update repo home) (final r1) in
  returned r2 = Some ()
  ∧ clonings (trace r2) = []
  ∧ fs (final r2) = fs (final r1)
  ∧ clones (final r2) = clones (final r1)
  ∧ cwd (final r2) = cwd (final r1).
Proof.
  intros a Hroot Hp Hwf Hh Hc Hcache Hleaf Hcl Hr. cbv zeta.
  destruct (Update_fresh_run repo home w head) as (_ & -> & _); [done..|].
  assert (resolve (cwd w) home ≠ []) as Hnil by (by intros Heq; rw Heq in Hh).
  set (w1 := pulled _ _ _ _).
  assert (resolve (cwd w1) home = resolve (cwd w) home) as Hres
    by by apply resolve_rooted.
  destruct (Update_stale_run repo home w1 head head) as (-> & -> & Hcalls).
  - destruct Hp. by destruct w.
  - rw Hres. destruct w; cbn in *. rw resolve_absolute.
    by apply node_at_insert_dir, (home_made _ _ CachePath).
  - rw Hres. destruct w; cbn in *. rw resolve_absolute.
    by apply node_at_insert_dir, (home_made _ _ CachePath).
  - rw Hres. destruct w; cbn in *. by rw lookup_insert_eq.
  - by destruct w.
  - rw /clonings Hcalls Hres. destruct w; cbn in *.
    split_and!; [done..| |done]. by rw insert_insert_eq.
Qed.

(** C34: [ensureRepo] on a relative path resolves it twice: after the
    change into the directory, the repository it hands back lives at the
    same relative path below that directory, not in it.  [Update] passes
    an absolute path. *)
Theorem ensureRepo_relative repo home w g :
  rooted home = false →
  returned (exec handle (ensureRepo repo home) w) = Some g →
  git_local g = Abs ((cwd w ++ comps home) ++ comps home).
Proof.
  intros Hrel. rw /ensureRepo /or_die /get_or_die. destruct w, home as [[] cs];
    [done|]. simpl. rw /do_chdir /resolve /=.
  destruct (node_at _ _) as [[]|]; simpl; try done.
  rw /do_new_repo /absolute /resolve /=.
  destruct (clones !! _) as [[r rev]|]; [case_decide|]; simpl; try done.
  all: repeat (case_match; simpl); try done; by intros [= <-].
Qed.

(** The writes of the loop of [ensureHome] and of [ensureRepo] go along
    the home directory. *)
Lemma mkdirLoop_along a ps : calls_only (along a) (mkdirLoop (Abs a) ps).
Proof.
  induction ps as [|p ps IH]; [constructor|]. cbn [mkdirLoop]. rw Join_Abs.
  assert (along a _ (OsMkdirAll (Abs (a ++ comps p)) perm0755)) by (by eexists).
  solve_calls.
Qed.

Lemma ensureRepo_along a q repo w0 w :
  keeps_outside a w0 w →
  keeps_outside a w0 (final (exec handle (ensureRepo repo (Abs (a ++ q))) w)).
Proof.
  intros Hw. rw /ensureRepo.
  apply (exec_mbind_keeps handle (keeps_outside a w0));
    [by apply exec_along; [solve_calls|]|]. intros [] w1 H1.
  rw exec_mbind exec_get_or_die exec_call /then_run.
  cbn [handle fst snd returned final trace then_run].
  destruct (do_new_repo repo _ w1) as [g|err] eqn:Hg.
  - apply do_new_repo_local in Hg. rw exec_Ret. cbn [returned final trace].
    rw final_after. apply exec_along; [|done].
    assert (along a _ (GitGet g)) by (by exists q).
    solve_calls.
  - rw exec_die. cbn [returned final]. intros b Hb.
    rw (handle_along a (LogDie _ _)) //. by apply H1.
Qed.

(** C26: [Update] keeps to the home directory and keeps the file system
    well formed, however far it gets: every node it leaves behind lives in
    a directory, and every path that is neither above nor below the home
    directory, made absolute, holds what it held before. *)
Theorem Update_stays_home repo home w :
  wf_fs (fs w) →
  let r := exec handle (Update repo home) w in
  wf_fs (fs (final r)) ∧ keeps_outside (resolve (cwd w) home) w (final r).
Proof.
  intros Hwf. cbv zeta. split; [by apply exec_wf|].
  rw /Update exec_mbind exec_get_or_die exec_call /then_run.
  cbn [handle fst snd returned final trace]. rw exec_Ret.
  cbn [returned final trace]. rw final_after /absolute.
  apply (exec_mbind_keeps handle (keeps_outside _ w));
    [by apply exec_along; [rw /ensurePrereqs; solve_calls|]|].
  intros [] w1 H1.
  apply (exec_mbind_keeps handle (keeps_outside _ w));
    [by apply exec_along;
       [rw /ensureHome; solve_calls_with ltac:(apply mkdirLoop_along)|]|].
  intros [] w2 H2. rw Join_Abs.
  apply (exec_mbind_keeps handle (keeps_outside _ w));
    [by apply ensureRepo_along|].
  intros git w3 H3. apply exec_along; [|done]. rw /gitUpdate. solve_calls.
Qed.
End reference.

(** ** The sample: a fresh machine, then a stale clone *)

Section sample.
#[local] Existing Instances Sample.layout Sample.collaborators.

Definition remote : string := "https://example.com/charts".
Definition home : path := Abs ["home"; "u"; ".helm"].
Definition cache_dir : abspath := ["home"; "u"; ".helm"; "cache"].

(** A home directory whose cache holds revision 3 of the remote. *)
Definition stale : World :=
  MkWorld
    {[ ["home"] := Dir; ["home"; "u"] := Dir; ["home"; "u"; ".helm"] := Dir;
       cache_dir := Dir; cache_dir ++ [".git"] := Dir ]}
    [] (search_path Sample.world) [] [] ∅ ∅ {[ cache_dir := (remote, 3) ]}
    (remotes Sample.world) [] false.

(** A home directory without its subdirectories, and a file in its place. *)
Definition bare : World :=
  set_fs (λ _, {[ ["home"] := Dir; ["home"; "u"] := Dir;
                  ["home"; "u"; ".helm"] := Dir ]}) Sample.world.
Definition blocked : World :=
  set_fs (λ _, {[ ["home"] := Dir; ["home"; "u"] := Dir;
                  ["home"; "u"; ".helm"] := File ]}) Sample.world.

Example Update_sample :
  let r := exec handle (Update remote (Rel ["home"; "u"; ".helm"])) Sample.world in
  returned r = Some ()
  ∧ clones (final r) !! cache_dir = Some (remote, 7)
  ∧ cwd (final r) = cache_dir
  ∧ node_at (fs (final r)) ["home"; "u"; ".helm"; "workspace"; "charts"] = Some Dir.
Proof. by vm_compute. Qed.

(** A second [Update], after the remote has moved on, pulls and does not
    clone. *)
Example Update_sample_twice :
  let r1 := exec handle (Update remote home) Sample.world in
  let w := MkWorld (fs (final r1)) [] (search_path (final r1)) [] [] ∅ ∅
             (clones (final r1)) {[ remote := 9 ]} [] false in
  let r2 := exec handle (Update remote home) w in
  returned r2 = Some ()
  ∧ clones (final r2) !! cache_dir = Some (remote, 9)
  ∧ clonings (trace r1) = [repo_at remote cache_dir]
  ∧ clonings (trace r2) = [].
Proof. by vm_compute. Qed.

Lemma sample_prereqs w :
  search_path w = search_path Sample.world → prereqs_met w.
Proof. intros Hs. rw /prereqs_met Hs. split; by eexists. Qed.

Lemma sample_cache_is_leaf : cache_is_leaf.
Proof. repeat constructor; by intros [|??]. Qed.

Lemma ensureHome_fresh_witness :
  let w := Sample.world in
  let r := exec handle (ensureHome home) w in
  returned r = Some ()
  ∧ (∀ p, p ∈ helmpaths →
       node_at (fs (final r)) (resolve (cwd w) (Join [home; p])) = Some Dir)
  ∧ node_at (fs (final r)) (resolve (cwd w) home) = Some Dir
  ∧ cwd (final r) = resolve (cwd w) home
  ∧ wf_fs (fs (final r)).
Proof.
  apply (ensureHome_fresh home Sample.world);
    [apply wf_fs_empty|done|by apply (bool_decide_unpack _)|done].
Defined.

Lemma ensureHome_not_directory_witness :
  let r := exec handle (ensureHome home) blocked in
  returned r = None
  ∧ calls (trace r)
    = [AnyOp (OsStat home); AnyOp (LogDie "%s must be a directory." [show_path home])]
  ∧ final r = add_log (MkLog Fatal "%s must be a directory." [show_path home]) blocked.
Proof. apply (ensureHome_not_directory home blocked). by vm_compute. Defined.

Lemma ensureHome_existing_witness :
  let r := exec handle (ensureHome home) bare in
  returned r = Some ()
  ∧ calls (trace r) = [AnyOp (OsStat home); AnyOp (OsChdir home)]
  ∧ final r = set_cwd (resolve (cwd bare) home) bare.
Proof. apply (ensureHome_existing home bare). by vm_compute. Defined.

Lemma Update_fresh_witness :
  let w := Sample.world in
  let a := resolve (cwd w) home ++ comps CachePath in
  let r := exec handle (Update remote home) w in
  returned r = Some ()
  ∧ clones (final r) !! a = Some (remote, 7)
  ∧ clonings (trace r) = [repo_at remote a]
  ∧ (∀ p, p ∈ helmpaths →
       node_at (fs (final r)) (resolve (cwd w) home ++ comps p) = Some Dir)
  ∧ cwd (final r) = a
  ∧ wf_fs (fs (final r)).
Proof.
  apply (Update_fresh remote home Sample.world 7);
    [by apply sample_prereqs|apply wf_fs_empty|done
    |by apply (bool_decide_unpack _)|by left|apply sample_cache_is_leaf|done..].
Defined.

Lemma Update_stale_witness :
  let a := resolve (cwd stale) home ++ comps CachePath in
  let r := exec handle (Update remote home) stale in
  returned r = Some ()
  ∧ clones (final r) = <[a:=(remote, 7)]> (clones stale)
  ∧ clonings (trace r) = []
  ∧ fs (final r) = fs stale
  ∧ cwd (final r) = a.
Proof.
  apply (Update_stale remote home stale 3 7);
    [by apply sample_prereqs|by vm_compute..].
Defined.

Lemma Update_no_cache_witness :
  let a := resolve (cwd bare) home ++ comps CachePath in
  let r := exec handle (Update remote home) bare in
  returned r = None
  ∧ final r
    = add_log (MkLog Fatal "Could not change to directory %q: %s"
                 [show_path (Abs a); err_msg ENOENT])
        (set_cwd (resolve (cwd bare) home) bare)
  ∧ calls (trace r)
    = open_calls home
      ++ [AnyOp (OsStat (absolute (cwd bare) home));
          AnyOp (OsChdir (absolute (cwd bare) home))]
      ++ [AnyOp (OsChdir (Abs a));
          AnyOp (LogDie "Could not change to directory %q: %s"
                   [show_path (Abs a); err_msg ENOENT])].
Proof.
  apply (Update_no_cache remote home bare);
    [by apply sample_prereqs|by vm_compute..].
Defined.

Lemma Update_missing_prereq_witness :
  let w := MkWorld ∅ [] ∅ [] [] ∅ ∅ ∅ ∅ [] false in
  let r := exec handle (Update remote home) w in
  returned r = None ∧ silent (final r) = silent w
  ∧ ∃ fmt args, logs (final r) = logs w ++ [MkLog Fatal fmt args].
Proof.
  apply (Update_missing_prereq remote home). by intros [[? [=]] _].
Defined.

(** A file where the parent of the home directory should be. *)
Definition no_parent : World :=
  set_fs (λ _, {[ ["home"] := File ]}) Sample.world.

(** Set-up machines: a working copy of another remote, no working copy
    and no network, a working copy and no network. *)
Definition foreign : World :=
  set_clones (λ _, {[ cache_dir := ("https://example.com/other", 3) ]}) stale.
Definition offline_bare : World :=
  MkWorld
    {[ ["home"] := Dir; ["home"; "u"] := Dir; ["home"; "u"; ".helm"] := Dir;
       cache_dir := Dir ]}
    [] (search_path Sample.world) [] [] ∅ ∅ ∅ ∅ [] false.
Definition offline : World :=
  MkWorld (fs stale) [] (search_path Sample.world) [] [] ∅ ∅ (clones stale) ∅
    [] false.

Lemma sample_settled w :
  search_path w = search_path Sample.world → cwd w = [] →
  fs w !! ["home"; "u"; ".helm"] = Some Dir → fs w !! cache_dir = Some Dir →
  settled home w.
Proof.
  intros Hs Hc Hh Ha. split_and!; [by apply sample_prereqs|by rw Hc..].
Qed.

Lemma ensureHome_blocked_witness :
  let w := no_parent in
  let p := Rel ["cache"] in
  let r := exec handle (ensureHome home) w in
  returned r = None ∧ fs (final r) = fs w ∧ cwd (final r) = cwd w
  ∧ last (logs (final r))
    = Some (MkLog Fatal "Could not create %q: %s"
              [show_path (Join [home; p]); err_msg ENOTDIR]).
Proof.
  apply (ensureHome_blocked home (Rel ["cache"])
           [Rel ["workspace"]; Rel ["workspace"; "charts"]] no_parent);
    [done|by apply (bool_decide_unpack _)|done].
Defined.

Lemma Update_wrong_remote_witness :
  let w := foreign in
  let a := resolve (cwd w) home ++ comps CachePath in
  runs_to handle (Update remote home) w None
    (died_in a "Could not get repository %q: %s" [remote; err_msg ErrWrongRemote] w)
    (settled_calls home w
     ++ [AnyOp (OsChdir (Abs a)); AnyOp (VcsNewGitRepo remote (Abs a));
         AnyOp (LogDie "Could not get repository %q: %s"
                  [remote; err_msg ErrWrongRemote])]).
Proof.
  apply (Update_wrong_remote remote home foreign "https://example.com/other" 3);
    [by apply sample_settled|done..].
Defined.

Lemma Update_clone_failure_witness :
  let w := offline_bare in
  let a := resolve (cwd w) home ++ comps CachePath in
  runs_to handle (Update remote home) w None
    (add_log (MkLog Fatal "Could not create repository in %q: %s"
                [show_path (Abs a); err_msg ErrGit])
       (add_log (MkLog Info "Cloning repo into %q. Please wait." [show_path (Abs a)])
          (set_cwd a w)))
    (settled_calls home w
     ++ [AnyOp (OsChdir (Abs a)); AnyOp (VcsNewGitRepo remote (Abs a));
         AnyOp (GitCheckLocal (repo_at remote a));
         AnyOp (LogInfo "Cloning repo into %q. Please wait." [show_path (Abs a)]);
         AnyOp (GitGet (repo_at remote a));
         AnyOp (LogDie "Could not create repository in %q: %s"
                  [show_path (Abs a); err_msg ErrGit])]).
Proof.
  apply (Update_clone_failure remote home offline_bare);
    [by apply sample_settled|done..].
Defined.

Lemma Update_pull_failure_witness :
  let w := offline in
  let a := resolve (cwd w) home ++ comps CachePath in
  runs_to handle (Update remote home) w None
    (died_in a "Failed to update from Git: %s" [err_msg ErrGit] w)
    (settled_calls home w
     ++ [AnyOp (OsChdir (Abs a)); AnyOp (VcsNewGitRepo remote (Abs a));
         AnyOp (GitCheckLocal (repo_at remote a))]
     ++ [AnyOp (GitUpdate (repo_at remote a));
         AnyOp (LogDie "Failed to update from Git: %s" [err_msg ErrGit])]).
Proof.
  apply (Update_pull_failure remote home offline 3);
    [by apply sample_settled|done..].
Defined.

Lemma Update_twice_witness :
  let w := Sample.world in
  let r1 := exec handle (Update remote home) w in
  let r2 := exec handle (Update remote home) (final r1) in
  returned r2 = Some ()
  ∧ clonings (trace r2) = []
  ∧ fs (final r2) = fs (final r1)
  ∧ clones (final r2) = clones (final r1)
  ∧ cwd (final r2) = cwd (final r1).
Proof.
  apply (Update_twice remote home Sample.world 7);
    [done|by apply sample_prereqs|apply wf_fs_empty|done
    |by apply (bool_decide_unpack _)|by left|apply sample_cache_is_leaf|done..].
Defined.

Lemma ensureRepo_relative_witness :
  let rel := Rel ["home"; "u"; ".helm"] in
  ∃ g, returned (exec handle (ensureRepo remote rel) bare) = Some g
       ∧ git_local g = Abs ((cwd bare ++ comps rel) ++ comps rel).
Proof.
  eexists. split; [by vm_compute|].
  by apply (ensureRepo_relative remote (Rel ["home"; "u"; ".helm"]) bare);
    [|vm_compute].
Defined.

(** A machine with something else on it, and no home directory yet. *)
Definition shared : World :=
  set_fs (λ _, <[["etc"]:=Dir]> ∅) Sample.world.

Example Update_shared :
  let r := exec handle (Update remote home) shared in
  returned r = Some () ∧ fs (final r) !! ["etc"] = Some Dir
  ∧ fs (final r) !! (cache_dir ++ [".git"]) = Some Dir.
Proof. by vm_compute. Qed.

(** A process that has lost its working directory: [filepath.Abs] cannot
    make a relative path absolute. *)
Definition lost : handler World := λ T o,
  match o in Op T return World → option T * World with
  | FilepathAbs (Path false _) => λ w, (Some (Fail ENOENT), w)
  | o' => handle _ o'
  end.

Example Update_lost :
  let r := exec lost (Update remote (Rel ["home"; "u"; ".helm"])) Sample.world in
  returned r = None ∧ fs (final r) = ∅
  ∧ logs (final r)
    = [MkLog Fatal "Could not generate absolute path for %q: %s"
         [""; err_msg ENOENT]].
Proof. by vm_compute. Qed.

Lemma Update_abs_failure_witness :
  let home := Rel ["home"; "u"; ".helm"] in
  let r := exec lost (Update remote home) Sample.world in
  let fmt := "Could not generate absolute path for %q: %s" in
  returned r = None
  ∧ final r = (lost _ (LogDie fmt [""; err_msg ENOENT])
                 (lost _ (FilepathAbs home) Sample.world).2).2
  ∧ trace r = [Ev (FilepathAbs home) (Some (Fail ENOENT));
               Ev (LogDie fmt [""; err_msg ENOENT]) None].
Proof.
  by apply (Update_abs_failure lost remote (Rel ["home"; "u"; ".helm"])
              Sample.world ENOENT).
Defined.

Lemma Update_stays_home_witness :
  let r := exec handle (Update remote home) shared in
  wf_fs (fs (final r)) ∧ keeps_outside (resolve (cwd shared) home) shared (final r).
Proof.
  apply (Update_stays_home remote home shared).
  apply (wf_fs_insert_dir ∅ [] "etc"); [apply wf_fs_empty|done].
Defined.
End sample.

Arguments gitUpdate : simpl never.
Arguments ensurePrereqs : simpl never.
Arguments ensureRepo : simpl never.
Arguments ensureHome : simpl never.
Arguments Update : simpl never.
