(* ===== verification/Invocations.v ===== *)
(** * Several invocations of the tool at once

    The package runs one thing after another, but nothing keeps two
    invocations of the tool from running on the same home directory.  An
    invocation is a process of its own, with its working directory; the
    file system, the clones, the cluster and the log are shared.  A step of
    the pool is one call of one invocation to the reference environment.
    [pool_step] gives the steps as rules and [play] runs a schedule;
    [solo_run] lets one invocation run a part of its program alone, as
    [Prog.exec] does.  The theorems are about [Update]: what it keeps under
    every interleaving, and the interleaving in which two of them clone
    into the same cache directory. *)

From stdpp Require Import gmap relations.
From S2P Require Import Prelude Paths Chart Prog World Invariant Update.

(** An invocation: what is left of its program and its working directory,
    or one whose process has ended in [log.Die] or waits for ever. *)
Inductive task : Type :=
| Live (p : prog unit) (dir : abspath)
| Dead (dir : abspath).

(** The invocations and the world they share.  The working directory of
    the world is the one the invocations were started in. *)
Definition config : Type := list task * World.

(** What is left of an invocation makes calls in [P] only. *)
Definition task_calls (A : answer_pred) (P : op_pred) (t : task) : Prop :=
  if t is Live p _ then calls_given A P p else True.

Section pool.
Context `{Layout, Collaborators}.
Implicit Types (w : World) (ts : list task) (t : task) (c : config).

(** One call of the invocation [t], made from its own working
    directory. *)
Definition task_step t w : option (task * World) :=
  match t with
  | Live (Vis o k) dir =>
      let r := handle _ o (set_cwd dir w) in
      Some (if r.1 is Some x then Live (k x) (cwd r.2) else Dead (cwd r.2),
            set_cwd (cwd w) r.2)
  | _ => None
  end.

Definition step_at (i : nat) c : option config :=
  t ← c.1 !! i; r ← task_step t c.2; Some (<[i:=r.1]> c.1, r.2).

(** The pool under a schedule: the invocation named next makes a call; a
    name that is not of an invocation that can go on is passed over. *)
Definition play (sched : list nat) c : config :=
  foldl (λ c i, default c (step_at i c)) c sched.

(** The steps as rules: the call is answered, or the process ends in
    it. *)
Inductive pool_step : relation config :=
| step_answer i ts w {T} (o : Op T) k dir x w' :
    ts !! i = Some (Live (Vis o k) dir) →
    handle T o (set_cwd dir w) = (Some x, w') →
    pool_step (ts, w) (<[i:=Live (k x) (cwd w')]> ts, set_cwd (cwd w) w')
| step_end i ts w {T} (o : Op T) k dir w' :
    ts !! i = Some (Live (Vis o k) dir) →
    handle T o (set_cwd dir w) = (None, w') →
    pool_step (ts, w) (<[i:=Dead (cwd w')]> ts, set_cwd (cwd w) w').

(** ** Schedules and steps *)

Lemma step_at_step i c c' : step_at i c = Some c' → pool_step c c'.
Proof.
  destruct c as [ts w]. rw /step_at /=. destruct (ts !! i) as [t|] eqn:Ht; [|done].
  destruct t as [[r|T o k] dir|dir]; try done. simpl.
  destruct (handle T o (set_cwd dir w)) as [[x|] w'] eqn:Hh; intros [= <-].
  - by eapply (step_answer i).
  - by eapply (step_end i).
Qed.

Lemma step_step_at c c' : pool_step c c' → ∃ i, step_at i c = Some c'.
Proof.
  intros [i ts w T o k dir x w' Ht Hh|i ts w T o k dir w' Ht Hh];
    exists i; by rw /step_at /= Ht /= Hh.
Qed.

(** What a schedule reaches is what the steps reach. *)
Lemma play_steps sched c : rtc pool_step c (play sched c).
Proof.
  revert c. induction sched as [|i sched IH]; intros c; [done|]. simpl.
  destruct (step_at i c) as [c'|] eqn:Hs; [|apply IH].
  eapply rtc_l; [by eapply step_at_step|apply IH].
Qed.

Lemma steps_play c c' : rtc pool_step c c' → ∃ sched, play sched c = c'.
Proof.
  induction 1 as [c|c c1 c' Hs _ [sched IH]]; [by exists []|].
  apply step_step_at in Hs as [i Hi]. exists (i :: sched). by rw /= Hi.
Qed.

(** ** One invocation on its own *)

(** What an invocation is left with after the part [p] of its program,
    which sits in the context [F]. *)
Definition left_with {A} (F : prog A → prog unit) (r : run World A) : task :=
  if returned r is Some a then Live (F (Ret a)) (cwd (final r))
  else Dead (cwd (final r)).

(** An invocation that runs alone for a part [p] of its program moves the
    pool as [exec] moves the world. *)
Lemma solo_exec {A} (F : prog A → prog unit) i (p : prog A) dir ts w :
  (∀ T (o : Op T) k, F (Vis o k) = Vis o (λ x, F (k x))) →
  ts !! i = Some (Live (F p) dir) →
  rtc pool_step (ts, w)
    (<[i:=left_with F (exec handle p (set_cwd dir w))]> ts,
     set_cwd (cwd w) (final (exec handle p (set_cwd dir w)))).
Proof.
  intros HF. revert dir ts w. induction p as [a|T o k IH]; intros dir ts w Ht.
  - rw exec_Ret /left_with. cbn [returned final].
    rw set_cwd_set_cwd set_cwd_cwd list_insert_id //.
  - rw exec_Vis. rw HF in Ht.
    destruct (handle T o (set_cwd dir w)) as [[x|] w1] eqn:Hh.
    + eapply rtc_l; [by eapply (step_answer i)|].
      pose proof (IH x (cwd w1) (<[i:=Live (F (k x)) (cwd w1)]> ts)
                    (set_cwd (cwd w) w1)) as Hk.
      rw set_cwd_set_cwd set_cwd_cwd list_insert_insert_eq in Hk.
      apply Hk, list_lookup_insert_eq. by eapply lookup_lt_Some.
    + apply rtc_once. by eapply (step_end i).
Qed.

Lemma solo_run {A} (F : prog A → prog unit) i (p : prog A) dir ts w res w' cs :
  (∀ T (o : Op T) k, F (Vis o k) = Vis o (λ x, F (k x))) →
  ts !! i = Some (Live (F p) dir) →
  runs_to handle p (set_cwd dir w) res w' cs →
  rtc pool_step (ts, w)
    (<[i:=if res is Some a then Live (F (Ret a)) (cwd w') else Dead (cwd w')]> ts,
     set_cwd (cwd w) w').
Proof. intros HF Ht (<- & <- & _). by apply solo_exec. Qed.

(** ** What every interleaving keeps *)

(** A property of the shared world that the calls in [P] keep, from
    whatever directory they are made. *)
Definition shared_inv (P : op_pred) (I : World → Prop) : Prop :=
  ∀ T (o : Op T) w dir,
    P T o → I w → I (set_cwd (cwd w) (handle T o (set_cwd dir w)).2).

Lemma pool_step_keeps A P I c c' :
  answers A handle → shared_inv P I → pool_step c c' →
  Forall (task_calls A P) c.1 → I c.2 →
  Forall (task_calls A P) c'.1 ∧ I c'.2.
Proof.
  intros HA HI Hs Hts Hw.
  destruct Hs as [i ts w T o k dir x w' Ht Hh|i ts w T o k dir w' Ht Hh];
    destruct (Forall_lookup_1 _ _ _ _ Hts Ht) as [Ho Hk];
    specialize (HI T o w dir Ho Hw); rw Hh in HI;
    (split; [apply Forall_insert; [done|]|done]); [|done].
  apply Hk, (HA T o (set_cwd dir w)). by rw Hh.
Qed.

Lemma pool_keeps A P I c c' :
  answers A handle → shared_inv P I → rtc pool_step c c' →
  Forall (task_calls A P) c.1 → I c.2 →
  Forall (task_calls A P) c'.1 ∧ I c'.2.
Proof.
  intros HA HI Hs. induction Hs as [c|c c1 c' Hs _ IH]; [done|].
  intros Hts Hw.
  destruct (pool_step_keeps A P I c c1 HA HI Hs Hts Hw) as [Hts1 Hw1]. by apply IH.
Qed.
End pool.

(** The invocation [i] runs the part [p] of its program alone. *)
Ltac solo i p :=
  lazymatch goal with
  | |- rtc pool_step (?ts, ?w) _ =>
      lazymatch eval cbn [lookup list_lookup] in (ts !! i) with
      | Some (Live ?P ?dir) =>
          lazymatch eval pattern p in P with
          | ?F _ =>
              etrans;
              [eapply (solo_run F i p dir); [done|done|]
              |cbn -[call or_die get_or_die]]
          end
      end
  end.

(** ** Invocations of [Update] on one home directory *)

Section updates.
Context `{Layout, Collaborators}.
Implicit Types (w : World) (a : abspath).

(** What [Update] relies on: an absolute path is its own absolute path,
    and the repository [vcs.NewGitRepo] answers with lives at the absolute
    path it was asked for. *)
Definition absolute_answers : answer_pred := λ T o,
  match o in Op T return T → Prop with
  | FilepathAbs p => λ x, rooted p = true → x = Ok p
  | VcsNewGitRepo _ p => λ x, rooted p = true → ∀ g, x = Ok g → git_local g = p
  | _ => λ _, True
  end.

Lemma handle_absolute_answers : answers absolute_answers handle.
Proof.
  intros T o w x. destruct o; try done; cbn [handle fst].
  - intros [= <-] Hp. by destruct p as [[] cs].
  - intros [= <-] Hp g Hg. rw (do_new_repo_local _ _ _ _ Hg).
    by destruct local as [[] cs].
Qed.

(** The calls of an [Update] of the home directory [a]: they write along
    [a] and none is on a child process. *)
Definition home_op a : op_pred := λ T o, along a T o ∧ no_child T o.

Lemma calls_given_get_or_die {T C} (P : op_pred) (o : Op (result T)) fmt args
    (f : T → prog C) :
  P _ o → (∀ l, P _ (LogDie fmt l)) →
  (∀ x, absolute_answers _ o (Ok x) → calls_given absolute_answers P (f x)) →
  calls_given absolute_answers P (get_or_die (call o) fmt args ≫= f).
Proof.
  intros Ho Hd Hf. split; [done|]. intros [x|e] Hx; simpl; [by apply Hf|].
  split; [done|]. by intros [].
Qed.

Lemma mkdirLoop_home a ps : calls_only (home_op a) (mkdirLoop (Abs a) ps).
Proof.
  induction ps as [|p ps IH]; [constructor|]. cbn [mkdirLoop]. rw Join_Abs.
  assert (home_op a _ (OsMkdirAll (Abs (a ++ comps p)) perm0755))
    by (split; [by eexists|done]).
  solve_calls.
Qed.

Lemma Update_given repo a :
  calls_given absolute_answers (home_op a) (Update repo (Abs a)).
Proof.
  rw /Update. apply calls_given_get_or_die; [done..|]. intros home [= ->]%(λ H, H eq_refl).
  apply calls_given_mbind; [apply calls_only_given; rw /ensurePrereqs; solve_calls|].
  intros [].
  apply calls_given_mbind.
  { apply calls_only_given. rw /ensureHome.
    solve_calls_with ltac:(apply mkdirLoop_home). }
  intros []. rw Join_Abs /ensureRepo.
  apply calls_given_mbind; [|intros git; apply calls_only_given; rw /gitUpdate; solve_calls].
  apply calls_given_mbind; [apply calls_only_given; solve_calls|]. intros [].
  apply calls_given_get_or_die; [done..|]. intros git Hg.
  assert (home_op a _ (GitGet git)).
  { split; [|done]. exists (comps CachePath). by apply Hg. }
  apply calls_only_given. solve_calls.
Qed.

(** What invocations of [Update] on [a] leave alone, from the world [w0]
    they were started in: the file system beside [a], the cluster and the
    child processes; and the file system stays well formed. *)
Definition apart a w0 : World → Prop := λ w,
  keeps_outside a w0 w ∧ cluster w = cluster w0 ∧ procs w = procs w0
  ∧ (wf_fs (fs w0) → wf_fs (fs w)).

Lemma apart_shared a w0 : shared_inv (home_op a) (apart a w0).
Proof.
  intros T o w dir [Ho Hn] (Hk & Hc & Hp & Hwf).
  pose proof (handle_along a o (set_cwd dir w)) as Hfs.
  pose proof (handle_procs o (set_cwd dir w) Hn) as (Hp' & Hc' & _).
  pose proof (handle_wf o (set_cwd dir w)) as Hwf'.
  destruct (handle T o (set_cwd dir w)) as [x w'], w, w'. rw /apart. simpl in *.
  split_and!; [|congruence..|by auto].
  intros b Hb. rw Hfs //. by apply Hk.
Qed.

(** Under every interleaving, invocations of [Update] on the home
    directory [a], as many as there are and however far each gets, leave
    every path alone that is neither above nor below [a], do not touch the
    cluster or a child process, and keep the file system well formed. *)
Theorem Updates_isolated a ts w c :
  Forall (λ t, ∃ repo dir, t = Live (Update repo (Abs a)) dir) ts →
  rtc pool_step (ts, w) c →
  keeps_outside a w c.2 ∧ cluster c.2 = cluster w ∧ procs c.2 = procs w
  ∧ (wf_fs (fs w) → wf_fs (fs c.2)).
Proof.
  intros Hts Hs.
  apply (pool_keeps absolute_answers (home_op a) (apart a w) (ts, w) c);
    [apply handle_absolute_answers|apply apart_shared|done| |by split_and!].
  eapply Forall_impl; [done|]. intros t (repo & dir & ->). apply Update_given.
Qed.

(** ** Two invocations and one cache directory *)

(** One after the other, on a machine that has been set up and has no
    working copy yet, both return: the first clones and the second
    pulls. *)
Theorem Updates_in_turn repo home w head :
  let a := resolve (cwd w) home ++ comps CachePath in
  let start :=
    ([Live (Update repo home) (cwd w); Live (Update repo home) (cwd w)], w) in
  settled home w → wf_fs (fs w) → empty_below (fs w) a = true →
  clones w !! a = None → remotes w !! repo = Some head →
  ∃ w', rtc pool_step start ([Live (Ret ()) a; Live (Ret ()) a], w')
        ∧ clones w' !! a = Some (repo, head)
        ∧ Forall (λ e, log_level e = Info) (drop (length (logs w)) (logs w')).
Proof.
  intros a start Hs Hwf He Hc Hr. pose proof Hs as ((Hg & Hk) & Hh & Ha).
  rw /start. destruct w as [f c sp ps cl dc cc cn rm lg hg]. cbn in *.
  eexists. split.
  - solo 0 (Update repo home).
    { by apply (Update_clone_run repo home
                  (MkWorld f c sp ps cl dc cc cn rm lg hg) head). }
    solo 1 (Update repo home).
    { apply (Update_stale_run repo home _ head head); cbn;
        [done|by apply node_at_insert_dir..|by rw lookup_insert_eq|done]. }
    done.
  - cbn. rw lookup_insert_eq -!app_assoc drop_app_length.
    split; [done|]. by repeat constructor.
Qed.

(** But there is an interleaving in which one of them ends the process:
    the first looks for a working copy and finds none, the second then
    runs from its first call to its last and clones, and the first, which
    goes by what it saw, clones into a directory that is no longer empty. *)
Theorem Updates_race repo home w head :
  let a := resolve (cwd w) home ++ comps CachePath in
  let start :=
    ([Live (Update repo home) (cwd w); Live (Update repo home) (cwd w)], w) in
  settled home w → wf_fs (fs w) → empty_below (fs w) a = true →
  clones w !! a = None → remotes w !! repo = Some head →
  ∃ w', rtc pool_step start ([Dead a; Live (Ret ()) a], w')
        ∧ clones w' !! a = Some (repo, head)
        ∧ last (logs w')
          = Some (MkLog Fatal "Could not create repository in %q: %s"
                    [show_path (Abs a); err_msg ErrGit]).
Proof.
  intros a start Hs Hwf He Hc Hr. pose proof Hs as ((Hg & Hk) & Hh & Ha).
  rw /start {1}/Update. destruct w as [f c sp ps cl dc cc cn rm lg hg]. cbn in *.
  eexists. split.
  - solo 0 (get_or_die (call (FilepathAbs home))
              "Could not generate absolute path for %q: %s" [""]).
    { apply abs_run. }
    solo 0 ensurePrereqs. { by apply ensurePrereqs_run. }
    solo 0 (ensureHome (absolute c home)). { by apply ensureHome_existing_run. }
    rw /ensureRepo Join_Abs resolve_absolute -/a.
    solo 0 (or_die (call (OsChdir (Abs a)))
              "Could not change to directory %q: %s" [show_path (Abs a)]).
    { by apply chdir_run. }
    solo 0 (get_or_die (call (VcsNewGitRepo repo (Abs a)))
              "Could not get repository %q: %s" [repo]).
    { apply new_repo_run. by rw /= Hc. }
    solo 0 (call (GitCheckLocal (repo_at repo a))). { apply check_local_run. }
    rw Hc. cbn -[call or_die get_or_die].
    solo 1 (Update repo home).
    { by apply (Update_clone_run repo home
                  (MkWorld f c sp ps cl dc cc cn rm lg hg) head). }
    solo 0 (call (LogInfo "Cloning repo into %q. Please wait." [show_path (Abs a)])).
    { by apply runs_to_call. }
    solo 0 (or_die (call (GitGet (repo_at repo a)))
              "Could not create repository in %q: %s" [show_path (Abs a)]).
    { apply get_refused_run, empty_below_insert. }
    done.
  - cbn. by rw lookup_insert_eq last_snoc.
Qed.
End updates.

(** ** The sample: two invocations on a home directory that is set up *)

Section sample.
#[local] Existing Instances Sample.layout Sample.collaborators.

(** The machine after the bootstrap of the home directory, before the
    first clone. *)
Definition ready : World :=
  set_cwd [] (final (exec handle (ensureHome home) Sample.world)).

Definition both : config :=
  ([Live (Update remote home) []; Live (Update remote home) []], ready).

(** The first runs to its end, then the second. *)
Example both_in_turn :
  let c := play (replicate 12 0 ++ replicate 10 1) both in
  c.1 = [Live (Ret ()) cache_dir; Live (Ret ()) cache_dir]
  ∧ clones c.2 !! cache_dir = Some (remote, 7)
  ∧ log_fmt <$> logs c.2
    = ["Creating %s"; "Cloning repo into %q. Please wait."; "Updated"; "Updated"].
Proof. by vm_compute. Qed.

(** The first makes its eight calls up to [CheckLocal], the second runs
    to its end, the first goes on. *)
Example both_race :
  let c := play (replicate 8 0 ++ replicate 12 1 ++ replicate 3 0) both in
  c.1 = [Dead cache_dir; Live (Ret ()) cache_dir]
  ∧ clones c.2 !! cache_dir = Some (remote, 7)
  ∧ log_fmt <$> logs c.2
    = ["Creating %s"; "Cloning repo into %q. Please wait."; "Updated";
       "Cloning repo into %q. Please wait.";
       "Could not create repository in %q: %s"].
Proof. by vm_compute. Qed.

Lemma ready_wf : wf_fs (fs ready).
Proof.
  apply (exec_wf (ensureHome home) Sample.world), wf_fs_empty.
Qed.

Lemma ready_settled : settled home ready.
Proof. by apply sample_settled. Qed.

Lemma Updates_in_turn_witness :
  let a := resolve (cwd ready) home ++ comps CachePath in
  ∃ w', rtc pool_step both ([Live (Ret ()) a; Live (Ret ()) a], w')
        ∧ clones w' !! a = Some (remote, 7)
        ∧ Forall (λ e, log_level e = Info) (drop (length (logs ready)) (logs w')).
Proof.
  apply (Updates_in_turn remote home ready 7);
    [apply ready_settled|apply ready_wf|done..].
Defined.

Lemma Updates_race_witness :
  let a := resolve (cwd ready) home ++ comps CachePath in
  ∃ w', rtc pool_step both ([Dead a; Live (Ret ()) a], w')
        ∧ clones w' !! a = Some (remote, 7)
        ∧ last (logs w')
          = Some (MkLog Fatal "Could not create repository in %q: %s"
                    [show_path (Abs a); err_msg ErrGit]).
Proof.
  apply (Updates_race remote home ready 7);
    [apply ready_settled|apply ready_wf|done..].
Defined.

Lemma Updates_isolated_witness :
  let c := play (replicate 8 0 ++ replicate 12 1 ++ replicate 3 0) both in
  keeps_outside ["home"; "u"; ".helm"] ready c.2
  ∧ cluster c.2 = cluster ready ∧ procs c.2 = procs ready
  ∧ (wf_fs (fs ready) → wf_fs (fs c.2)).
Proof.
  apply (Updates_isolated ["home"; "u"; ".helm"] both.1 ready), play_steps.
  repeat constructor; by eexists _, _.
Defined.
End sample.
